(** * llm-gateway-go: the prompt-size router and its usage metrics

    A shallow embedding of [gateway.go] (both variants kept in the
    repository: the earlier router without metrics, and the canonical
    router with the [/metrics] endpoint), followed by the properties of
    the routing policy, the payload analyzer, the proxy handler and the
    metrics aggregator.

    Go values are modelled as follows.
    - [int] is a 64-bit two's complement integer: a [Z] with the
      wrap-around of [+] written out ([GoInt.add]).
    - [string] and [[]byte] are byte sequences: a Rocq [string], whose
      characters are the 8-bit [ascii] values; [len] is the byte length.
    - [map[string]int] and [http.Header] are finite maps ([gmap]).
    - [float64] is an IEEE 754 binary64 value ([spec_float] with
      precision 53 and maximal exponent 1024).
    - the packages [encoding/json] and [net/http] are not part of the
      repository; the parts the gateway calls are modelled after their
      documented behaviour in the modules [Json] and [Http]. *)

From Stdlib Require Import ZArith Ascii String List Bool Lia.
From Stdlib Require Import Floats.SpecFloat.
From stdpp Require Import gmap strings list fin_maps.

Local Open Scope Z_scope.

(** ** Go's 64-bit [int] *)

Module GoInt.

Definition minInt : Z := - 2 ^ 63.
Definition maxInt : Z := 2 ^ 63 - 1.

(** Two's complement reduction into [minInt .. maxInt]. *)
Definition wrap (z : Z) : Z := (z + 2 ^ 63) mod 2 ^ 64 - 2 ^ 63.

(** [x + y] on [int]. *)
Definition add (x y : Z) : Z := wrap (x + y).

Definition inRange (z : Z) : Prop := minInt <= z <= maxInt.

(** [len(s)] of a string or byte slice. *)
Definition len (s : string) : Z := Z.of_nat (String.length s).

End GoInt.

(** ** Errors and results *)

(** The errors the gateway can see: those returned by
    [json.Unmarshal], by reading a body, by the upstream round trip and
    by writing to the caller, and the wrapping done with [fmt.Errorf]. *)
Inductive error : Type :=
  | SyntaxError
  | UnmarshalTypeError (value : string) (goType : string)
  | ReadError
  | TransportError
  | ErrBodyNotAllowed
  | WriteError
  | Wrapped (msg : string) (cause : error).

Inductive result (A : Type) : Type :=
  | Ok (a : A)
  | Err (e : error).
Arguments Ok {A} a.
Arguments Err {A} e.

(** ** Bytes *)

Definition quote : ascii := "034"%char.
Definition backslash : ascii := "092"%char.

Definition code (c : ascii) : Z := Z.of_N (N_of_ascii c).
Definition byte (z : Z) : ascii := ascii_of_N (Z.to_N z).

Definition between (lo hi c : ascii) : bool :=
  (code lo <=? code c) && (code c <=? code hi).

Definition isDigit (c : ascii) : bool := between "0" "9" c.
Definition isDigit19 (c : ascii) : bool := between "1" "9" c.
Definition isHex (c : ascii) : bool :=
  between "0" "9" c || between "a" "f" c || between "A" "F" c.

(** ** [encoding/json]: the scanner, string unquoting and the value tree

    [json.Unmarshal] first validates the whole input with the scanner of
    [scanner.go], a byte-stepping automaton with an explicit stack
    [parseState], and then walks the input again to fill the target.
    The automaton below has the states and transitions of [scanner.go];
    in addition each stack entry carries the members or elements read so
    far, so that the run also yields the value that was read. *)

Module Json.

#[local] Set Warnings "-register-all".

Inductive jvalue : Type :=
  | JNull
  | JBool (b : bool)
  | JNumber (literal : string)
  | JString (s : string)
  | JArray (elems : list jvalue)
  | JObject (members : list (string * jvalue)).

(** *** [unicode/utf8] and [unicode/utf16] *)

(** U+FFFD, [unicode.ReplacementChar], in UTF-8. *)
Definition replacementChar : string :=
  String (byte 0xEF) (String (byte 0xBF) (String (byte 0xBD) EmptyString)).

(** The table [first] of [unicode/utf8]: for a leading byte of a
    multi-byte sequence, its size and the accepted range of the second
    byte; [None] for a byte that cannot start a sequence. *)
Definition first (c : ascii) : option (nat * Z * Z) :=
  let b := code c in
  if (0xC2 <=? b) && (b <=? 0xDF) then Some (2%nat, 0x80, 0xBF)
  else if b =? 0xE0 then Some (3%nat, 0xA0, 0xBF)
  else if (0xE1 <=? b) && (b <=? 0xEC) then Some (3%nat, 0x80, 0xBF)
  else if b =? 0xED then Some (3%nat, 0x80, 0x9F)
  else if (0xEE <=? b) && (b <=? 0xEF) then Some (3%nat, 0x80, 0xBF)
  else if b =? 0xF0 then Some (4%nat, 0x90, 0xBF)
  else if (0xF1 <=? b) && (b <=? 0xF3) then Some (4%nat, 0x80, 0xBF)
  else if b =? 0xF4 then Some (4%nat, 0x80, 0x8F)
  else None.

Definition inRange (lo hi : Z) (c : ascii) : bool :=
  (lo <=? code c) && (code c <=? hi).

Definition isCont (c : ascii) : bool := inRange 0x80 0xBF c.

(** [utf8.EncodeRune]. *)
Definition encodeRune (r : Z) : string :=
  if r <? 0 then replacementChar
  else if r <=? 0x7F then String (byte r) EmptyString
  else if r <=? 0x7FF then
    String (byte (Z.lor 0xC0 (Z.shiftr r 6)))
      (String (byte (Z.lor 0x80 (Z.land r 0x3F))) EmptyString)
  else if (0xD800 <=? r) && (r <=? 0xDFFF) then replacementChar
  else if r <=? 0xFFFF then
    String (byte (Z.lor 0xE0 (Z.shiftr r 12)))
      (String (byte (Z.lor 0x80 (Z.land (Z.shiftr r 6) 0x3F)))
         (String (byte (Z.lor 0x80 (Z.land r 0x3F))) EmptyString))
  else if r <=? 0x10FFFF then
    String (byte (Z.lor 0xF0 (Z.shiftr r 18)))
      (String (byte (Z.lor 0x80 (Z.land (Z.shiftr r 12) 0x3F)))
         (String (byte (Z.lor 0x80 (Z.land (Z.shiftr r 6) 0x3F)))
            (String (byte (Z.lor 0x80 (Z.land r 0x3F))) EmptyString)))
  else replacementChar.

Definition hexVal (c : ascii) : Z :=
  if between "0" "9" c then code c - code "0"
  else if between "a" "f" c then code c - code "a" + 10
  else code c - code "A" + 10.

(** [getu4] on the four digits that follow a backslash and [u]. *)
Definition hex4 (h1 h2 h3 h4 : ascii) : option Z :=
  if isHex h1 && isHex h2 && isHex h3 && isHex h4
  then Some (((hexVal h1 * 16 + hexVal h2) * 16 + hexVal h3) * 16 + hexVal h4)
  else None.

(** [utf16.IsSurrogate] and [utf16.DecodeRune]. *)
Definition isSurrogate (r : Z) : bool := (0xD800 <=? r) && (r <? 0xE000).

Definition decodeSurrogates (r1 r2 : Z) : option Z :=
  if (0xD800 <=? r1) && (r1 <? 0xDC00) && (0xDC00 <=? r2) && (r2 <? 0xE000)
  then Some (Z.lor (Z.shiftl (r1 - 0xD800) 10) (r2 - 0xDC00) + 0x10000)
  else None.

(** A second escape [\uXXXX] at the head of [s], as [getu4(s[r:])]. *)
Definition getu4 (s : string) : option Z :=
  match s with
  | String b (String u (String h1 (String h2 (String h3 (String h4 _))))) =>
      if Ascii.eqb b backslash && Ascii.eqb u "u" then hex4 h1 h2 h3 h4 else None
  | _ => None
  end.

Definition simpleEscape (c : ascii) : option ascii :=
  if Ascii.eqb c quote then Some quote
  else if Ascii.eqb c backslash then Some backslash
  else if Ascii.eqb c "/" then Some "/"%char
  else if Ascii.eqb c "b" then Some (byte 8)
  else if Ascii.eqb c "f" then Some (byte 12)
  else if Ascii.eqb c "n" then Some (byte 10)
  else if Ascii.eqb c "r" then Some (byte 13)
  else if Ascii.eqb c "t" then Some (byte 9)
  else None.

Definition cons_opt (c : ascii) (o : option string) : option string :=
  match o with Some t => Some (String c t) | None => None end.

Definition app_opt (p : string) (o : option string) : option string :=
  match o with Some t => Some (String.append p t) | None => None end.

(** [unquoteBytes] on the bytes between the two quotes of a string
    literal: escapes are replaced, a surrogate pair of escapes becomes
    one rune, a lone surrogate and every byte that is not part of a
    valid UTF-8 sequence become U+FFFD.  [None] is the [ok = false] of
    the Go function: a quote or control character in the literal, or an
    escape the scanner would not have accepted. *)
Fixpoint unquote (s : string) : option string :=
  match s with
  | EmptyString => Some EmptyString
  | String c rest =>
    if Ascii.eqb c backslash then
      match rest with
      | EmptyString => None
      | String e rest1 =>
        if Ascii.eqb e "u" then
          match rest1 with
          | String h1 (String h2 (String h3 (String h4 rest2))) =>
            match hex4 h1 h2 h3 h4 with
            | None => None
            | Some rr =>
              if isSurrogate rr then
                match getu4 rest2, rest2 with
                | Some rr1,
                  String _ (String _ (String _ (String _ (String _ (String _ rest3))))) =>
                  match decodeSurrogates rr rr1 with
                  | Some dec => app_opt (encodeRune dec) (unquote rest3)
                  | None => app_opt replacementChar (unquote rest2)
                  end
                | _, _ => app_opt replacementChar (unquote rest2)
                end
              else app_opt (encodeRune rr) (unquote rest2)
            end
          | _ => None
          end
        else
          match simpleEscape e with
          | Some d => cons_opt d (unquote rest1)
          | None => None
          end
      end
    else if Ascii.eqb c quote || (code c <? 0x20) then None
    else if code c <? 0x80 then cons_opt c (unquote rest)
    else
      let invalid := app_opt replacementChar (unquote rest) in
      match first c with
      | None => invalid
      | Some (sz, lo, hi) =>
        match rest with
        | EmptyString => invalid
        | String b1 r1 =>
          if negb (inRange lo hi b1) then invalid
          else if (sz <=? 2)%nat then cons_opt c (cons_opt b1 (unquote r1))
          else
            match r1 with
            | EmptyString => invalid
            | String b2 r2 =>
              if negb (isCont b2) then invalid
              else if (sz <=? 3)%nat then
                cons_opt c (cons_opt b1 (cons_opt b2 (unquote r2)))
              else
                match r2 with
                | EmptyString => invalid
                | String b3 r3 =>
                  if negb (isCont b3) then invalid
                  else cons_opt c (cons_opt b1 (cons_opt b2 (cons_opt b3 (unquote r3))))
                end
            end
        end
      end
  end.

(** *** The scanner of [scanner.go] *)

(** The step functions of the scanner. *)
Inductive stepfn : Type :=
  | stateBeginValue | stateBeginValueOrEmpty
  | stateBeginStringOrEmpty | stateBeginString
  | stateEndValue | stateEndTop
  | stateInString | stateInStringEsc
  | stateInStringEscU | stateInStringEscU1 | stateInStringEscU12 | stateInStringEscU123
  | stateNeg | state1 | state0 | stateDot | stateDot0 | stateE | stateESign | stateE0
  | stateT | stateTr | stateTru
  | stateF | stateFa | stateFal | stateFals
  | stateN | stateNu | stateNul
  | stateError.

(** An entry of [parseState], with what was read of the composite value
    so far: the members of an object whose next key is awaited or being
    read, the same with the key whose value is being read, the elements
    of an array. *)
Inductive frame : Type :=
  | parseObjectKey (members : list (string * jvalue))
  | parseObjectValue (members : list (string * jvalue)) (key : string)
  | parseArrayValue (elems : list jvalue).

Definition maxNestingDepth : Z := 10000.

Record scanner : Type := {
  step : stepfn;
  parseState : list frame;
  literal : string;      (* the bytes of the literal being scanned *)
  value : jvalue         (* the value completed last *)
}.

Definition reset : scanner :=
  {| step := stateBeginValue; parseState := []; literal := EmptyString; value := JNull |}.

Definition isSpace (c : ascii) : bool :=
  Ascii.eqb c " " || Ascii.eqb c (byte 9) || Ascii.eqb c (byte 13) || Ascii.eqb c (byte 10).

Definition goto (s : scanner) (st : stepfn) : scanner :=
  {| step := st; parseState := parseState s; literal := literal s; value := value s |}.

Definition scanError (s : scanner) : scanner := goto s stateError.

(** Entering a literal: its first byte is kept. *)
Definition beginLiteral (s : scanner) (st : stepfn) (c : ascii) : scanner :=
  {| step := st; parseState := parseState s;
     literal := String c EmptyString; value := value s |}.

(** One more byte of the literal. *)
Definition continue (s : scanner) (st : stepfn) (c : ascii) : scanner :=
  {| step := st; parseState := parseState s;
     literal := String.append (literal s) (String c EmptyString); value := value s |}.

Definition pushParseState (s : scanner) (f : frame) (st : stepfn) : scanner :=
  if Z.of_nat (length (f :: parseState s)) <=? maxNestingDepth
  then {| step := st; parseState := f :: parseState s;
          literal := EmptyString; value := value s |}
  else scanError s.

(** [popParseState]: the composite value [v] is complete. *)
Definition popParseState (s : scanner) (v : jvalue) : scanner :=
  match parseState s with
  | [] => scanError s
  | _ :: rest =>
    {| step := match rest with [] => stateEndTop | _ => stateEndValue end;
       parseState := rest; literal := EmptyString; value := v |}
  end.

(** A scalar [v] is complete. *)
Definition endLiteral (s : scanner) (v : jvalue) : scanner :=
  {| step := stateEndValue; parseState := parseState s;
     literal := EmptyString; value := v |}.

Definition setTop (s : scanner) (f : frame) (st : stepfn) : scanner :=
  {| step := st; parseState := f :: tl (parseState s);
     literal := EmptyString; value := value s |}.

Definition doEndTop (s : scanner) (c : ascii) : scanner :=
  if isSpace c then goto s stateEndTop else scanError s.

Definition doEndValue (s : scanner) (c : ascii) : scanner :=
  match parseState s with
  | [] => doEndTop s c
  | ps :: _ =>
    if isSpace c then goto s stateEndValue
    else
      match ps with
      | parseObjectKey ms =>
        match value s with
        | JString k =>
          if Ascii.eqb c ":" then setTop s (parseObjectValue ms k) stateBeginValue
          else scanError s
        | _ => scanError s
        end
      | parseObjectValue ms k =>
        if Ascii.eqb c "," then setTop s (parseObjectKey (ms ++ [(k, value s)])) stateBeginString
        else if Ascii.eqb c "}" then popParseState s (JObject (ms ++ [(k, value s)]))
        else scanError s
      | parseArrayValue es =>
        if Ascii.eqb c "," then setTop s (parseArrayValue (es ++ [value s])) stateBeginValue
        else if Ascii.eqb c "]" then popParseState s (JArray (es ++ [value s]))
        else scanError s
      end
  end.

Definition doBeginValue (s : scanner) (c : ascii) : scanner :=
  if isSpace c then s
  else if Ascii.eqb c "{" then pushParseState s (parseObjectKey []) stateBeginStringOrEmpty
  else if Ascii.eqb c "[" then pushParseState s (parseArrayValue []) stateBeginValueOrEmpty
  else if Ascii.eqb c quote then beginLiteral s stateInString c
  else if Ascii.eqb c "-" then beginLiteral s stateNeg c
  else if Ascii.eqb c "0" then beginLiteral s state0 c
  else if Ascii.eqb c "t" then beginLiteral s stateT c
  else if Ascii.eqb c "f" then beginLiteral s stateF c
  else if Ascii.eqb c "n" then beginLiteral s stateN c
  else if isDigit19 c then beginLiteral s state1 c
  else scanError s.

Definition doBeginString (s : scanner) (c : ascii) : scanner :=
  if isSpace c then s
  else if Ascii.eqb c quote then beginLiteral s stateInString c
  else scanError s.

(** The end of a number is seen at the byte after it. *)
Definition endNumber (s : scanner) (c : ascii) : scanner :=
  doEndValue (endLiteral s (JNumber (literal s))) c.

Definition do0 (s : scanner) (c : ascii) : scanner :=
  if Ascii.eqb c "." then continue s stateDot c
  else if Ascii.eqb c "e" || Ascii.eqb c "E" then continue s stateE c
  else endNumber s c.

Definition doESign (s : scanner) (c : ascii) : scanner :=
  if isDigit c then continue s stateE0 c else scanError s.

Definition expect (s : scanner) (c want : ascii) (st : stepfn) : scanner :=
  if Ascii.eqb c want then continue s st c else scanError s.

Definition expectLast (s : scanner) (c want : ascii) (v : jvalue) : scanner :=
  if Ascii.eqb c want then endLiteral s v else scanError s.

Definition expectHex (s : scanner) (c : ascii) (st : stepfn) : scanner :=
  if isHex c then continue s st c else scanError s.

(** The closing quote: the literal, without its opening quote, is
    unquoted. *)
Definition endString (s : scanner) : scanner :=
  match literal s with
  | String _ body =>
    match unquote body with
    | Some t => endLiteral s (JString t)
    | None => scanError s
    end
  | EmptyString => scanError s
  end.

(** [s.step(s, c)]. *)
Definition scan (s : scanner) (c : ascii) : scanner :=
  match step s with
  | stateBeginValue => doBeginValue s c
  | stateBeginValueOrEmpty =>
    if isSpace c then s
    else if Ascii.eqb c "]" then
      match parseState s with
      | parseArrayValue es :: _ => popParseState s (JArray es)
      | _ => scanError s
      end
    else doBeginValue s c
  | stateBeginStringOrEmpty =>
    if isSpace c then s
    else if Ascii.eqb c "}" then
      match parseState s with
      | parseObjectKey ms :: _ => popParseState s (JObject ms)
      | _ => scanError s
      end
    else doBeginString s c
  | stateBeginString => doBeginString s c
  | stateEndValue => doEndValue s c
  | stateEndTop => doEndTop s c
  | stateInString =>
    if Ascii.eqb c quote then endString s
    else if Ascii.eqb c backslash then continue s stateInStringEsc c
    else if code c <? 0x20 then scanError s
    else continue s stateInString c
  | stateInStringEsc =>
    if Ascii.eqb c "u" then continue s stateInStringEscU c
    else match simpleEscape c with
         | Some _ => continue s stateInString c
         | None => scanError s
         end
  | stateInStringEscU => expectHex s c stateInStringEscU1
  | stateInStringEscU1 => expectHex s c stateInStringEscU12
  | stateInStringEscU12 => expectHex s c stateInStringEscU123
  | stateInStringEscU123 => expectHex s c stateInString
  | stateNeg =>
    if Ascii.eqb c "0" then continue s state0 c
    else if isDigit19 c then continue s state1 c
    else scanError s
  | state1 => if isDigit c then continue s state1 c else do0 s c
  | state0 => do0 s c
  | stateDot => if isDigit c then continue s stateDot0 c else scanError s
  | stateDot0 =>
    if isDigit c then continue s stateDot0 c
    else if Ascii.eqb c "e" || Ascii.eqb c "E" then continue s stateE c
    else endNumber s c
  | stateE =>
    if Ascii.eqb c "+" || Ascii.eqb c "-" then continue s stateESign c
    else doESign s c
  | stateESign => doESign s c
  | stateE0 => if isDigit c then continue s stateE0 c else endNumber s c
  | stateT => expect s c "r" stateTr
  | stateTr => expect s c "u" stateTru
  | stateTru => expectLast s c "e" (JBool true)
  | stateF => expect s c "a" stateFa
  | stateFa => expect s c "l" stateFal
  | stateFal => expect s c "s" stateFals
  | stateFals => expectLast s c "e" (JBool false)
  | stateN => expect s c "u" stateNu
  | stateNu => expect s c "l" stateNul
  | stateNul => expectLast s c "l" JNull
  | stateError => s
  end.

(** The loop of [checkValid]. *)
Fixpoint scanAll (s : scanner) (data : string) : scanner :=
  match data with
  | EmptyString => s
  | String c rest => scanAll (scan s c) rest
  end.

(** [eof]: unless the top-level value is already complete, the end of
    the input is treated as one more space. *)
Definition eof (s : scanner) : option jvalue :=
  match step s with
  | stateError => None
  | stateEndTop => Some (value s)
  | _ =>
    let s' := scan s " " in
    match step s' with
    | stateEndTop => Some (value s')
    | _ => None
    end
  end.

(** The value a JSON text denotes; [None] when [checkValid] fails. *)
Definition parse (data : string) : option jvalue := eof (scanAll reset data).

End Json.

(** ** [float64]

    IEEE 754 binary64 with rounding to nearest, ties to even, as
    specified by [SpecFloat].  Every operation is rounded on its own;
    a compiler that fuses the product and the sum of
    [TotalCost += estimatedCost] into one operation is not modelled. *)

Module Float64.

Definition prec : Z := 53.
Definition emax : Z := 1024.

Definition add (x y : spec_float) : spec_float := SFadd prec emax x y.
Definition mul (x y : spec_float) : spec_float := SFmul prec emax x y.
Definition leb (x y : spec_float) : bool := SFleb x y.

(** The conversion [float64(n)] of an [int]. *)
Definition ofInt (n : Z) : spec_float := binary_normalize prec emax n 0 false.

Definition zero : spec_float := S754_zero false.

(** A well-formed number that is not negative: zero, a positive
    finite number in canonical form, or infinity. *)
Definition goodFor (prec emax : Z) (x : spec_float) : bool :=
  match x with
  | S754_zero false => true
  | S754_infinity false => true
  | S754_finite false m e => bounded prec emax m e
  | _ => false
  end.

Definition good (x : spec_float) : bool := goodFor prec emax x.

End Float64.

(** ** Request body structures

    Both variants of the gateway declare the same two structures. *)

Record Message : Type := {
  Role : string;      (* `json:"role"` *)
  Content : string    (* `json:"content"` *)
}.

Record RequestPayload : Type := {
  Messages : list Message   (* `json:"messages"` *)
}.

(** ** [json.Unmarshal] into a [RequestPayload]

    The decoder of [decode.go], specialised to the two structures: what
    its reflective walk does for a struct, for a slice of structs and
    for a string field. *)

Module JsonDecode.
Import Json.

(** [foldName]: the case folding under which an object key is matched
    with a field name when it is not equal to it.  ASCII letters are
    compared without case, and the two runes whose simple folding is an
    ASCII letter, U+017F (long s) and U+212A (Kelvin sign), count as
    that letter; no other rune folds to an ASCII byte, so it is kept. *)
Fixpoint foldName (s : string) : string :=
  match s with
  | EmptyString => EmptyString
  | String c rest =>
    if between "a" "z" c then String (byte (code c - 32)) (foldName rest)
    else
      match rest with
      | String d rest1 =>
        if (code c =? 0xC5) && (code d =? 0xBF) then String "S" (foldName rest1)
        else
          match rest1 with
          | String e rest2 =>
            if (code c =? 0xE2) && (code d =? 0x84) && (code e =? 0xAA)
            then String "K" (foldName rest2)
            else String c (foldName rest)
          | EmptyString => String c (foldName rest)
          end
      | EmptyString => String c (foldName rest)
      end
  end.

(** Whether the object key [key] selects the field tagged [name]. *)
Definition matchField (name key : string) : bool :=
  String.eqb key name || String.eqb (foldName key) (foldName name).

Definition kindOf (v : jvalue) : string :=
  match v with
  | JNull => "null"
  | JBool _ => "bool"
  | JNumber _ => "number"
  | JString _ => "string"
  | JArray _ => "array"
  | JObject _ => "object"
  end.

(** [saveError]: the first error is kept, and decoding goes on. *)
Definition saveError (saved : option error) (e : error) : option error :=
  match saved with
  | Some _ => saved
  | None => Some e
  end.

(** A JSON value stored into a [string]: [null] leaves it as it is. *)
Definition decodeString (cur : string) (v : jvalue) (saved : option error)
  : string * option error :=
  match v with
  | JString s => (s, saved)
  | JNull => (cur, saved)
  | _ => (cur, saveError saved (UnmarshalTypeError (kindOf v) "string"))
  end.

(** One member of an object stored into a [Message]; a key that selects
    no field is skipped together with its value. *)
Definition decodeMessageField (acc : Message * option error) (kv : string * jvalue)
  : Message * option error :=
  let '(m, saved) := acc in
  let '(key, v) := kv in
  if matchField "role" key then
    let '(s, e) := decodeString (Role m) v saved in
    ({| Role := s; Content := Content m |}, e)
  else if matchField "content" key then
    let '(s, e) := decodeString (Content m) v saved in
    ({| Role := Role m; Content := s |}, e)
  else (m, saved).

Definition decodeMessage (cur : Message) (v : jvalue) (saved : option error)
  : Message * option error :=
  match v with
  | JObject ms => fold_left decodeMessageField ms (cur, saved)
  | JNull => (cur, saved)
  | _ => (cur, saveError saved (UnmarshalTypeError (kindOf v) "main.Message"))
  end.

Definition zeroMessage : Message := {| Role := EmptyString; Content := EmptyString |}.

(** A slice of messages: the array it points into, from its first
    element to its capacity, and its length.  Elements of the array
    that were never written are zero and need not be listed. *)
Record slice : Type := { backing : list Message; slen : nat }.

Definition nilSlice : slice := {| backing := []; slen := 0 |}.

(** The elements of a JSON array are stored one by one into the
    elements of the array behind the slice, the [i]-th one into
    [v.Index(i)] as it is at that moment. *)
Fixpoint decodeElems (es : list jvalue) (arr : list Message) (saved : option error)
  : list Message * option error :=
  match es with
  | [] => ([], saved)
  | v :: es' =>
    let '(m, e) := decodeMessage (hd zeroMessage arr) v saved in
    let '(ms, e') := decodeElems es' (tl arr) e in
    (m :: ms, e')
  end.

(** A JSON value stored into a [[]Message]. *)
Definition decodeMessages (cur : slice) (v : jvalue) (saved : option error)
  : slice * option error :=
  match v with
  | JArray [] => (nilSlice, saved)
  | JArray es =>
    let '(ms, e) := decodeElems es (backing cur) saved in
    ({| backing := ms ++ drop (length es) (backing cur); slen := length es |}, e)
  | JNull => (nilSlice, saved)
  | _ => (cur, saveError saved (UnmarshalTypeError (kindOf v) "[]main.Message"))
  end.

Definition decodePayloadField (acc : slice * option error) (kv : string * jvalue)
  : slice * option error :=
  let '(sl, saved) := acc in
  let '(key, v) := kv in
  if matchField "messages" key then decodeMessages sl v saved else (sl, saved).

(** A JSON value stored into a zero [RequestPayload]. *)
Definition decodePayload (v : jvalue) : result RequestPayload :=
  match v with
  | JObject ms =>
    let '(sl, saved) := fold_left decodePayloadField ms (nilSlice, None) in
    match saved with
    | Some e => Err e
    | None => Ok {| Messages := take (slen sl) (backing sl) |}
    end
  | JNull => Ok {| Messages := [] |}
  | _ => Err (UnmarshalTypeError (kindOf v) "main.RequestPayload")
  end.

End JsonDecode.

(** [json.Unmarshal(bodyBytes, &payload)] with [var payload RequestPayload]. *)
Definition json_Unmarshal (data : string) : result RequestPayload :=
  match Json.parse data with
  | None => Err SyntaxError
  | Some v => JsonDecode.decodePayload v
  end.

(** A JSON text written with ['] for the double quote. *)
Definition js (s : string) : string :=
  string_of_list_ascii
    (map (fun c => if Ascii.eqb c "'" then quote else c) (list_ascii_of_string s)).

(** ** [net/http]: headers, requests, responses and the response writer *)

Module Http.

(** [http.Header]. *)
Abbreviation HeaderMap := (gmap string (list string)).

(** [h.Get(key)] and [h.Set(key, value)]; the gateway applies them to
    the names [Authorization], [Content-Type] and
    [X-Content-Type-Options], which are in canonical form already. *)
Definition HeaderGet (h : HeaderMap) (key : string) : string :=
  match h !! key with
  | Some (v :: _) => v
  | _ => EmptyString
  end.

Definition HeaderSet (h : HeaderMap) (key value : string) : HeaderMap :=
  <[key := [value]]> h.

Definition MethodPost : string := "POST".
Definition StatusOK : Z := 200.
Definition StatusSwitchingProtocols : Z := 101.
Definition StatusNoContent : Z := 204.
Definition StatusNotModified : Z := 304.
Definition StatusBadRequest : Z := 400.
Definition StatusMethodNotAllowed : Z := 405.
Definition StatusInternalServerError : Z := 500.
Definition StatusBadGateway : Z := 502.

(** [http.Request], inbound and outbound.  [Body] is what reading the
    body to its end yields: its bytes, or an error. *)
Record Request : Type := {
  Method : string;
  URL : string;
  Header : HeaderMap;
  Body : result string;
  RemoteAddr : string
}.

(** [http.Response]: the body is a stream that delivers [ResponseBody]
    and then ends, or breaks when [BodyBreaks] is set. *)
Record Response : Type := {
  StatusCode : Z;
  ResponseHeader : HeaderMap;
  ResponseBody : string;
  BodyBreaks : bool
}.

(** The server's [http.ResponseWriter].  [handlerHeader] is the map
    [w.Header()] returns.  What goes to the caller is the status line
    with [wireHeader], the copy of that map taken when the header is
    written, then [wireBody]; interim (1xx) responses come before it.
    Headers the server adds on its own (date, framing, a sniffed
    content type) are not part of the model.  [connRoom] is the number
    of body bytes the connection will still take before it breaks, if
    it does. *)
Record ResponseWriter : Type := {
  handlerHeader : HeaderMap;
  wroteHeader : bool;
  status : Z;
  wireHeader : HeaderMap;
  interim : list (Z * HeaderMap);
  wireBody : string;
  connRoom : option nat
}.

(** The writer a handler is called with. *)
Definition newResponseWriter (room : option nat) : ResponseWriter :=
  {| handlerHeader := ∅; wroteHeader := false; status := 0; wireHeader := ∅;
     interim := []; wireBody := EmptyString; connRoom := room |}.

Definition setHandlerHeader (w : ResponseWriter) (h : HeaderMap) : ResponseWriter :=
  {| handlerHeader := h; wroteHeader := wroteHeader w; status := status w;
     wireHeader := wireHeader w; interim := interim w; wireBody := wireBody w;
     connRoom := connRoom w |}.

(** The header is written: status and a copy of the header map are
    fixed, later changes of [handlerHeader] do not reach the caller. *)
Definition writeFinalHeader (w : ResponseWriter) (code : Z) : ResponseWriter :=
  {| handlerHeader := handlerHeader w; wroteHeader := true; status := code;
     wireHeader := handlerHeader w; interim := interim w; wireBody := wireBody w;
     connRoom := connRoom w |}.

Definition isInterim (code : Z) : bool :=
  (100 <=? code) && (code <=? 199) && negb (code =? StatusSwitchingProtocols).

(** [w.WriteHeader(code)]; [None] is the panic of
    [checkWriteHeaderCode] on a code that has not three digits.  A
    second call is ignored; an interim code sends the headers as they
    are and leaves the final header to be written. *)
Definition WriteHeader (w : ResponseWriter) (code : Z) : option ResponseWriter :=
  if wroteHeader w then Some w
  else if (code <? 100) || (999 <? code) then None
  else if isInterim code then
    Some {| handlerHeader := handlerHeader w; wroteHeader := false; status := status w;
            wireHeader := wireHeader w; interim := interim w ++ [(code, handlerHeader w)];
            wireBody := wireBody w; connRoom := connRoom w |}
  else Some (writeFinalHeader w code).

Definition bodyAllowedForStatus (code : Z) : bool :=
  if (100 <=? code) && (code <=? 199) then false
  else if code =? StatusNoContent then false
  else if code =? StatusNotModified then false
  else true.

Definition sendBody (w : ResponseWriter) (data : string) (room : option nat)
  : ResponseWriter :=
  {| handlerHeader := handlerHeader w; wroteHeader := wroteHeader w; status := status w;
     wireHeader := wireHeader w; interim := interim w;
     wireBody := String.append (wireBody w) data; connRoom := room |}.

(** [w.Write(data)]: writes the header with status 200 if it was not
    written, then the data, as far as the connection takes it.  The
    result is the writer, the number of bytes written and the error. *)
Definition Write (w : ResponseWriter) (data : string)
  : ResponseWriter * Z * option error :=
  let w1 := if wroteHeader w then w else writeFinalHeader w StatusOK in
  if String.eqb data EmptyString then (w1, 0, None)
  else if negb (bodyAllowedForStatus (status w1)) then (w1, 0, Some ErrBodyNotAllowed)
  else
    match connRoom w1 with
    | None => (sendBody w1 data None, GoInt.len data, None)
    | Some k =>
      if (String.length data <=? k)%nat
      then (sendBody w1 data (Some (k - String.length data)%nat), GoInt.len data, None)
      else (sendBody w1 (substring 0 k data) (Some 0%nat), Z.of_nat k, Some WriteError)
    end.

(** [io.Copy(w, resp.Body)]: nothing is written for an empty stream. *)
Definition Copy (w : ResponseWriter) (body : string) (breaks : bool)
  : ResponseWriter * Z * option error :=
  let readErr := if breaks then Some ReadError else None in
  if String.eqb body EmptyString then (w, 0, readErr)
  else
    let '(w1, n, e) := Write w body in
    match e with
    | Some _ => (w1, n, e)
    | None => (w1, n, readErr)
    end.

(** [http.Error(w, msg, code)]. *)
Definition Error (w : ResponseWriter) (msg : string) (code : Z) : option ResponseWriter :=
  let h := HeaderSet (handlerHeader w) "Content-Type" "text/plain; charset=utf-8" in
  let h := HeaderSet h "X-Content-Type-Options" "nosniff" in
  match WriteHeader (setHandlerHeader w h) code with
  | None => None
  | Some w1 => Some (fst (fst (Write w1 (String.append msg (String (byte 10) EmptyString)))))
  end.

(** What the server does when the handler has returned: the header is
    written with status 200 if the handler never wrote it. *)
Definition finishRequest (w : ResponseWriter) : ResponseWriter :=
  if wroteHeader w then w else writeFinalHeader w StatusOK.

End Http.

(** ** The earlier variant of the gateway: routing without metrics *)

Module Early.

Definition cheapModelURL : string := "http://localhost:8081/v1/chat/completions".
Definition expensiveModelURL : string := "http://localhost:8082/v1/chat/completions".
Definition complexityThreshold : Z := 150.

Inductive logLine : Type :=
  | WarnUnmarshal (err : error).

(** [analyzePrompt]: the target and the model name, and what it logs. *)
Definition analyzePrompt (bodyBytes : string) : string * string * list logLine :=
  match json_Unmarshal bodyBytes with
  | Err err => (cheapModelURL, "CheapModel", [WarnUnmarshal err])
  | Ok payload =>
    let totalLength :=
      fold_left (fun total msg => GoInt.add total (GoInt.len (Content msg)))
                (Messages payload) 0 in
    if totalLength >? complexityThreshold
    then (expensiveModelURL, "ExpensiveModel", [])
    else (cheapModelURL, "CheapModel", [])
  end.

End Early.

(** ** The canonical variant: prompt-size router and metrics *)

Module Gateway.
Import Http.

(** *** Metrics *)

Record LLMUsageMetrics : Type := {
  TotalRequests : Z;              (* int *)
  TotalCost : spec_float;         (* float64 *)
  ModelUsage : gmap string Z      (* map[string]int *)
}.

(** The package-level initialiser of [globalMetrics]. *)
Definition globalMetrics0 : LLMUsageMetrics :=
  {| TotalRequests := 0; TotalCost := Float64.zero; ModelUsage := ∅ |}.

(** The two assignments at the start of [main]. *)
Definition seedModelUsage (g : LLMUsageMetrics) : LLMUsageMetrics :=
  {| TotalRequests := TotalRequests g; TotalCost := TotalCost g;
     ModelUsage := <["ExpensiveModel" := 0]> (<["CheapModel" := 0]> (ModelUsage g)) |}.

(** The metrics when the server starts to listen. *)
Definition initialMetrics : LLMUsageMetrics := seedModelUsage globalMetrics0.

(** [m[key]] on a [map[string]int]: zero for a missing key. *)
Definition usage (m : gmap string Z) (key : string) : Z := default 0 (m !! key).

(** The three statements of the critical section. *)
Definition incTotalRequests (g : LLMUsageMetrics) : LLMUsageMetrics :=
  {| TotalRequests := GoInt.add (TotalRequests g) 1; TotalCost := TotalCost g;
     ModelUsage := ModelUsage g |}.

Definition addTotalCost (estimatedCost : spec_float) (g : LLMUsageMetrics)
  : LLMUsageMetrics :=
  {| TotalRequests := TotalRequests g;
     TotalCost := Float64.add (TotalCost g) estimatedCost;
     ModelUsage := ModelUsage g |}.

Definition incModelUsage (modelName : string) (g : LLMUsageMetrics) : LLMUsageMetrics :=
  {| TotalRequests := TotalRequests g; TotalCost := TotalCost g;
     ModelUsage := <[modelName := GoInt.add (usage (ModelUsage g) modelName) 1]>
                     (ModelUsage g) |}.

(** The critical section of [LLMProxyHandler] as one update. *)
Definition record (modelName : string) (estimatedCost : spec_float)
    (g : LLMUsageMetrics) : LLMUsageMetrics :=
  incModelUsage modelName (addTotalCost estimatedCost (incTotalRequests g)).

(** The sum of the per-model counts, added up as Go adds [int]s, and
    the same sum as a number, without wrap-around. *)
Definition sumModelUsage (m : gmap string Z) : Z :=
  map_fold (fun _ count acc => GoInt.add acc count) 0 m.

Definition exactModelUsage (m : gmap string Z) : Z :=
  map_fold (fun _ count acc => acc + count) 0 m.

(** *** Configuration *)

Definition cheapModelURL : string := "http://localhost:8081/v1/chat/completions".
Definition expensiveModelURL : string := "http://localhost:8082/v1/chat/completions".
Definition apiKeyEnv : string := "LLM_GATEWAY_API_KEY".
Definition promptLengthThreshold : Z := 150.

(** The constants [0.0000001] and [0.0000015] as [float64] values. *)
Definition cheapModelCostPerChar : spec_float :=
  S754_finite false 7555786372591432 (-76).
Definition expensiveModelCostPerChar : spec_float :=
  S754_finite false 7083549724304468 (-72).

(** *** The payload analyzer *)

Definition getPromptLength (bodyBytes : string) : result Z :=
  match json_Unmarshal bodyBytes with
  | Err err => Err (Wrapped "failed to unmarshal JSON request body" err)
  | Ok payload =>
    Ok (fold_left
          (fun totalLength message =>
             if String.eqb (Role message) "user"
             then GoInt.add totalLength (GoInt.len (Content message))
             else totalLength)
          (Messages payload) 0)
  end.

(** The loop of [getPromptLength], started at any total. *)
Definition userLoop (msgs : list Message) (start : Z) : Z :=
  fold_left
    (fun totalLength message =>
       if String.eqb (Role message) "user"
       then GoInt.add totalLength (GoInt.len (Content message))
       else totalLength)
    msgs start.

(** *** The routing policy: step 3 of [LLMProxyHandler] *)

Record RoutingDecision : Type := {
  targetURL : string;
  modelName : string;
  costPerChar : spec_float
}.

Definition cheapDecision : RoutingDecision :=
  {| targetURL := cheapModelURL; modelName := "CheapModel";
     costPerChar := cheapModelCostPerChar |}.

Definition expensiveDecision : RoutingDecision :=
  {| targetURL := expensiveModelURL; modelName := "ExpensiveModel";
     costPerChar := expensiveModelCostPerChar |}.

Definition route (totalPromptLength : Z) : RoutingDecision :=
  if totalPromptLength <=? promptLengthThreshold
  then cheapDecision
  else expensiveDecision.

Definition estimatedCost (totalPromptLength : Z) : spec_float :=
  Float64.mul (Float64.ofInt totalPromptLength) (costPerChar (route totalPromptLength)).

(** The metrics after the start of the server and [k] recorded
    requests, each with the model and the estimated cost that the
    handler computes from a prompt length, which is not negative. *)
Inductive reachable : nat -> LLMUsageMetrics -> Prop :=
  | reach_initial : reachable 0 initialMetrics
  | reach_record (k : nat) (g : LLMUsageMetrics) (n : Z) :
      reachable k g -> 0 <= n ->
      reachable (S k) (record (modelName (route n)) (estimatedCost n) g).

(** *** The credential sent upstream: the first lines of step 4 *)

Definition resolveAuthHeader (getenv : string -> string) (r : Request) : string :=
  let authHeader := HeaderGet (Header r) "Authorization" in
  if String.eqb authHeader EmptyString then
    let apiKey := getenv apiKeyEnv in
    if negb (String.eqb apiKey EmptyString)
    then String.append "Bearer " apiKey
    else authHeader
  else authHeader.

(** The header of the upstream request: step 5. *)
Definition proxyHeader (authHeader contentType : string) : HeaderMap :=
  let h : HeaderMap := ∅ in
  let h := if negb (String.eqb authHeader EmptyString)
           then HeaderSet h "Authorization" authHeader else h in
  HeaderSet h "Content-Type" contentType.

(** *** The handler *)

(** What the handler depends on outside the process: the environment
    and the answer of the upstream round trip [client.Do]. *)
Record World : Type := {
  Getenv : string -> string;
  Do : Request -> result Response
}.

Inductive logLine : Type :=
  | ErrAnalyze (err : error)
  | LogReq (remoteAddr : string) (promptSize : Z)
  | LogRoute (promptSize : Z) (cheap : bool) (model : string) (cost : spec_float)
  | ErrUpstream (target : string) (err : error)
  | ErrCopy (err : error)
  | LogRsp (model : string) (cost : spec_float) (status : Z) (size : Z)
  | ErrEncode (err : error).

(** What a run of the handler reads and changes: the response writer,
    the global metrics, the log, and the upstream requests sent. *)
Record state : Type := {
  w : ResponseWriter;
  globalMetrics : LLMUsageMetrics;
  logged : list logLine;
  sent : list Request
}.

(** Computations that change the state and may panic ([None]). *)
Definition M (A : Type) : Type := state -> option A * state.

Definition ret {A : Type} (a : A) : M A := fun s => (Some a, s).

Definition bind {A B : Type} (m : M A) (k : A -> M B) : M B :=
  fun s =>
    match m s with
    | (Some a, s1) => k a s1
    | (None, s1) => (None, s1)
    end.

#[export] Instance M_ret : MRet M := @ret.
#[export] Instance M_bind : MBind M := fun A B k m => bind m k.

Definition setW (s : state) (w1 : ResponseWriter) : state :=
  {| w := w1; globalMetrics := globalMetrics s; logged := logged s; sent := sent s |}.

Definition logPrintf (l : logLine) : M unit :=
  fun s => (Some tt, {| w := w s; globalMetrics := globalMetrics s;
                        logged := logged s ++ [l]; sent := sent s |}).

Definition httpError (msg : string) (code : Z) : M unit :=
  fun s =>
    match Error (w s) msg code with
    | Some w1 => (Some tt, setW s w1)
    | None => (None, s)
    end.

Definition writeHeader (code : Z) : M unit :=
  fun s =>
    match WriteHeader (w s) code with
    | Some w1 => (Some tt, setW s w1)
    | None => (None, s)
    end.

(** [for name, values := range h { w.Header()[name] = values }]. *)
Definition rangeAssign (h : HeaderMap) (target : HeaderMap) : HeaderMap :=
  map_fold (fun name values acc => <[name := values]> acc) target h.

Definition copyHeader (h : HeaderMap) : M unit :=
  fun s => (Some tt, setW s (setHandlerHeader (w s) (rangeAssign h (handlerHeader (w s))))).

Definition ioCopy (resp : Response) : M (Z * option error) :=
  fun s =>
    let '(w1, n, e) := Copy (w s) (ResponseBody resp) (BodyBreaks resp) in
    (Some (n, e), setW s w1).

Definition clientDo (world : World) (req : Request) : M (result Response) :=
  fun s => (Some (Do world req),
            {| w := w s; globalMetrics := globalMetrics s; logged := logged s;
               sent := sent s ++ [req] |}).

(** [metricsMutex.Lock()] ... [metricsMutex.Unlock()] around the three
    updates; a run of one handler sees it as one step. *)
Definition updateMetrics (model : string) (cost : spec_float) : M unit :=
  fun s => (Some tt, {| w := w s; globalMetrics := record model cost (globalMetrics s);
                        logged := logged s; sent := sent s |}).

(** [http.NewRequest(r.Method, targetURL, bytes.NewReader(bodyBytes))],
    which cannot fail for the method POST and the two configured URLs,
    followed by the replacement of its header. *)
Definition newProxyRequest (r : Request) (target : string) (bodyBytes : string)
    (authHeader contentType : string) : Request :=
  {| Method := Method r; URL := target; Header := proxyHeader authHeader contentType;
     Body := Ok bodyBytes; RemoteAddr := EmptyString |}.

(** The request [LLMProxyHandler] sends upstream for a body of prompt
    length [n]. *)
Definition upstreamRequest (world : World) (r : Request) (bodyBytes : string) (n : Z)
  : Request :=
  newProxyRequest r (targetURL (route n)) bodyBytes
    (resolveAuthHeader (Getenv world) r) (HeaderGet (Header r) "Content-Type").

Definition LLMProxyHandler (world : World) (r : Request) : M unit :=
  if negb (String.eqb (Method r) MethodPost) then
    httpError "Method not allowed" StatusMethodNotAllowed
  else
    match Body r with
    | Err _ => httpError "Failed to read request body" StatusInternalServerError
    | Ok bodyBytes =>
      match getPromptLength bodyBytes with
      | Err err =>
        logPrintf (ErrAnalyze err) ;;
        httpError "Invalid request format: must be a valid chat completion JSON payload"
                  StatusBadRequest
      | Ok totalPromptLength =>
        let d := route totalPromptLength in
        let cost := Float64.mul (Float64.ofInt totalPromptLength) (costPerChar d) in
        logPrintf (LogReq (RemoteAddr r) totalPromptLength) ;;
        logPrintf (LogRoute totalPromptLength (totalPromptLength <=? promptLengthThreshold)
                            (modelName d) cost) ;;
        let authHeader := resolveAuthHeader (Getenv world) r in
        let contentType := HeaderGet (Header r) "Content-Type" in
        let proxyReq := newProxyRequest r (targetURL d) bodyBytes authHeader contentType in
        answer ← clientDo world proxyReq;
        match answer with
        | Err err =>
          logPrintf (ErrUpstream (targetURL d) err) ;;
          httpError (String.append "Error connecting to "
                       (String.append (modelName d) " endpoint")) StatusBadGateway
        | Ok resp =>
          writeHeader (StatusCode resp) ;;
          copyHeader (ResponseHeader resp) ;;
          copied ← ioCopy resp;
          (match snd copied with
           | Some err => logPrintf (ErrCopy err)
           | None => ret tt
           end) ;;
          updateMetrics (modelName d) cost ;;
          logPrintf (LogRsp (modelName d) cost (StatusCode resp) (fst copied))
        end
      end
    end.

(** [MetricsHandler]: between [Lock] and the deferred [Unlock] it sets
    the content type and writes the encoding of [globalMetrics].  The
    text that [json.NewEncoder(w).Encode] produces is not modelled: it
    is a parameter.  [Encode] writes the text with one [Write] and
    returns the error of that [Write], if there is one. *)
Definition MetricsHandler (encode : LLMUsageMetrics -> result string) : M unit :=
  fun s =>
    let w1 := setHandlerHeader (w s)
                (HeaderSet (handlerHeader (w s)) "Content-Type" "application/json") in
    let failed (err : error) : M unit :=
      logPrintf (ErrEncode err) ;;
      httpError "Failed to encode metrics" StatusInternalServerError in
    match encode (globalMetrics s) with
    | Ok text =>
      match Write w1 text with
      | (w2, _, None) => (Some tt, setW s w2)
      | (w2, _, Some err) => failed err (setW s w2)
      end
    | Err err => failed err (setW s w1)
    end.

(** One request served: the handler is run on a new writer, and the
    server finishes the response unless the handler panicked. *)
Definition serve (world : World) (room : option nat) (g : LLMUsageMetrics) (r : Request)
  : option unit * state :=
  let '(res, s) := LLMProxyHandler world r
                     {| w := newResponseWriter room; globalMetrics := g;
                        logged := []; sent := [] |} in
  (res, match res with Some _ => setW s (finishRequest (w s)) | None => s end).


End Gateway.

(** ** The earlier variant: the handler *)

Module EarlyGateway.
Import Http.

Definition apiKeyEnv : string := "LLM_GATEWAY_API_KEY".

Inductive logLine : Type :=
  | LogReq (remoteAddr : string) (bodySize : Z)
  | LogAnalyze (line : Early.logLine)
  | LogRoute (model target : string)
  | ErrUpstream (target : string) (err : error)
  | ErrCopy (err : error)
  | LogRsp (model : string) (status : Z) (size : Z).

(** What a run of the handler reads and changes; this variant has no
    metrics. *)
Record state : Type := {
  w : ResponseWriter;
  logged : list logLine;
  sent : list Request
}.

Definition M (A : Type) : Type := state -> option A * state.

Definition ret {A : Type} (a : A) : M A := fun s => (Some a, s).

Definition bind {A B : Type} (m : M A) (k : A -> M B) : M B :=
  fun s =>
    match m s with
    | (Some a, s1) => k a s1
    | (None, s1) => (None, s1)
    end.

#[export] Instance M_ret : MRet M := @ret.
#[export] Instance M_bind : MBind M := fun A B k m => bind m k.

Definition setW (s : state) (w1 : ResponseWriter) : state :=
  {| w := w1; logged := logged s; sent := sent s |}.

Definition logPrintf (l : logLine) : M unit :=
  fun s => (Some tt, {| w := w s; logged := logged s ++ [l]; sent := sent s |}).

Definition logAll (ls : list logLine) : M unit :=
  fun s => (Some tt, {| w := w s; logged := logged s ++ ls; sent := sent s |}).

Definition httpError (msg : string) (code : Z) : M unit :=
  fun s =>
    match Error (w s) msg code with
    | Some w1 => (Some tt, setW s w1)
    | None => (None, s)
    end.

Definition writeHeader (code : Z) : M unit :=
  fun s =>
    match WriteHeader (w s) code with
    | Some w1 => (Some tt, setW s w1)
    | None => (None, s)
    end.

Definition copyHeader (h : HeaderMap) : M unit :=
  fun s => (Some tt,
            setW s (setHandlerHeader (w s) (Gateway.rangeAssign h (handlerHeader (w s))))).

Definition ioCopy (resp : Response) : M (Z * option error) :=
  fun s =>
    let '(w1, n, e) := Copy (w s) (ResponseBody resp) (BodyBreaks resp) in
    (Some (n, e), setW s w1).

Definition clientDo (world : Gateway.World) (req : Request) : M (result Response) :=
  fun s => (Some (Gateway.Do world req),
            {| w := w s; logged := logged s; sent := sent s ++ [req] |}).

(** The header of the upstream request: the [if] / [else if] of step 4
    and the [Content-Type]. *)
Definition proxyHeader (getenv : string -> string) (r : Request) : HeaderMap :=
  let h : HeaderMap := ∅ in
  let h :=
    if negb (String.eqb (HeaderGet (Header r) "Authorization") EmptyString)
    then HeaderSet h "Authorization" (HeaderGet (Header r) "Authorization")
    else
      let apiKey := getenv apiKeyEnv in
      if negb (String.eqb apiKey EmptyString)
      then HeaderSet h "Authorization" (String.append "Bearer " apiKey)
      else h in
  HeaderSet h "Content-Type" (HeaderGet (Header r) "Content-Type").

Definition LLMProxyHandler (world : Gateway.World) (r : Request) : M unit :=
  if negb (String.eqb (Method r) MethodPost) then
    httpError "Method not allowed" StatusMethodNotAllowed
  else
    match Body r with
    | Err _ => httpError "Failed to read request body" StatusInternalServerError
    | Ok bodyBytes =>
      logPrintf (LogReq (RemoteAddr r) (GoInt.len bodyBytes)) ;;
      let '(targetURL, modelName, warnings) := Early.analyzePrompt bodyBytes in
      logAll (map LogAnalyze warnings) ;;
      logPrintf (LogRoute modelName targetURL) ;;
      let proxyReq :=
        {| Method := Method r; URL := targetURL;
           Header := proxyHeader (Gateway.Getenv world) r;
           Body := Ok bodyBytes; RemoteAddr := EmptyString |} in
      answer ← clientDo world proxyReq;
      match answer with
      | Err err =>
        logPrintf (ErrUpstream targetURL err) ;;
        httpError "Error connecting to LLM endpoint" StatusBadGateway
      | Ok resp =>
        writeHeader (StatusCode resp) ;;
        copyHeader (ResponseHeader resp) ;;
        copied ← ioCopy resp;
        (match snd copied with
         | Some err => logPrintf (ErrCopy err)
         | None => ret tt
         end) ;;
        logPrintf (LogRsp modelName (StatusCode resp) (fst copied))
      end
    end.

(** The request this variant sends upstream for a body. *)
Definition upstreamRequest (world : Gateway.World) (r : Request) (bodyBytes : string)
  : Request :=
  {| Method := Method r; URL := fst (fst (Early.analyzePrompt bodyBytes));
     Header := proxyHeader (Gateway.Getenv world) r;
     Body := Ok bodyBytes; RemoteAddr := EmptyString |}.

(** What the loop of [analyzePrompt] adds up, as a number: the byte
    lengths of the contents of all messages. *)
Definition contentSum (msgs : list Message) : Z :=
  fold_right Z.add 0 (map (fun m => GoInt.len (Content m)) msgs).

(** One request served by this variant. *)
Definition serve (world : Gateway.World) (room : option nat) (r : Request)
  : option unit * state :=
  let '(res, s) := LLMProxyHandler world r
                     {| w := newResponseWriter room; logged := []; sent := [] |} in
  (res, match res with Some _ => setW s (finishRequest (w s)) | None => s end).

End EarlyGateway.

(** ** Concurrent requests

    Every request is served by a goroutine of its own.  All accesses to
    [globalMetrics] are made while [metricsMutex] is held, so the
    program has no data race and its runs are the interleavings of the
    statements of its goroutines.  A recording goroutine is a run of
    [LLMProxyHandler] from [metricsMutex.Lock()] on; a reporting one is
    a run of [MetricsHandler], whose encoder reads the counters from a
    copy of the structure and the per-model counts from the shared
    map; its writes to the response touch nothing that is shared and
    are left out. *)

Module Concurrent.
Import Gateway.

Inductive recorderPc : Type :=
  | RecLock | RecTotal | RecCost | RecUsage | RecUnlock | RecDone.

Inductive reporterPc : Type :=
  | RepLock | RepCopy | RepEncode | RepUnlock | RepDone.

Inductive thread : Type :=
  | Recorder (model : string) (cost : spec_float) (pc : recorderPc)
  | Reporter (pc : reporterPc) (seen : LLMUsageMetrics).

Record config : Type := {
  metrics : LLMUsageMetrics;
  locked : bool;
  threads : list thread
}.

(** The next statement of a goroutine, when it can run: [Lock] waits
    while the mutex is held. *)
Definition stepThread (g : LLMUsageMetrics) (l : bool) (t : thread)
  : option (LLMUsageMetrics * bool * thread) :=
  match t with
  | Recorder m c RecLock => if l then None else Some (g, true, Recorder m c RecTotal)
  | Recorder m c RecTotal => Some (incTotalRequests g, l, Recorder m c RecCost)
  | Recorder m c RecCost => Some (addTotalCost c g, l, Recorder m c RecUsage)
  | Recorder m c RecUsage => Some (incModelUsage m g, l, Recorder m c RecUnlock)
  | Recorder m c RecUnlock => Some (g, false, Recorder m c RecDone)
  | Recorder _ _ RecDone => None
  | Reporter RepLock s => if l then None else Some (g, true, Reporter RepCopy s)
  | Reporter RepCopy s =>
    Some (g, l, Reporter RepEncode
                  {| TotalRequests := TotalRequests g; TotalCost := TotalCost g;
                     ModelUsage := ModelUsage s |})
  | Reporter RepEncode s =>
    Some (g, l, Reporter RepUnlock
                  {| TotalRequests := TotalRequests s; TotalCost := TotalCost s;
                     ModelUsage := ModelUsage g |})
  | Reporter RepUnlock s => Some (g, false, Reporter RepDone s)
  | Reporter RepDone _ => None
  end.

(** One step of the program: some goroutine that can run runs its next
    statement. *)
Inductive step : config -> config -> Prop :=
  | step_thread (c : config) (i : nat) (t t' : thread) (g' : LLMUsageMetrics) (l' : bool) :
      threads c !! i = Some t ->
      stepThread (metrics c) (locked c) t = Some (g', l', t') ->
      step c {| metrics := g'; locked := l'; threads := <[i := t']> (threads c) |}.

(** The runs of the program. *)
Definition steps : config -> config -> Prop := rtc step.

(** The program run under a schedule, a list of goroutine numbers; a
    goroutine that cannot run when it is scheduled is passed over. *)
Definition runThread (c : config) (i : nat) : config :=
  match threads c !! i with
  | Some t =>
    match stepThread (metrics c) (locked c) t with
    | Some (g', l', t') =>
      {| metrics := g'; locked := l'; threads := <[i := t']> (threads c) |}
    | None => c
    end
  | None => c
  end.

Definition run (schedule : list nat) (c : config) : config :=
  fold_left runThread schedule c.

Definition recorderOf (job : string * spec_float) : thread :=
  Recorder (fst job) (snd job) RecLock.

(** [N] requests whose upstream call has returned, given by their model
    name and estimated cost, and some calls of [/metrics], against the
    metrics as [main] set them up. *)
Definition start (jobs : list (string * spec_float)) (reporters : nat) : config :=
  {| metrics := initialMetrics; locked := false;
     threads := map recorderOf jobs
                ++ replicate reporters (Reporter RepLock globalMetrics0) |}.

Definition finished (t : thread) : bool :=
  match t with
  | Recorder _ _ RecDone => true
  | Reporter RepDone _ => true
  | _ => false
  end.

(** What a reporting goroutine has read from the metrics, once it has
    read all of it. *)
Definition snapshotOf (t : thread) : option LLMUsageMetrics :=
  match t with
  | Reporter RepUnlock s => Some s
  | Reporter RepDone s => Some s
  | _ => None
  end.

(** Whether a recording goroutine has finished. *)
Definition recorderDone (t : thread) : bool :=
  match t with
  | Recorder _ _ RecDone => true
  | Recorder _ _ _ => false
  | Reporter _ _ => true
  end.

(** Whether a goroutine is between [Lock] and [Unlock]. *)
Definition holding (t : thread) : bool :=
  match t with
  | Recorder _ _ (RecTotal | RecCost | RecUsage | RecUnlock) => true
  | Reporter (RepCopy | RepEncode | RepUnlock) _ => true
  | _ => false
  end.

(** What a goroutine has added to [TotalRequests] and to [ModelUsage],
    and whether it is a recording one. *)
Definition counted (t : thread) : nat :=
  match t with
  | Recorder _ _ (RecCost | RecUsage | RecUnlock | RecDone) => 1
  | _ => 0
  end.

Definition tallied (t : thread) : nat :=
  match t with
  | Recorder _ _ (RecUnlock | RecDone) => 1
  | _ => 0
  end.

Definition isRecorder (t : thread) : nat :=
  match t with
  | Recorder _ _ _ => 1
  | Reporter _ _ => 0
  end.

(** The invariant of the runs with [N] recording goroutines: both
    counters agree with what the goroutines have added, the mutex is
    held by exactly the goroutine inside its critical section, and what
    a reporting goroutine has read is consistent. *)
Definition invariant (N : nat) (c : config) : Prop :=
  TotalRequests (metrics c)
    = GoInt.wrap (Z.of_nat (sum_list_with counted (threads c))) /\
  sumModelUsage (ModelUsage (metrics c))
    = GoInt.wrap (Z.of_nat (sum_list_with tallied (threads c))) /\
  (exists h : option nat,
     locked c = match h with Some _ => true | None => false end /\
     (forall i, h = Some i -> is_Some (threads c !! i)) /\
     (forall i t, threads c !! i = Some t -> (holding t = true <-> h = Some i))) /\
  (forall i s, threads c !! i = Some (Reporter RepEncode s) ->
     TotalRequests s = TotalRequests (metrics c)) /\
  (forall i t s, threads c !! i = Some t -> snapshotOf t = Some s ->
     TotalRequests s = sumModelUsage (ModelUsage s)) /\
  sum_list_with isRecorder (threads c) = N.

(** The same with the exact sum of the counts, for runs in which the
    number [N] of recording goroutines fits an [int]. *)
Definition exactInvariant (N : nat) (c : config) : Prop :=
  map_Forall (fun _ v => 0 <= v) (ModelUsage (metrics c)) /\
  exactModelUsage (ModelUsage (metrics c))
    = Z.of_nat (sum_list_with tallied (threads c)) /\
  (forall i t s, threads c !! i = Some t -> snapshotOf t = Some s ->
     map_Forall (fun _ v => 0 <= v) (ModelUsage s) /\
     exactModelUsage (ModelUsage s) <= Z.of_nat N).

End Concurrent.

(** ** Runs of the concurrent program: what they amount to *)

Module Runs.
Import Gateway Concurrent.

(** The number of statements a goroutine has still to run. *)
Definition remaining (t : thread) : nat :=
  match t with
  | Recorder _ _ RecLock => 5
  | Recorder _ _ RecTotal => 4
  | Recorder _ _ RecCost => 3
  | Recorder _ _ RecUsage => 2
  | Recorder _ _ RecUnlock => 1
  | Recorder _ _ RecDone => 0
  | Reporter RepLock _ => 4
  | Reporter RepCopy _ => 3
  | Reporter RepEncode _ => 2
  | Reporter RepUnlock _ => 1
  | Reporter RepDone _ => 0
  end.

(** The request a goroutine records, and the same once all three
    updates are made. *)
Definition jobOf (t : thread) : option (string * spec_float) :=
  match t with
  | Recorder m c _ => Some (m, c)
  | Reporter _ _ => None
  end.

Definition completed (t : thread) : option (string * spec_float) :=
  match t with
  | Recorder m c (RecUnlock | RecDone) => Some (m, c)
  | _ => None
  end.

(** What a goroutine in the middle of its three updates has done to
    the metrics. *)
Definition midway (t : thread) (g : LLMUsageMetrics) : LLMUsageMetrics :=
  match t with
  | Recorder _ _ RecCost => incTotalRequests g
  | Recorder _ c RecUsage => addTotalCost c (incTotalRequests g)
  | _ => g
  end.

(** The handler's update for a list of requests, one after the other. *)
Definition recordAll (order : list (string * spec_float)) (g : LLMUsageMetrics)
  : LLMUsageMetrics :=
  fold_left (fun g job => record (fst job) (snd job) g) order g.

(** The metrics are those of the completed updates, made one after the
    other in some order, and of the update that is under way. *)
Definition linearized (c : config) : Prop :=
  exists order : list (string * spec_float),
    Permutation order (omap completed (threads c)) /\
    metrics c = foldr midway (recordAll order initialMetrics) (threads c).

(** What the reporting goroutines hold while they are in their critical
    section. *)
Definition snapshotInvariant (c : config) : Prop :=
  forall i s,
    (threads c !! i = Some (Reporter RepEncode s) ->
     TotalRequests s = TotalRequests (metrics c) /\ TotalCost s = TotalCost (metrics c)) /\
    (threads c !! i = Some (Reporter RepUnlock s) -> s = metrics c).

(** The requests for one model among a list of requests. *)
Definition requestsFor (label : string) (jobs : list (string * spec_float)) : nat :=
  length (List.filter (fun job => String.eqb (fst job) label) jobs).

End Runs.

(** ** Sample requests and worlds *)

Module Examples.
Import Http Gateway.

Definition request (auth : list string) (body : string) : Request :=
  {| Method := "POST"; URL := "/v1/chat/completions";
     Header := <["Authorization" := auth]> {["Content-Type" := ["application/json"]]};
     Body := Ok body; RemoteAddr := "127.0.0.1:50000" |}.

Definition shortPrompt : string :=
  js "{'messages':[{'role':'user','content':'hi'}]}".

(** A prompt of one user message of [n] characters. *)
Definition promptOfLength (n : nat) : string :=
  String.append (js "{'messages':[{'role':'user','content':'")
    (String.append (string_of_list_ascii (repeat "a"%char n)) (js "'}]}")).

Definition answer (code : Z) (breaks : bool) : Response :=
  {| StatusCode := code;
     ResponseHeader := <["X-Request-Id" := ["abc"]]> {["Content-Type" := ["application/json"]]};
     ResponseBody := js "{'model':'SLM-7B-cheap'}";
     BodyBreaks := breaks |}.

(** A world in which the upstream answers, and no key is configured. *)
Definition answering (code : Z) (breaks : bool) : World :=
  {| Getenv := fun _ => EmptyString; Do := fun _ => Ok (answer code breaks) |}.

(** A world in which the upstream cannot be reached, and a key is
    configured. *)
Definition unreachable : World :=
  {| Getenv := fun name => if String.eqb name apiKeyEnv then "secret" else EmptyString;
     Do := fun _ => Err TransportError |}.

End Examples.

(** ** The words of the specification

    Definitions that follow the specification rather than the code, to
    be compared with the code. *)

Module Spec.
Import Json.

(** The prompt length of a payload: the sum, over the messages whose
    role is [user], of the byte length of the content. *)
Definition userSum (msgs : list Message) : Z :=
  fold_right Z.add 0
    (map (fun m => GoInt.len (Content m))
         (List.filter (fun m => String.eqb (Role m) "user") msgs)).

Definition userContentLength (payload : RequestPayload) : Z :=
  userSum (Messages payload).

(** The member of a JSON object with exactly the given name. *)
Definition member (name : string) (v : jvalue) : option jvalue :=
  match v with
  | JObject ms =>
    match List.find (fun kv => String.eqb (fst kv) name) ms with
    | Some kv => Some (snd kv)
    | None => None
    end
  | _ => None
  end.

Definition isUserMessage (v : jvalue) : bool :=
  match member "role" v with
  | Some (JString r) => String.eqb r "user"
  | _ => false
  end.

(** A JSON value in which the [messages] field is absent, is an empty
    array, or contains no message with role [user]. *)
Definition hasNoUserMessage (v : jvalue) : bool :=
  match member "messages" v with
  | None => true
  | Some (JArray es) => forallb (fun e => negb (isUserMessage e)) es
  | Some _ => false
  end.

End Spec.

(** * Properties *)

(** ** Arithmetic on [int] *)

Section GoIntFacts.
Import GoInt.

Lemma wrap_inRange (z : Z) : inRange (wrap z).
Proof.
  unfold inRange, wrap, minInt, maxInt.
  pose proof (Z.mod_pos_bound (z + 2 ^ 63) (2 ^ 64) ltac:(lia)). lia.
Qed.

Lemma wrap_small (z : Z) : inRange z -> wrap z = z.
Proof.
  unfold inRange, wrap, minInt, maxInt. intros H.
  rewrite Z.mod_small; lia.
Qed.

Lemma wrap_add_l (a b : Z) : wrap (wrap a + b) = wrap (a + b).
Proof.
  unfold wrap. f_equal.
  replace (((a + 2 ^ 63) mod 2 ^ 64 - 2 ^ 63 + b + 2 ^ 63))
    with ((a + 2 ^ 63) mod 2 ^ 64 + b) by lia.
  rewrite Zplus_mod_idemp_l. f_equal. lia.
Qed.

Lemma wrap_add_r (a b : Z) : wrap (a + wrap b) = wrap (a + b).
Proof. rewrite (Z.add_comm a), wrap_add_l. f_equal. lia. Qed.


Lemma len_nonneg (s : string) : 0 <= len s.
Proof. unfold len. lia. Qed.

End GoIntFacts.

(** ** The routing policy *)

Section Routing.
Import Gateway.

Lemma route_cheap (L : Z) : L <= 150 -> route L = cheapDecision.
Proof.
  intros H. unfold route, promptLengthThreshold.
  destruct (Z.leb_spec L 150); [reflexivity | lia].
Qed.

Lemma route_expensive (L : Z) : L > 150 -> route L = expensiveDecision.
Proof.
  intros H. unfold route, promptLengthThreshold.
  destruct (Z.leb_spec L 150); [lia | reflexivity].
Qed.

(** C1. For every prompt length [L], the decision is the cheap
    endpoint with the label CheapModel exactly when [L <= 150], and the
    expensive endpoint with the label ExpensiveModel exactly when
    [L > 150]; [route] is a function on all of [Z], so the decision is
    determined by [L] alone. *)
Theorem route_threshold (L : Z) :
  (L <= 150 <->
     targetURL (route L) = cheapModelURL /\ modelName (route L) = "CheapModel") /\
  (L > 150 <->
     targetURL (route L) = expensiveModelURL /\ modelName (route L) = "ExpensiveModel").
Proof.
  destruct (Z.le_gt_cases L 150) as [Hle | Hgt].
  - rewrite (route_cheap L Hle). split; split; intros H.
    + split; reflexivity.
    + exact Hle.
    + lia.
    + destruct H as [H _]. discriminate H.
  - rewrite (route_expensive L ltac:(lia)). split; split; intros H.
    + lia.
    + destruct H as [H _]. discriminate H.
    + split; reflexivity.
    + lia.
Qed.

End Routing.

(** ** The payload analyzer *)

Section Analyzer.
Import Gateway Spec.

Lemma userSum_nonneg (msgs : list Message) : 0 <= userSum msgs.
Proof.
  unfold userSum. induction msgs as [| m msgs IH]; simpl; [lia |].
  destruct (String.eqb (Role m) "user"); simpl; [| exact IH].
  pose proof (len_nonneg (Content m)). lia.
Qed.

(** As long as the exact sum fits an [int], the loop computes it. *)
Lemma userLoop_exact (msgs : list Message) (start : Z) :
  0 <= start ->
  start + userSum msgs <= GoInt.maxInt ->
  userLoop msgs start = start + userSum msgs.
Proof.
  revert start. induction msgs as [| m msgs IH]; intros start Hs Hfit.
  - unfold userLoop, userSum. simpl. lia.
  - unfold userLoop, userSum in *. simpl in *.
    destruct (String.eqb (Role m) "user"); simpl in *.
    + pose proof (len_nonneg (Content m)) as Hl.
      pose proof (userSum_nonneg msgs) as Hr. unfold userSum in Hr.
      unfold GoInt.add. rewrite wrap_small.
      * rewrite IH; lia.
      * unfold GoInt.inRange, GoInt.minInt, GoInt.maxInt in *. lia.
    + apply IH; assumption.
Qed.

Lemma getPromptLength_ok (body : string) (payload : RequestPayload) :
  json_Unmarshal body = Ok payload ->
  getPromptLength body = Ok (userLoop (Messages payload) 0).
Proof. intros H. unfold getPromptLength, userLoop. rewrite H. reflexivity. Qed.

(** C5. For every body that decodes to a payload, the computed prompt
    length is the sum of the byte lengths of the contents of exactly
    the messages whose role is [user]; the other messages add nothing
    and the result is not an error.  The sum is taken to fit an [int],
    as the sizes of strings held in memory do. *)
Theorem getPromptLength_sums_user_content (body : string) (payload : RequestPayload) :
  json_Unmarshal body = Ok payload ->
  userContentLength payload <= GoInt.maxInt ->
  getPromptLength body = Ok (userContentLength payload).
Proof.
  intros Hdec Hfit. rewrite (getPromptLength_ok body payload Hdec). f_equal.
  change (userContentLength payload) with (userSum (Messages payload)) in *.
  rewrite userLoop_exact; lia.
Qed.

Lemma promptLength_nonneg (body : string) (payload : RequestPayload) :
  json_Unmarshal body = Ok payload ->
  userContentLength payload <= GoInt.maxInt ->
  getPromptLength body = Ok (userContentLength payload) /\ 0 <= userContentLength payload.
Proof.
  intros Hdec Hfit. split; [| apply userSum_nonneg].
  rewrite (getPromptLength_ok body payload Hdec). f_equal.
  unfold userContentLength in *. rewrite userLoop_exact; lia.
Qed.

Lemma getPromptLength_sums_user_content_witness :
  getPromptLength
    (js "{'messages':[{'role':'system','content':'be brief'},{'role':'user','content':'hi'},{'role':'assistant','content':'hello'},{'role':'user','content':'there'}]}")
  = Ok 7.
Proof.
  refine (getPromptLength_sums_user_content _
            {| Messages := [ {| Role := "system"; Content := "be brief" |};
                             {| Role := "user"; Content := "hi" |};
                             {| Role := "assistant"; Content := "hello" |};
                             {| Role := "user"; Content := "there" |} ] |} _ _).
  - vm_compute. reflexivity.
  - vm_compute. discriminate.
Defined.

(** Without a message of role [user] the loop leaves the total as it is. *)
Lemma userLoop_no_user (msgs : list Message) (start : Z) :
  Forall (fun m => Role m <> "user") msgs -> userLoop msgs start = start.
Proof.
  intros H. revert start. induction H as [| m msgs Hm _ IH]; intros start.
  - reflexivity.
  - unfold userLoop in *. simpl.
    destruct (String.eqb_spec (Role m) "user") as [Heq | _]; [contradiction |].
    apply IH.
Qed.

(** When every message has the role [user], the loop of the earlier
    variant, which adds up all contents, computes the same total. *)
Lemma allLoop_userLoop (msgs : list Message) (start : Z) :
  Forall (fun m => Role m = "user") msgs ->
  fold_left (fun total msg => GoInt.add total (GoInt.len (Content msg))) msgs start
  = userLoop msgs start.
Proof.
  intros H. revert start. induction H as [| m msgs Hm _ IH]; intros start.
  - reflexivity.
  - unfold userLoop in *. simpl. rewrite Hm. simpl. apply IH.
Qed.

(** C10. For every body that decodes to a payload in which every
    message has the role [user], [analyzePrompt] of the earlier variant
    returns the target and the model name that the canonical variant
    selects for the length [getPromptLength] computes. *)
Theorem variants_agree_on_user_messages (body : string) (payload : RequestPayload) :
  json_Unmarshal body = Ok payload ->
  Forall (fun m => Role m = "user") (Messages payload) ->
  exists n,
    getPromptLength body = Ok n /\
    fst (Early.analyzePrompt body) = (targetURL (route n), modelName (route n)).
Proof.
  intros Hdec Hall. exists (userLoop (Messages payload) 0). split.
  - apply getPromptLength_ok, Hdec.
  - unfold Early.analyzePrompt. rewrite Hdec.
    rewrite (allLoop_userLoop _ 0 Hall).
    unfold route, promptLengthThreshold, Early.complexityThreshold.
    set (n := userLoop (Messages payload) 0).
    destruct (Z.leb_spec n 150) as [Hle | Hgt].
    + rewrite Z.gtb_ltb. destruct (Z.ltb_spec 150 n); [lia | reflexivity].
    + rewrite Z.gtb_ltb. destruct (Z.ltb_spec 150 n); [reflexivity | lia].
Qed.

Lemma variants_agree_on_user_messages_witness :
  let body := js "{'messages':[{'role':'user','content':'hi'},{'role':'user','content':'What is the capital of France?'}]}" in
  exists n,
    getPromptLength body = Ok n /\
    fst (Early.analyzePrompt body) = (targetURL (route n), modelName (route n)).
Proof.
  refine (variants_agree_on_user_messages _
            {| Messages := [ {| Role := "user"; Content := "hi" |};
                             {| Role := "user";
                                Content := "What is the capital of France?" |} ] |} _ _).
  - vm_compute. reflexivity.
  - repeat constructor.
Defined.

End Analyzer.

(** ** Bodies without a user message *)

Section NoUserMessage.
Import Gateway Spec Json.

(** C9, as stated, fails on two syntactically valid JSON texts: the
    body [[]] has no [messages] field, and the body
    [{"messages":[{"role":"assistant","content":5}]}] has no message
    with role [user]; the analyzer rejects both, the first because the
    top-level value is not an object, the second because a content is
    not a string. *)
Lemma typed_decoding_rejects_valid_json :
  (parse "[]" = Some (JArray []) /\
   hasNoUserMessage (JArray []) = true /\
   getPromptLength "[]"
   = Err (Wrapped "failed to unmarshal JSON request body"
            (UnmarshalTypeError "array" "main.RequestPayload"))) /\
  (let body := js "{'messages':[{'role':'assistant','content':5}]}" in
   let v := JObject [("messages",
                      JArray [JObject [("role", JString "assistant");
                                       ("content", JNumber "5")]])] in
   parse body = Some v /\
   hasNoUserMessage v = true /\
   getPromptLength body
   = Err (Wrapped "failed to unmarshal JSON request body"
            (UnmarshalTypeError "number" "string"))).
Proof. repeat split; vm_compute; reflexivity. Qed.

(** C9, amended. For every body that [json.Unmarshal] decodes to a
    payload without a message of role [user] (no messages at all, as
    when the field is absent or an empty array, or messages of other
    roles only), the analyzer succeeds with prompt length 0, which is
    routed to the cheap model at an estimated cost of zero. *)
Theorem no_user_message_routes_cheap (body : string) (payload : RequestPayload) :
  json_Unmarshal body = Ok payload ->
  Forall (fun m => Role m <> "user") (Messages payload) ->
  getPromptLength body = Ok 0 /\
  route 0 = cheapDecision /\
  estimatedCost 0 = Float64.zero.
Proof.
  intros Hdec Hno. split; [| split].
  - rewrite (getPromptLength_ok body payload Hdec).
    rewrite (userLoop_no_user _ 0 Hno). reflexivity.
  - reflexivity.
  - vm_compute. reflexivity.
Qed.

Lemma no_user_message_routes_cheap_witness :
  (getPromptLength (js "{'model':'m'}") = Ok 0 /\
   route 0 = cheapDecision /\ estimatedCost 0 = Float64.zero) /\
  (getPromptLength (js "{'messages':[]}") = Ok 0 /\
   route 0 = cheapDecision /\ estimatedCost 0 = Float64.zero) /\
  (getPromptLength (js "{'messages':[{'role':'assistant','content':'hello'}]}") = Ok 0 /\
   route 0 = cheapDecision /\ estimatedCost 0 = Float64.zero).
Proof.
  split; [| split].
  - refine (no_user_message_routes_cheap _ {| Messages := [] |} _ _).
    + vm_compute. reflexivity.
    + constructor.
  - refine (no_user_message_routes_cheap _ {| Messages := [] |} _ _).
    + vm_compute. reflexivity.
    + constructor.
  - refine (no_user_message_routes_cheap _
              {| Messages := [ {| Role := "assistant"; Content := "hello" |} ] |} _ _).
    + vm_compute. reflexivity.
    + repeat constructor. discriminate.
Defined.

End NoUserMessage.

(** ** The proxy handler *)

Section Handler.
Import Gateway Http.

Lemma method_post (r : Request) :
  Method r = "POST" -> negb (String.eqb (Method r) MethodPost) = false.
Proof. intros H. rewrite H. reflexivity. Qed.

(** [http.Error] with one of the codes the handler uses, on the writer
    the handler was called with. *)
Lemma Error_new (room : option nat) (msg : string) (code : Z) :
  100 <= code <= 999 -> isInterim code = false ->
  exists w1,
    Error (newResponseWriter room) msg code = Some w1 /\
    status w1 = code /\ wroteHeader w1 = true.
Proof.
  intros Hc Hi. unfold Error, WriteHeader. simpl.
  destruct (Z.ltb_spec code 100); [lia |].
  destruct (Z.ltb_spec 999 code); [lia |]. simpl.
  rewrite Hi. eexists. split; [reflexivity |].
  unfold Write. simpl.
  destruct (String.eqb _ _); [simpl; auto |].
  destruct (bodyAllowedForStatus code); simpl; [| auto].
  destruct room as [k |]; simpl; [| auto].
  destruct (_ <=? k)%nat; simpl; auto.
Qed.

(** C3. For every POST request whose body is not accepted by
    [json.Unmarshal], the handler answers 400, sends nothing upstream,
    and leaves the metrics as they were. *)
Theorem malformed_body_is_rejected
    (world : World) (room : option nat) (g : LLMUsageMetrics)
    (r : Request) (body : string) (e : error) :
  Method r = "POST" ->
  Body r = Ok body ->
  json_Unmarshal body = Err e ->
  exists s,
    serve world room g r = (Some tt, s) /\
    wroteHeader (w s) = true /\
    status (w s) = StatusBadRequest /\
    sent s = [] /\
    globalMetrics s = g.
Proof.
  intros Hm Hb He.
  unfold serve, LLMProxyHandler. rewrite (method_post r Hm), Hb.
  unfold getPromptLength. rewrite He.
  unfold mbind, M_bind, bind, logPrintf, httpError. cbn [w].
  destruct (Error_new room
              "Invalid request format: must be a valid chat completion JSON payload"
              StatusBadRequest) as (w1 & Hw & Hst & Hwr); [unfold StatusBadRequest; lia | reflexivity |].
  rewrite Hw. eexists. split; [reflexivity |].
  unfold finishRequest. simpl. rewrite Hwr. auto.
Qed.

Lemma malformed_body_is_rejected_witness :
  exists s,
    serve (Examples.answering 200 false) None initialMetrics
          (Examples.request [] (js "{'messages': 'hi'")) = (Some tt, s) /\
    wroteHeader (w s) = true /\
    status (w s) = StatusBadRequest /\
    sent s = [] /\
    globalMetrics s = initialMetrics.
Proof.
  refine (malformed_body_is_rejected _ _ _ _ (js "{'messages': 'hi'") SyntaxError _ _ _).
  - reflexivity.
  - reflexivity.
  - vm_compute. reflexivity.
Defined.

(** The handler up to the upstream call, for a request that is routed. *)
Lemma handler_routed (world : World) (r : Request) (body : string) (n : Z) (s0 : state) :
  Method r = "POST" ->
  Body r = Ok body ->
  getPromptLength body = Ok n ->
  LLMProxyHandler world r s0 =
  let d := route n in
  let cost := estimatedCost n in
  let req := upstreamRequest world r body n in
  let s1 := {| w := w s0; globalMetrics := globalMetrics s0;
               logged := (logged s0 ++ [LogReq (RemoteAddr r) n])
                         ++ [LogRoute n (n <=? promptLengthThreshold) (modelName d) cost];
               sent := sent s0 ++ [req] |} in
  match Do world req with
  | Err err =>
    (logPrintf (ErrUpstream (targetURL d) err) ;;
     httpError (String.append "Error connecting to "
                  (String.append (modelName d) " endpoint")) StatusBadGateway) s1
  | Ok resp =>
    (writeHeader (StatusCode resp) ;;
     copyHeader (ResponseHeader resp) ;;
     copied ← ioCopy resp;
     (match snd copied with
      | Some err => logPrintf (ErrCopy err)
      | None => ret tt
      end) ;;
     updateMetrics (modelName d) cost ;;
     logPrintf (LogRsp (modelName d) cost (StatusCode resp) (fst copied))) s1
  end.
Proof.
  intros Hm Hb Hn.
  unfold LLMProxyHandler. rewrite (method_post r Hm), Hb, Hn.
  unfold mbind at 1 2 3, M_bind at 1 2 3, bind at 1 2 3.
  unfold logPrintf at 1 2, clientDo. cbn [w globalMetrics logged sent].
  unfold upstreamRequest, estimatedCost. destruct (Do world _); reflexivity.
Qed.

(** Once the header is written, writing body bytes leaves the status
    and the header on the wire as they are. *)
Lemma Write_after_header (w0 : ResponseWriter) (data : string) :
  wroteHeader w0 = true ->
  let w1 := fst (fst (Write w0 data)) in
  wroteHeader w1 = true /\ status w1 = status w0 /\ wireHeader w1 = wireHeader w0 /\
  handlerHeader w1 = handlerHeader w0.
Proof.
  intros Hw. unfold Write. rewrite Hw.
  destruct (String.eqb data EmptyString); [simpl; auto |].
  destruct (bodyAllowedForStatus (status w0)); [| simpl; auto].
  destruct (connRoom w0) as [k |]; [| simpl; auto].
  destruct (_ <=? k)%nat; simpl; auto.
Qed.

Lemma Copy_after_header (w0 : ResponseWriter) (body : string) (breaks : bool) :
  wroteHeader w0 = true ->
  let w1 := fst (fst (Copy w0 body breaks)) in
  wroteHeader w1 = true /\ status w1 = status w0 /\ wireHeader w1 = wireHeader w0 /\
  handlerHeader w1 = handlerHeader w0.
Proof.
  intros Hw. unfold Copy.
  destruct (String.eqb body EmptyString); [simpl; auto |].
  pose proof (Write_after_header w0 body Hw) as H.
  destruct (Write w0 body) as [[w1 k] [e |]]; exact H.
Qed.

(** The part of the handler after an upstream answer only adds to the
    log and changes the writer, and then records the request. *)
Lemma handler_answered (resp : Response) (model : string) (cost : spec_float) (s1 : state) :
  wroteHeader (w s1) = false ->
  100 <= StatusCode resp <= 999 ->
  exists s,
    (writeHeader (StatusCode resp) ;;
     copyHeader (ResponseHeader resp) ;;
     copied ← ioCopy resp;
     (match snd copied with
      | Some err => logPrintf (ErrCopy err)
      | None => ret tt
      end) ;;
     updateMetrics model cost ;;
     logPrintf (LogRsp model cost (StatusCode resp) (fst copied))) s1 = (Some tt, s) /\
    globalMetrics s = record model cost (globalMetrics s1) /\
    sent s = sent s1 /\
    (isInterim (StatusCode resp) = false ->
       wroteHeader (w s) = true /\ status (w s) = StatusCode resp /\
       wireHeader (w s) = handlerHeader (w s1) /\
       handlerHeader (w s) = rangeAssign (ResponseHeader resp) (handlerHeader (w s1))).
Proof.
  intros Hfresh Hcode.
  unfold mbind, M_bind, bind, writeHeader, WriteHeader. rewrite Hfresh.
  destruct (Z.ltb_spec (StatusCode resp) 100); [lia |].
  destruct (Z.ltb_spec 999 (StatusCode resp)); [lia |]. cbn [orb].
  destruct (isInterim (StatusCode resp)) eqn:Hint.
  - unfold copyHeader, ioCopy. cbn [w setW].
    destruct (Copy _ _ _) as [[w2 k] [e |]]; cbn [snd fst];
      unfold logPrintf, updateMetrics, ret; cbn [w globalMetrics logged sent setW];
      eexists; (split; [reflexivity |]); cbn [globalMetrics sent];
      (split; [reflexivity |]); (split; [reflexivity |]); discriminate.
  - unfold copyHeader, ioCopy. cbn [w setW].
    set (w1 := setHandlerHeader (writeFinalHeader (w s1) (StatusCode resp)) _).
    pose proof (Copy_after_header w1 (ResponseBody resp) (BodyBreaks resp) eq_refl) as Hc.
    destruct (Copy w1 _ _) as [[w2 k] [e |]]; cbn [snd fst] in *;
      unfold logPrintf, updateMetrics, ret; cbn [w globalMetrics logged sent setW];
      eexists; (split; [reflexivity |]); cbn [globalMetrics sent w];
      (split; [reflexivity |]); (split; [reflexivity |]); intros _;
      destruct Hc as (H1 & H2 & H3 & H4); rewrite H1, H2, H3, H4; auto.
Qed.





(** What the handler does to the metrics, on each of its paths: it
    leaves them as they are, or records the request once. *)
Lemma metrics_serve (world : World) (room : option nat) (g : LLMUsageMetrics) (r : Request) :
  globalMetrics (snd (serve world room g r)) = g \/
  exists body n,
    Body r = Ok body /\ getPromptLength body = Ok n /\
    globalMetrics (snd (serve world room g r))
    = record (modelName (route n)) (estimatedCost n) g.
Proof.
  unfold serve.
  destruct (String.eqb_spec (Method r) "POST") as [Hm | Hm].
  - destruct (Body r) as [body | e] eqn:Hb.
    + destruct (getPromptLength body) as [n | e] eqn:Hn.
      * rewrite (handler_routed world r body n _ Hm Hb Hn). cbv zeta.
        cbn [w globalMetrics logged sent app].
        destruct (Do world (upstreamRequest world r body n)) as [resp | err].
        -- unfold mbind, M_bind, bind, writeHeader. cbn [w].
           destruct (WriteHeader _ _) as [w1 |]; [| left; reflexivity].
           right. exists body, n. split; [reflexivity |]. split; [exact Hn |].
           unfold copyHeader, ioCopy. cbn [w setW].
           destruct (Copy _ _ _) as [[w2 k] [e |]]; reflexivity.
        -- left. unfold mbind, M_bind, bind, logPrintf, httpError. cbn [w].
           destruct (Error _ _ _); reflexivity.
      * left. unfold LLMProxyHandler. rewrite (method_post r Hm), Hb, Hn.
        unfold mbind, M_bind, bind, logPrintf, httpError. cbn [w].
        destruct (Error _ _ _); reflexivity.
    + left. unfold LLMProxyHandler. rewrite (method_post r Hm), Hb.
      unfold httpError. cbn [w]. destruct (Error _ _ _); reflexivity.
  - left. unfold LLMProxyHandler, MethodPost.
    destruct (String.eqb_spec (Method r) "POST") as [Hm' | _]; [contradiction |].
    cbn [negb]. unfold httpError. cbn [w]. destruct (Error _ _ _); reflexivity.
Qed.

(** [MetricsHandler] changes the response only. *)
Lemma MetricsHandler_reads_only
    (encode : LLMUsageMetrics -> result string) (s : state) :
  globalMetrics (snd (MetricsHandler encode s)) = globalMetrics s /\
  sent (snd (MetricsHandler encode s)) = sent s.
Proof.
  unfold MetricsHandler. destruct (encode (globalMetrics s)) as [text | err].
  - destruct (Write _ text) as [[w2 k] [err |]]; [| split; reflexivity].
    unfold mbind, M_bind, bind, logPrintf, httpError. cbn [w setW].
    destruct (Error _ _ _); split; reflexivity.
  - unfold mbind, M_bind, bind, logPrintf, httpError. cbn [w setW].
    destruct (Error _ _ _); split; reflexivity.
Qed.




(** The header of the answer is assigned to the map of the writer after
    the header was written: for every answer with a final status, the
    header that goes to the caller is the map as it was before, which
    is empty on the writer the handler is called with. *)
Lemma answered_wire_header
    (world : World) (room : option nat) (g : LLMUsageMetrics)
    (r : Request) (body : string) (n : Z) (resp : Response) :
  Method r = "POST" ->
  Body r = Ok body ->
  getPromptLength body = Ok n ->
  Do world (upstreamRequest world r body n) = Ok resp ->
  100 <= StatusCode resp <= 999 ->
  isInterim (StatusCode resp) = false ->
  exists s,
    serve world room g r = (Some tt, s) /\
    status (w s) = StatusCode resp /\
    wireHeader (w s) = ∅ /\
    handlerHeader (w s) = rangeAssign (ResponseHeader resp) ∅.
Proof.
  intros Hm Hb Hn Hdo Hcode Hfinal. unfold serve.
  rewrite (handler_routed world r body n _ Hm Hb Hn). cbv zeta.
  cbn [w globalMetrics logged sent app]. rewrite Hdo.
  match goal with
  | |- context [ (_ ;; _) ?s1 ] =>
    destruct (handler_answered resp (modelName (route n)) (estimatedCost n) s1
                eq_refl Hcode) as (s & Hrun & _ & _ & Hw)
  end.
  rewrite Hrun. destruct (Hw Hfinal) as (H1 & H2 & H3 & H4).
  eexists. split; [reflexivity |]. cbn [w setW].
  unfold finishRequest. rewrite H1. auto.
Qed.

(** C2, at a failing input: the upstream answers 200 with the headers
    [Content-Type] and [X-Request-Id].  The handler passes on the
    status and the body, and it assigns both headers to the map of the
    writer, but only after [WriteHeader]: the header sent to the caller
    is empty. *)
Theorem upstream_headers_are_not_sent :
  let answer := Examples.answer 200 false in
  let out := serve (Examples.answering 200 false) None initialMetrics
                   (Examples.request [] Examples.shortPrompt) in
  fst out = Some tt /\
  status (w (snd out)) = 200 /\
  wireBody (w (snd out)) = ResponseBody answer /\
  ResponseHeader answer !! "X-Request-Id" = Some ["abc"] /\
  handlerHeader (w (snd out)) !! "X-Request-Id" = Some ["abc"] /\
  wireHeader (w (snd out)) !! "X-Request-Id" = None /\
  wireHeader (w (snd out)) !! "Content-Type" = None.
Proof. vm_compute. repeat split; reflexivity. Qed.

End Handler.

(** ** Rounding of binary floating-point numbers

    What is needed of [binary_round_aux], for any precision: the result
    of rounding a positive value is well formed, and it is not below a
    canonical number that is not above the value. *)

Section Rounding.
Variables prec emax : Z.
Hypothesis Hprec : 0 < prec.

Abbreviation emin := (emin prec emax).
Abbreviation fexp := (fexp prec emax).

Lemma fexp_ge_emin e : emin <= fexp e.
Proof. unfold SpecFloat.fexp. lia. Qed.

Lemma fexp_mono a b : a <= b -> fexp a <= fexp b.
Proof. unfold SpecFloat.fexp. lia. Qed.

Lemma digits_bounds (p : positive) :
  2 ^ (Zpos (digits2_pos p) - 1) <= Zpos p < 2 ^ Zpos (digits2_pos p).
Proof.
  induction p as [p IH | p IH |]; simpl digits2_pos.
  - rewrite Pos2Z.inj_succ.
    replace (Z.succ (Zpos (digits2_pos p)) - 1) with (Z.succ (Zpos (digits2_pos p) - 1)) by lia.
    rewrite !Z.pow_succ_r by lia. lia.
  - rewrite Pos2Z.inj_succ.
    replace (Z.succ (Zpos (digits2_pos p)) - 1) with (Z.succ (Zpos (digits2_pos p) - 1)) by lia.
    rewrite !Z.pow_succ_r by lia. lia.
  - simpl. lia.
Qed.

Lemma pow2_pos k : 0 <= k -> 0 < 2 ^ k.
Proof. intros. apply Z.pow_pos_nonneg; lia. Qed.

Lemma pow2_lt a b : 0 <= b -> 2 ^ a < 2 ^ b -> a < b.
Proof.
  intros Hb H. destruct (Z.lt_ge_cases a b) as [|Hge]; [assumption|].
  pose proof (Z.pow_le_mono_r 2 b a ltac:(lia) Hge). lia.
Qed.

Lemma pow2_le_mono a b : 0 <= a <= b -> 2 ^ a <= 2 ^ b.
Proof. intros. apply Z.pow_le_mono_r; lia. Qed.

Lemma digits_le (p : positive) k : 0 <= k -> Zpos p < 2 ^ k -> Zpos (digits2_pos p) <= k.
Proof.
  intros Hk H. pose proof (digits_bounds p) as [Hl _].
  assert (2 ^ (Zpos (digits2_pos p) - 1) < 2 ^ k) by lia.
  apply pow2_lt in H0; lia.
Qed.

Lemma digits_gt (p : positive) k : 0 <= k -> 2 ^ k <= Zpos p -> k < Zpos (digits2_pos p).
Proof.
  intros Hk H. pose proof (digits_bounds p) as [_ Hu].
  apply pow2_lt; lia.
Qed.

(** shifting right *)
Lemma shr_1_m mrs : 0 <= shr_m mrs -> shr_m (shr_1 mrs) = shr_m mrs / 2.
Proof.
  destruct mrs as [m r s]. simpl. intros Hm.
  destruct m as [| [p | p |] | p]; simpl; try lia.
  - reflexivity.
  - apply Z.div_unique with 1; lia.
  - apply Z.div_unique with 0; lia.
  - reflexivity.
Qed.

Lemma iter_pos_shr_m (p : positive) mrs :
  0 <= shr_m mrs -> shr_m (SpecFloat.iter_pos shr_1 p mrs) = shr_m mrs / 2 ^ Zpos p.
Proof.
  revert mrs. induction p as [p IH | p IH |]; intros mrs Hm; simpl SpecFloat.iter_pos.
  - assert (H1 : 0 <= shr_m (shr_1 mrs)).
    { rewrite shr_1_m by assumption. apply Z.div_pos; lia. }
    assert (H2 : 0 <= shr_m (SpecFloat.iter_pos shr_1 p (shr_1 mrs))).
    { rewrite IH by assumption. apply Z.div_pos; [assumption | apply pow2_pos; lia]. }
    rewrite IH by assumption. rewrite IH by assumption. rewrite shr_1_m by assumption.
    rewrite !Z.div_div by (try apply pow2_pos; lia).
    f_equal.
    replace (Zpos p~1) with (1 + Zpos p + Zpos p) by lia.
    rewrite !Z.pow_add_r by lia. rewrite Z.pow_1_r. lia.
  - assert (H2 : 0 <= shr_m (SpecFloat.iter_pos shr_1 p mrs)).
    { rewrite IH by assumption. apply Z.div_pos; [assumption | apply pow2_pos; lia]. }
    rewrite IH by assumption. rewrite IH by assumption.
    rewrite !Z.div_div by (try apply pow2_pos; lia).
    f_equal.
    replace (Zpos p~0) with (Zpos p + Zpos p) by lia.
    rewrite !Z.pow_add_r by lia. lia.
  - rewrite shr_1_m by assumption. reflexivity.
Qed.

Lemma shr_spec mrs e n :
  0 <= shr_m mrs -> 0 <= n ->
  shr_m (fst (shr mrs e n)) = shr_m mrs / 2 ^ n /\ snd (shr mrs e n) = e + n.
Proof.
  intros Hm Hn. unfold shr. destruct n as [| p | p]; simpl; try lia.
  - rewrite Z.div_1_r. lia.
  - split; [apply iter_pos_shr_m; assumption | reflexivity].
Qed.

Lemma round_nearest_even_bounds m l :
  m <= round_nearest_even m l <= m + 1.
Proof.
  unfold round_nearest_even. destruct l as [| []]; try lia.
  destruct (Z.even m); lia.
Qed.

Lemma shr_zero mrs e n : shr_m mrs = 0 -> shr_m (fst (shr mrs e n)) = 0.
Proof.
  intros H. destruct (Z.le_gt_cases 0 n) as [Hn | Hn].
  - rewrite (proj1 (shr_spec mrs e n ltac:(lia) Hn)), H. apply Z.div_0_l.
    pose proof (pow2_pos n Hn). lia.
  - unfold shr. destruct n; try lia. exact H.
Qed.

Lemma canonical_iff (q : positive) e :
  canonical_mantissa prec emax q e = true <-> fexp (Zpos (digits2_pos q) + e) = e.
Proof. unfold canonical_mantissa. apply Z.eqb_eq. Qed.

(** A canonical mantissa, by its size. *)
Lemma canonical_bounds (q : positive) e :
  canonical_mantissa prec emax q e = true ->
  emin <= e /\ Zpos q < 2 ^ prec /\ (emin < e -> 2 ^ (prec - 1) <= Zpos q).
Proof.
  rewrite canonical_iff. intros H. pose proof (digits_bounds q) as [Hl Hu].
  set (d := Zpos (digits2_pos q)) in *.
  assert (Hd : 0 < d) by (unfold d; lia).
  unfold SpecFloat.fexp in H. split; [lia |]. split.
  - assert (d <= prec) by lia.
    pose proof (pow2_le_mono d prec ltac:(lia)). lia.
  - intros He. assert (d = prec) by lia. subst d. rewrite <- H0. exact Hl.
Qed.

Lemma bounds_canonical (q : positive) e :
  emin <= e -> Zpos q < 2 ^ prec -> (emin < e -> 2 ^ (prec - 1) <= Zpos q) ->
  canonical_mantissa prec emax q e = true.
Proof.
  intros He Hu Hl. rewrite canonical_iff.
  pose proof (digits_le q prec ltac:(lia) Hu) as Hd.
  unfold SpecFloat.fexp. destruct (Z.eq_dec e emin) as [-> | Hne]; [lia |].
  pose proof (digits_gt q (prec - 1) ltac:(lia) (Hl ltac:(lia))). lia.
Qed.

Lemma pow2_split (a b : Z) : 0 <= a -> 0 <= b -> 2 ^ (a + b) = 2 ^ a * 2 ^ b.
Proof. intros. apply Z.pow_add_r; assumption. Qed.

Lemma round_aux_cases (m : positive) (e : Z) :
  let e1 := fexp (Zpos (digits2_pos m) + e) in
  e <= e1 ->
  match binary_round_aux prec emax false (Zpos m) e loc_Exact with
  | S754_zero s => s = false /\ e1 = emin /\ Zpos m < 2 ^ (emin - e)
  | S754_infinity s => s = false
  | S754_nan => False
  | S754_finite s m2 e2 =>
    s = false /\ bounded prec emax m2 e2 = true /\ e1 <= e2 /\
    (Zpos m / 2 ^ (e1 - e)) * 2 ^ (e1 - e) <= Zpos m2 * 2 ^ (e2 - e)
  end.
Proof.
  intros e1 He. unfold binary_round_aux, shr_fexp.
  change (Zdigits2 (Zpos m)) with (Zpos (digits2_pos m)). fold e1.
  set (n := e1 - e). assert (Hn : 0 <= n) by (unfold n; lia).
  pose proof (shr_spec (shr_record_of_loc (Zpos m) loc_Exact) e n ltac:(simpl; lia) Hn)
    as [Hm' He'].
  destruct (shr (shr_record_of_loc (Zpos m) loc_Exact) e n) as [mrs' e'].
  cbn [fst snd] in Hm', He'. simpl shr_m in Hm'.
  replace e' with e1 in * by (unfold n in He'; lia). clear He'.
  pose proof (digits_bounds m) as [Hdl Hdu].
  set (d := Zpos (digits2_pos m)) in *.
  assert (Hd : 0 < d) by (unfold d; lia).
  pose proof (fexp_ge_emin (d + e)) as Hemin. fold e1 in Hemin.
  assert (He1 : d + e - prec <= e1) by (unfold e1, SpecFloat.fexp; lia).
  pose proof (pow2_pos n Hn) as Hpn.
  set (m' := shr_m mrs') in *.
  (* the truncated mantissa *)
  assert (F0 : 0 <= m') by (rewrite Hm'; apply Z.div_pos; lia).
  assert (F1 : m' < 2 ^ prec).
  { rewrite Hm'. apply Z.div_lt_upper_bound; [lia |].
    rewrite <- pow2_split by lia.
    pose proof (pow2_le_mono d (n + prec) ltac:(unfold n; lia)). lia. }
  assert (F2 : emin < e1 -> 2 ^ (prec - 1) <= m').
  { intros Hgt. rewrite Hm'. apply Z.div_le_lower_bound; [lia |].
    rewrite <- pow2_split by lia.
    replace (n + (prec - 1)) with (d - 1)
      by (unfold n, e1, SpecFloat.fexp in *; lia).
    exact Hdl. }
  pose proof (round_nearest_even_bounds m' (loc_of_shr_record mrs')) as Hr.
  set (m1 := round_nearest_even m' (loc_of_shr_record mrs')) in *.
  destruct m1 as [| q | q] eqn:Hm1; [| | lia].
  - (* rounded to zero *)
    match goal with
    | |- context [shr ?r ?x ?k] =>
      pose proof (shr_zero r x k eq_refl) as Hz; destruct (shr r x k) as [mrs2 e2]
    end.
    cbn [fst] in Hz. rewrite Hz.
    assert (m' = 0) by lia.
    split; [reflexivity |].
    assert (e1 = emin).
    { destruct (Z.eq_dec e1 emin); [assumption |].
      pose proof (F2 ltac:(lia)). pose proof (pow2_pos (prec - 1) ltac:(lia)). lia. }
    split; [assumption |].
    replace (emin - e) with n by (unfold n; lia).
    rewrite Hm' in H. apply Z.div_small_iff in H; lia.
  - (* rounded to a positive mantissa *)
    change (Zdigits2 (Zpos q)) with (Zpos (digits2_pos q)).
    set (n2 := fexp (Zpos (digits2_pos q) + e1) - e1).
    pose proof (digits_bounds q) as [Hql Hqu].
    set (dq := Zpos (digits2_pos q)) in *.
    assert (Hq : Zpos q <= 2 ^ prec) by lia.
    destruct (Z.eq_dec (Zpos q) (2 ^ prec)) as [Htop | Hlow].
    + (* the mantissa has one digit too many *)
      assert (Hdq : dq = prec + 1).
      { pose proof (digits_gt q prec ltac:(lia) ltac:(lia)).
        pose proof (digits_le q (prec + 1) ltac:(lia)
                      ltac:(rewrite pow2_split, Z.pow_1_r by lia; lia)).
        unfold dq. lia. }
      assert (Hn2 : n2 = 1) by (unfold n2, SpecFloat.fexp; lia).
      rewrite Hn2.
      pose proof (shr_spec (shr_record_of_loc (Zpos q) loc_Exact) e1 1
                    ltac:(simpl; lia) ltac:(lia)) as [Hm2 He2].
      destruct (shr (shr_record_of_loc (Zpos q) loc_Exact) e1 1) as [mrs2 e2].
      cbn [fst snd] in Hm2, He2. simpl shr_m in Hm2. subst e2.
      assert (Hhalf : shr_m mrs2 = 2 ^ (prec - 1)).
      { rewrite Hm2, Htop, Z.pow_1_r.
        replace prec with (1 + (prec - 1)) at 1 by lia.
        rewrite pow2_split, Z.pow_1_r by lia.
        rewrite Z.mul_comm, Z.div_mul; lia. }
      pose proof (pow2_pos (prec - 1) ltac:(lia)) as Hpp.
      destruct (shr_m mrs2) as [| m2 | m2]; [lia | | lia].
      destruct (Z.leb_spec (e1 + 1) (emax - prec)) as [Hfit | Hover]; [| reflexivity].
      split; [reflexivity |]. split; [| split; [lia |]].
      * unfold bounded. apply andb_true_intro. split; [| apply Z.leb_le; exact Hfit].
        apply bounds_canonical; [lia | | lia].
        rewrite Hhalf. apply Z.pow_lt_mono_r; lia.
      * rewrite Hhalf. replace (e1 + 1 - e) with (n + 1) by (unfold n; lia).
        rewrite (pow2_split n 1), Z.pow_1_r by lia.
        replace (2 ^ (prec - 1) * (2 ^ n * 2)) with (2 ^ prec * 2 ^ n).
        -- apply Z.mul_le_mono_nonneg_r; lia.
        -- replace prec with (1 + (prec - 1)) at 1 by lia.
           rewrite pow2_split, Z.pow_1_r by lia. lia.
    + (* the mantissa fits *)
      assert (Hlt : Zpos q < 2 ^ prec) by lia.
      assert (Hcan : canonical_mantissa prec emax q e1 = true).
      { apply bounds_canonical; [lia | exact Hlt |]. intros Hgt. specialize (F2 Hgt). lia. }
      assert (Hn2 : n2 = 0) by (unfold n2, dq; apply canonical_iff in Hcan; lia).
      rewrite Hn2. unfold shr. cbn [shr_m shr_record_of_loc].
      destruct (Z.leb_spec e1 (emax - prec)) as [Hfit | Hover]; [| reflexivity].
      split; [reflexivity |]. split; [| split; [lia |]].
      * unfold bounded. rewrite Hcan. apply Z.leb_le. exact Hfit.
      * fold n. apply Z.mul_le_mono_nonneg_r; lia.
Qed.

(** Of two canonical numbers, the one with the larger exponent is the
    larger one. *)
Lemma canonical_lt_value (a b : positive) (ea eb e : Z) :
  canonical_mantissa prec emax a ea = true ->
  canonical_mantissa prec emax b eb = true ->
  e <= eb -> eb < ea ->
  Zpos b * 2 ^ (eb - e) < Zpos a * 2 ^ (ea - e).
Proof.
  intros Ha Hb He Hlt.
  apply canonical_bounds in Ha as (Ha1 & Ha2 & Ha3).
  apply canonical_bounds in Hb as (Hb1 & Hb2 & Hb3).
  specialize (Ha3 ltac:(lia)).
  pose proof (pow2_pos (eb - e) ltac:(lia)) as Hp.
  replace (ea - e) with ((ea - eb - 1) + 1 + (eb - e)) by lia.
  rewrite !pow2_split, Z.pow_1_r by lia.
  pose proof (pow2_pos (ea - eb - 1) ltac:(lia)) as Hq.
  assert (2 ^ prec = 2 ^ (prec - 1) * 2).
  { replace prec with ((prec - 1) + 1) at 1 by lia.
    rewrite pow2_split, Z.pow_1_r by lia. reflexivity. }
  assert (Zpos b * 2 ^ (eb - e) < 2 ^ prec * 2 ^ (eb - e))
    by (apply Z.mul_lt_mono_pos_r; lia).
  assert (2 ^ prec * 2 ^ (eb - e) <= Zpos a * (2 ^ (ea - eb - 1) * 2) * 2 ^ (eb - e)).
  { apply Z.mul_le_mono_nonneg_r; [lia |]. nia. }
  lia.
Qed.

Abbreviation good := (Float64.goodFor prec emax).

Lemma round_aux_good (m : positive) (e : Z) :
  e <= fexp (Zpos (digits2_pos m) + e) ->
  good (binary_round_aux prec emax false (Zpos m) e loc_Exact) = true.
Proof.
  intros He. pose proof (round_aux_cases m e He) as H.
  destruct (binary_round_aux prec emax false (Zpos m) e loc_Exact) as [s | s | | s m2 e2].
  - destruct H as [-> _]. reflexivity.
  - rewrite H. reflexivity.
  - contradiction.
  - destruct H as (-> & Hb & _). exact Hb.
Qed.

(** The rounded value is not below a canonical number that is not above
    the value that is rounded. *)
Lemma round_aux_leb (m mx : positive) (e ex : Z) :
  e <= fexp (Zpos (digits2_pos m) + e) ->
  canonical_mantissa prec emax mx ex = true ->
  e <= ex ->
  Zpos mx * 2 ^ (ex - e) <= Zpos m ->
  SFleb (S754_finite false mx ex)
        (binary_round_aux prec emax false (Zpos m) e loc_Exact) = true.
Proof.
  intros He Hcan Hex Hle. pose proof (round_aux_cases m e He) as H. cbv zeta in H.
  set (e1 := fexp (Zpos (digits2_pos m) + e)) in *.
  pose proof (canonical_bounds mx ex Hcan) as (Hx1 & Hx2 & Hx3).
  destruct (binary_round_aux prec emax false (Zpos m) e loc_Exact) as [s | s | | s m2 e2].
  - destruct H as (_ & H1 & H2). exfalso.
    pose proof (pow2_le_mono (emin - e) (ex - e) ltac:(lia)).
    pose proof (pow2_pos (ex - e) ltac:(lia)). nia.
  - rewrite H. reflexivity.
  - contradiction.
  - destruct H as (-> & Hb & He2 & Hval).
    unfold bounded in Hb. apply andb_prop in Hb as [Hcan2 _].
    unfold SFleb, SFcompare.
    destruct (Z.compare_spec ex e2) as [Heq | Hlt | Hgt]; [| reflexivity |].
    + (* same exponent *)
      subst e2.
      assert (Hgrid : Zpos mx * 2 ^ (ex - e) <= Zpos m / 2 ^ (e1 - e) * 2 ^ (e1 - e)).
      { replace (ex - e) with ((ex - e1) + (e1 - e)) by lia.
        rewrite pow2_split, Z.mul_assoc by lia.
        apply Z.mul_le_mono_nonneg_r; [pose proof (pow2_pos (e1 - e)); lia |].
        apply Z.div_le_lower_bound; [apply pow2_pos; lia |].
        replace (ex - e) with ((ex - e1) + (e1 - e)) in Hle by lia.
        rewrite pow2_split in Hle by lia. lia. }
      assert (Hm : (mx <= m2)%positive).
      { pose proof (pow2_pos (ex - e) ltac:(lia)).
        assert (Zpos mx <= Zpos m2) by nia. lia. }
      rewrite Pos.compare_cont_spec. cbn [Pos.switch_Eq].
      destruct (Pos.compare_spec mx m2); [reflexivity | reflexivity | lia].
    + (* the result would have a smaller exponent *)
      exfalso.
      pose proof (canonical_lt_value mx m2 ex e2 e Hcan Hcan2 ltac:(lia) Hgt) as Hlt.
      assert (Hgrid : Zpos mx * 2 ^ (ex - e) <= Zpos m / 2 ^ (e1 - e) * 2 ^ (e1 - e)).
      { replace (ex - e) with ((ex - e1) + (e1 - e)) by lia.
        rewrite pow2_split, Z.mul_assoc by lia.
        apply Z.mul_le_mono_nonneg_r; [pose proof (pow2_pos (e1 - e)); lia |].
        apply Z.div_le_lower_bound; [apply pow2_pos; lia |].
        replace (ex - e) with ((ex - e1) + (e1 - e)) in Hle by lia.
        rewrite pow2_split in Hle by lia. lia. }
      lia.
Qed.

(** Shifting a mantissa to the left. *)
Lemma iter_xO_value (m d : positive) : Zpos (Pos.iter xO m d) = Zpos m * 2 ^ Zpos d.
Proof.
  induction d as [| d IH] using Pos.peano_ind.
  - simpl. lia.
  - rewrite Pos.iter_succ, Pos2Z.inj_xO, IH, Pos2Z.inj_succ, Z.pow_succ_r by lia. lia.
Qed.

Lemma iter_xO_digits (m d : positive) :
  Zpos (digits2_pos (Pos.iter xO m d)) = Zpos (digits2_pos m) + Zpos d.
Proof.
  induction d as [| d IH] using Pos.peano_ind.
  - simpl. lia.
  - rewrite Pos.iter_succ. simpl digits2_pos. rewrite Pos2Z.inj_succ, IH. lia.
Qed.

Lemma shl_align_spec (m : positive) (e e' : Z) :
  let r := shl_align m e e' in
  snd r = Z.min e e' /\
  Zpos (fst r) = Zpos m * 2 ^ (e - snd r) /\
  Zpos (digits2_pos (fst r)) + snd r = Zpos (digits2_pos m) + e.
Proof.
  unfold shl_align. destruct (e' - e) as [| d | d] eqn:Hd; cbn [fst snd].
  - replace (e - e) with 0 by lia. rewrite Z.pow_0_r. lia.
  - replace (e - e) with 0 by lia. rewrite Z.pow_0_r. lia.
  - rewrite iter_xO_value, iter_xO_digits.
    replace (e - e') with (Zpos d) by lia. lia.
Qed.

Lemma binary_round_good (m : positive) (e : Z) :
  good (binary_round prec emax false m e) = true.
Proof.
  unfold binary_round.
  pose proof (shl_align_spec m e (fexp (Zpos (digits2_pos m) + e))) as (H1 & H2 & H3).
  destruct (shl_align m e (fexp (Zpos (digits2_pos m) + e))) as [mz ez].
  cbn [fst snd] in *. apply round_aux_good. rewrite H3. lia.
Qed.

Lemma binary_round_leb (m mx : positive) (e ex : Z) :
  canonical_mantissa prec emax mx ex = true ->
  e <= ex ->
  Zpos mx * 2 ^ (ex - e) <= Zpos m ->
  SFleb (S754_finite false mx ex) (binary_round prec emax false m e) = true.
Proof.
  intros Hcan Hex Hle. unfold binary_round.
  pose proof (shl_align_spec m e (fexp (Zpos (digits2_pos m) + e))) as (H1 & H2 & H3).
  destruct (shl_align m e (fexp (Zpos (digits2_pos m) + e))) as [mz ez].
  cbn [fst snd] in *.
  apply round_aux_leb; [rewrite H3; lia | exact Hcan | lia |].
  rewrite H2. replace (ex - ez) with ((ex - e) + (e - ez)) by lia.
  rewrite pow2_split, Z.mul_assoc by lia.
  apply Z.mul_le_mono_nonneg_r; [pose proof (pow2_pos (e - ez)); lia | exact Hle].
Qed.

Lemma leb_refl_good (x : spec_float) : good x = true -> SFleb x x = true.
Proof.
  destruct x as [[] | [] | | [] m e]; simpl; intros H; try discriminate; try reflexivity.
  unfold SFleb, SFcompare. rewrite Z.compare_refl, Pos.compare_cont_refl. reflexivity.
Qed.

(** Adding a number that is not negative: the sum is well formed and
    not below the first summand. *)
Lemma add_good (x y : spec_float) :
  good x = true -> good y = true ->
  good (SFadd prec emax x y) = true /\ SFleb x (SFadd prec emax x y) = true.
Proof.
  intros Hx Hy.
  destruct x as [[] | [] | | [] mx ex]; try discriminate Hx;
    destruct y as [[] | [] | | [] my ey]; try discriminate Hy;
    try (split; [assumption || reflexivity | reflexivity]).
  - (* finite + zero *)
    split; [exact Hx | apply leb_refl_good; exact Hx].
  - (* finite + finite *)
    unfold SFadd. cbn [cond_Zopp].
    pose proof (shl_align_spec mx ex (Z.min ex ey)) as (Hx1 & Hx2 & _).
    pose proof (shl_align_spec my ey (Z.min ex ey)) as (Hy1 & Hy2 & _).
    destruct (shl_align mx ex (Z.min ex ey)) as [ax ez1].
    destruct (shl_align my ey (Z.min ex ey)) as [ay ez2].
    cbn [fst snd] in *.
    change (Zpos ax + Zpos ay) with (Zpos (ax + ay)).
    cbn [binary_normalize].
    split; [apply binary_round_good |].
    simpl in Hx. unfold bounded in Hx. apply andb_prop in Hx as [Hcan _].
    apply binary_round_leb; [exact Hcan | lia |].
    rewrite Pos2Z.inj_add, Hx2.
    replace ez1 with (Z.min ex ey) by lia. lia.
Qed.

(** The conversion of an integer that is not negative. *)
Lemma normalize_good (n : Z) :
  0 <= n -> good (binary_normalize prec emax n 0 false) = true.
Proof.
  intros Hn. destruct n as [| p | p]; [reflexivity | apply binary_round_good | lia].
Qed.

(** The product with a positive number whose mantissa has all its
    digits. *)
Lemma mul_good (x : spec_float) (my : positive) (ey : Z) :
  good x = true ->
  2 ^ (prec - 1) <= Zpos my ->
  good (SFmul prec emax x (S754_finite false my ey)) = true.
Proof.
  intros Hx Hy.
  destruct x as [[] | [] | | [] mx ex]; try discriminate Hx; try reflexivity.
  unfold SFmul. cbn [xorb]. apply round_aux_good.
  assert (2 ^ (prec - 1) <= Zpos (mx * my)) by (rewrite Pos2Z.inj_mul; nia).
  pose proof (digits_gt (mx * my) (prec - 1) ltac:(lia) H).
  unfold SpecFloat.fexp. lia.
Qed.

End Rounding.

(** ** The decoder and the handler on sample inputs *)

Section Scenarios.
Import Gateway Http.

(** Keys are matched without regard to case, [null] leaves a field as
    it is, members that match no field are skipped, and escapes are
    replaced before the length is taken. *)
Example decode_folded_keys :
  json_Unmarshal (js "{'Messages':[{'ROLE':'user','Content':'hé','id':[1,{}]},null]}")
  = Ok {| Messages := [ {| Role := "user";
                           Content := String "h" (String (byte 0xC3)
                                        (String (byte 0xA9) EmptyString)) |};
                        {| Role := EmptyString; Content := EmptyString |} ] |}.
Proof. vm_compute. reflexivity. Qed.

Example decode_rejects :
  json_Unmarshal (js "{'messages':[],}") = Err SyntaxError /\
  json_Unmarshal EmptyString = Err SyntaxError /\
  json_Unmarshal (js "{'messages':{}}")
  = Err (UnmarshalTypeError "object" "[]main.Message") /\
  json_Unmarshal (js "{'messages':[{'role':true}]}")
  = Err (UnmarshalTypeError "bool" "string") /\
  json_Unmarshal "null" = Ok {| Messages := [] |}.
Proof. repeat split; vm_compute; reflexivity. Qed.

(** A prompt of 2 characters is routed to the cheap model, one of 150
    still is, one of 151 or 200 is routed to the expensive one. *)
Example short_prompt_is_cheap :
  getPromptLength Examples.shortPrompt = Ok 2 /\
  modelName (route 2) = "CheapModel" /\
  estimatedCost 2 = S754_finite false 7555786372591432 (-75).
Proof. repeat split; vm_compute; reflexivity. Qed.

Example boundary_prompts :
  getPromptLength (Examples.promptOfLength 150) = Ok 150 /\
  modelName (route 150) = "CheapModel" /\
  getPromptLength (Examples.promptOfLength 151) = Ok 151 /\
  modelName (route 151) = "ExpensiveModel" /\
  getPromptLength (Examples.promptOfLength 200) = Ok 200 /\
  modelName (route 200) = "ExpensiveModel".
Proof. repeat split; vm_compute; reflexivity. Qed.

(** Two requests, of lengths 2 and 200, one after the other. *)
Example two_requests_in_sequence :
  let world := Examples.answering 200 false in
  let s1 := snd (serve world None initialMetrics
                   (Examples.request [] Examples.shortPrompt)) in
  let s2 := snd (serve world None (globalMetrics s1)
                   (Examples.request [] (Examples.promptOfLength 200))) in
  TotalRequests (globalMetrics s2) = 2 /\
  ModelUsage (globalMetrics s2) !! "CheapModel" = Some 1 /\
  ModelUsage (globalMetrics s2) !! "ExpensiveModel" = Some 1 /\
  URL <$> sent s1 = [cheapModelURL] /\
  URL <$> sent s2 = [expensiveModelURL].
Proof. vm_compute. repeat split; reflexivity. Qed.

(** A request that is not a POST, and one whose body cannot be read. *)
Example rejected_before_analysis :
  let world := Examples.answering 200 false in
  let get := {| Method := "GET"; URL := "/v1/chat/completions"; Header := ∅;
                Body := Ok EmptyString; RemoteAddr := EmptyString |} in
  let broken := {| Method := "POST"; URL := "/v1/chat/completions"; Header := ∅;
                   Body := Err ReadError; RemoteAddr := EmptyString |} in
  status (w (snd (serve world None initialMetrics get))) = StatusMethodNotAllowed /\
  status (w (snd (serve world None initialMetrics broken))) = StatusInternalServerError /\
  globalMetrics (snd (serve world None initialMetrics get)) = initialMetrics /\
  globalMetrics (snd (serve world None initialMetrics broken)) = initialMetrics.
Proof. vm_compute. repeat split; reflexivity. Qed.

End Scenarios.

(** ** The metrics aggregator *)

Section Metrics.
Import Gateway.

Lemma sum_step_comm (z1 z2 y : Z) :
  GoInt.add (GoInt.add y z2) z1 = GoInt.add (GoInt.add y z1) z2.
Proof. unfold GoInt.add. rewrite !wrap_add_l. f_equal. lia. Qed.

Lemma sumModelUsage_insert_fresh (m : gmap string Z) (k : string) (v : Z) :
  m !! k = None ->
  sumModelUsage (<[k := v]> m) = GoInt.add (sumModelUsage m) v.
Proof.
  intros Hk. unfold sumModelUsage.
  rewrite map_fold_insert_L; [reflexivity | | exact Hk].
  intros. apply sum_step_comm.
Qed.

Lemma sumModelUsage_delete (m : gmap string Z) (k : string) (v : Z) :
  m !! k = Some v ->
  sumModelUsage m = GoInt.add (sumModelUsage (delete k m)) v.
Proof.
  intros Hk. unfold sumModelUsage.
  rewrite (map_fold_delete_L _ _ k v m); [reflexivity | | exact Hk].
  intros. apply sum_step_comm.
Qed.

(** [ModelUsage[modelName]++] adds one to the sum of the counts. *)
Lemma sumModelUsage_inc (m : gmap string Z) (k : string) :
  sumModelUsage (<[k := GoInt.add (usage m k) 1]> m) = GoInt.add (sumModelUsage m) 1.
Proof.
  unfold usage. destruct (m !! k) as [v |] eqn:Hk; cbn [default].
  - rewrite <- insert_delete_eq.
    rewrite sumModelUsage_insert_fresh by apply lookup_delete_eq.
    rewrite (sumModelUsage_delete m k v Hk).
    unfold GoInt.add. rewrite wrap_add_l, wrap_add_r. f_equal. unfold id. lia.
  - rewrite sumModelUsage_insert_fresh by exact Hk. reflexivity.
Qed.

(** One recorded request keeps the two counters equal. *)
Lemma record_consistent (model : string) (cost : spec_float) (g : LLMUsageMetrics) :
  TotalRequests g = sumModelUsage (ModelUsage g) ->
  TotalRequests (record model cost g) = sumModelUsage (ModelUsage (record model cost g)).
Proof.
  intros H. unfold record, incModelUsage, addTotalCost, incTotalRequests.
  cbn [TotalRequests ModelUsage]. rewrite sumModelUsage_inc, H. reflexivity.
Qed.

(** The two rates are the [float64] values nearest to 1/10^7 and to
    15/10^7: the error of each is at most half a unit of its last
    digit. *)
Lemma cost_constants_rounded :
  cheapModelCostPerChar = S754_finite false 7555786372591432 (-76) /\
  bounded Float64.prec Float64.emax 7555786372591432 (-76) = true /\
  2 * Z.abs (7555786372591432 * 10 ^ 7 - 2 ^ 76) <= 10 ^ 7 /\
  expensiveModelCostPerChar = S754_finite false 7083549724304468 (-72) /\
  bounded Float64.prec Float64.emax 7083549724304468 (-72) = true /\
  2 * Z.abs (7083549724304468 * 10 ^ 7 - 15 * 2 ^ 72) <= 10 ^ 7.
Proof. repeat split; vm_compute; congruence. Qed.

(** The estimated cost of a prompt length that is not negative is a
    well-formed number that is not negative. *)
Lemma estimatedCost_good (n : Z) : 0 <= n -> Float64.good (estimatedCost n) = true.
Proof.
  intros Hn. unfold estimatedCost, Float64.mul, Float64.ofInt, Float64.good, route.
  destruct (n <=? promptLengthThreshold);
    (apply mul_good;
     [unfold Float64.prec; lia
     | apply normalize_good; [unfold Float64.prec; lia | exact Hn]
     | vm_compute; discriminate]).
Qed.

Lemma record_cost (model : string) (cost : spec_float) (g : LLMUsageMetrics) :
  TotalCost (record model cost g) = Float64.add (TotalCost g) cost.
Proof. reflexivity. Qed.

(** The exact sum of the counts. *)
Lemma exactModelUsage_insert_fresh (m : gmap string Z) (k : string) (v : Z) :
  m !! k = None ->
  exactModelUsage (<[k := v]> m) = exactModelUsage m + v.
Proof.
  intros Hk. unfold exactModelUsage.
  rewrite map_fold_insert_L; [reflexivity | | exact Hk].
  intros. lia.
Qed.

Lemma exactModelUsage_delete (m : gmap string Z) (k : string) (v : Z) :
  m !! k = Some v ->
  exactModelUsage m = exactModelUsage (delete k m) + v.
Proof.
  intros Hk. unfold exactModelUsage.
  rewrite (map_fold_delete_L _ _ k v m); [reflexivity | | exact Hk].
  intros. lia.
Qed.

Lemma exactModelUsage_nonneg (m : gmap string Z) :
  map_Forall (fun _ v => 0 <= v) m -> 0 <= exactModelUsage m.
Proof.
  induction m as [| k v m Hk IH] using map_ind; intros Hall.
  - unfold exactModelUsage. rewrite map_fold_empty. lia.
  - rewrite exactModelUsage_insert_fresh by exact Hk.
    apply map_Forall_insert in Hall as [Hv Hm]; [| exact Hk].
    specialize (IH Hm). lia.
Qed.

(** As long as the counts are below the largest [int],
    [ModelUsage[modelName]++] adds exactly one. *)
Lemma exactModelUsage_inc (m : gmap string Z) (k : string) :
  map_Forall (fun _ v => 0 <= v) m ->
  exactModelUsage m < GoInt.maxInt ->
  map_Forall (fun _ v => 0 <= v) (<[k := GoInt.add (usage m k) 1]> m) /\
  exactModelUsage (<[k := GoInt.add (usage m k) 1]> m) = exactModelUsage m + 1.
Proof.
  intros Hall Hlt. unfold usage.
  destruct (m !! k) as [v |] eqn:Hk; cbn [default from_option]; unfold id.
  - pose proof (Hall k v Hk) as Hv. cbn in Hv.
    pose proof (exactModelUsage_delete m k v Hk) as Hsum.
    assert (Hrest : 0 <= exactModelUsage (delete k m)).
    { apply exactModelUsage_nonneg. apply map_Forall_delete. exact Hall. }
    assert (Hadd : GoInt.add v 1 = v + 1).
    { unfold GoInt.add. apply wrap_small.
      unfold GoInt.inRange, GoInt.minInt, GoInt.maxInt in *. lia. }
    rewrite Hadd. split.
    + apply map_Forall_insert_2; [lia | exact Hall].
    + rewrite <- insert_delete_eq.
      rewrite exactModelUsage_insert_fresh by apply lookup_delete_eq. lia.
  - change (GoInt.add 0 1) with 1. split.
    + apply map_Forall_insert_2; [lia | exact Hall].
    + apply exactModelUsage_insert_fresh. exact Hk.
Qed.

(** Counts that are not negative and whose sum fits an [int] are added
    up without wrap-around. *)
Lemma sumModelUsage_exact (m : gmap string Z) :
  map_Forall (fun _ v => 0 <= v) m ->
  exactModelUsage m <= GoInt.maxInt ->
  sumModelUsage m = exactModelUsage m.
Proof.
  induction m as [| k v m Hk IH] using map_ind; intros Hall Hfit.
  - reflexivity.
  - rewrite sumModelUsage_insert_fresh, exactModelUsage_insert_fresh in * by exact Hk.
    apply map_Forall_insert in Hall as [Hv Hm]; [| exact Hk].
    pose proof (exactModelUsage_nonneg m Hm) as H0.
    rewrite IH by (assumption || lia).
    unfold GoInt.add. apply wrap_small.
    unfold GoInt.inRange, GoInt.minInt, GoInt.maxInt in *. lia.
Qed.

(** What holds of the metrics at all times. *)
Lemma reachable_invariant (k : nat) (g : LLMUsageMetrics) :
  reachable k g ->
  TotalRequests g = sumModelUsage (ModelUsage g) /\ Float64.good (TotalCost g) = true.
Proof.
  induction 1 as [| k g n _ [IHc IHg] Hn].
  - split; vm_compute; reflexivity.
  - split; [apply record_consistent; exact IHc |].
    rewrite record_cost.
    apply (add_good Float64.prec Float64.emax ltac:(unfold Float64.prec; lia)
             _ _ IHg (estimatedCost_good n Hn)).
Qed.

(** As long as the number of recorded requests fits an [int], both
    counters are that number. *)
Lemma reachable_exact (k : nat) (g : LLMUsageMetrics) :
  reachable k g ->
  Z.of_nat k <= GoInt.maxInt ->
  TotalRequests g = Z.of_nat k /\
  map_Forall (fun _ v => 0 <= v) (ModelUsage g) /\
  exactModelUsage (ModelUsage g) = Z.of_nat k.
Proof.
  induction 1 as [| k g n _ IH Hn]; intros Hk.
  - split; [reflexivity |]. split; [| vm_compute; reflexivity].
    unfold initialMetrics, seedModelUsage. cbn [ModelUsage globalMetrics0].
    apply map_Forall_insert_2; [lia |]. apply map_Forall_insert_2; [lia |].
    apply map_Forall_empty.
  - destruct (IH ltac:(lia)) as (Ht & Hall & Hsum).
    unfold record, incModelUsage, addTotalCost, incTotalRequests.
    cbn [TotalRequests ModelUsage].
    destruct (exactModelUsage_inc (ModelUsage g) (modelName (route n)) Hall ltac:(lia))
      as [Hall' Hsum'].
    split; [| split; [exact Hall' | lia]].
    rewrite Ht. unfold GoInt.add. rewrite wrap_small; [lia |].
    unfold GoInt.inRange, GoInt.minInt, GoInt.maxInt in *. lia.
Qed.

(** Serving a request takes reachable metrics to reachable metrics, for
    a body whose prompt length fits an [int]. *)
Lemma serve_reachable
    (world : World) (room : option nat) (k : nat) (g : LLMUsageMetrics)
    (r : Http.Request) :
  reachable k g ->
  (forall body payload,
     Http.Body r = Ok body -> json_Unmarshal body = Ok payload ->
     Spec.userContentLength payload <= GoInt.maxInt) ->
  reachable k (globalMetrics (snd (serve world room g r))) \/
  reachable (S k) (globalMetrics (snd (serve world room g r))).
Proof.
  intros Hg Hfit.
  destruct (metrics_serve world room g r) as [-> | (body & n & Hb & Hn & ->)];
    [left; exact Hg | right].
  apply reach_record; [exact Hg |].
  unfold getPromptLength in Hn.
  destruct (json_Unmarshal body) as [payload |] eqn:Hdec; [| discriminate].
  pose proof (promptLength_nonneg body payload Hdec
                (Hfit body payload Hb Hdec)) as [Hn' H0].
  unfold getPromptLength in Hn'. rewrite Hdec in Hn'. congruence.
Qed.

(** C6. The metrics start with both model names at zero; after the
    start and after every recorded request, [TotalRequests] is the sum
    of the per-model counts, as Go adds them and, as long as the number
    of recorded requests fits an [int], as plain numbers; and a
    recorded request never makes [TotalCost] smaller. *)
Theorem metrics_invariant (k : nat) (g : LLMUsageMetrics) :
  reachable k g ->
  (ModelUsage initialMetrics !! "CheapModel" = Some 0 /\
   ModelUsage initialMetrics !! "ExpensiveModel" = Some 0 /\
   TotalRequests initialMetrics = 0 /\
   sumModelUsage (ModelUsage initialMetrics) = 0) /\
  TotalRequests g = sumModelUsage (ModelUsage g) /\
  (Z.of_nat k <= GoInt.maxInt ->
     TotalRequests g = Z.of_nat k /\ exactModelUsage (ModelUsage g) = Z.of_nat k) /\
  (forall n, 0 <= n ->
     Float64.leb (TotalCost g)
       (TotalCost (record (modelName (route n)) (estimatedCost n) g)) = true).
Proof.
  intros Hg. destruct (reachable_invariant k g Hg) as [Hc Hgood].
  split; [repeat split; vm_compute; reflexivity |]. split; [exact Hc |]. split.
  - intros Hk. destruct (reachable_exact k g Hg Hk) as (Ht & _ & Hs). auto.
  - intros n Hn. rewrite record_cost.
    apply (add_good Float64.prec Float64.emax ltac:(unfold Float64.prec; lia)
             _ _ Hgood (estimatedCost_good n Hn)).
Qed.

Lemma metrics_invariant_witness :
  let g := record "ExpensiveModel" (estimatedCost 200)
             (record "CheapModel" (estimatedCost 2) initialMetrics) in
  TotalRequests g = sumModelUsage (ModelUsage g) /\
  (TotalRequests g = 2 /\ exactModelUsage (ModelUsage g) = 2) /\
  Float64.leb (TotalCost g) (TotalCost (record "CheapModel" (estimatedCost 150) g)) = true.
Proof.
  intros g.
  assert (Hg : reachable 2 g).
  { exact (reach_record 1 _ 200 (reach_record 0 _ 2 reach_initial ltac:(lia)) ltac:(lia)). }
  pose proof (metrics_invariant 2 g Hg) as (_ & Hsum & Hexact & Hcost).
  split; [exact Hsum |]. split.
  - apply Hexact. vm_compute. discriminate.
  - exact (Hcost 150 ltac:(lia)).
Defined.

End Metrics.

(** ** Concurrent requests *)

Section ConcurrentFacts.
Import Gateway Concurrent.

Lemma sum_list_with_insert {A : Type} (f : A -> nat) (l : list A) (i : nat) (t t' : A) :
  l !! i = Some t ->
  (sum_list_with f (<[i := t']> l) + f t = sum_list_with f l + f t')%nat.
Proof.
  revert i. induction l as [| a l IH]; intros [| i] H; simpl in *; try discriminate.
  - injection H as ->. lia.
  - specialize (IH i H). lia.
Qed.

Lemma sum_list_with_ext {A : Type} (f g : A -> nat) (l : list A) :
  (forall i t, l !! i = Some t -> f t = g t) ->
  sum_list_with f l = sum_list_with g l.
Proof.
  induction l as [| a l IH]; intros H; simpl; [reflexivity |].
  rewrite (H 0%nat a eq_refl), IH; [reflexivity |].
  intros i t Hi. exact (H (S i) t Hi).
Qed.

(** What one statement does to the two counters. *)
Lemma stepThread_total (g g' : LLMUsageMetrics) (l l' : bool) (t t' : thread) :
  stepThread g l t = Some (g', l', t') ->
  (counted t' = counted t /\ TotalRequests g' = TotalRequests g) \/
  (counted t' = S (counted t) /\ TotalRequests g' = GoInt.add (TotalRequests g) 1 /\
   holding t = true).
Proof.
  destruct t as [m c [] | [] s]; simpl; try destruct l; intros H;
    try discriminate; injection H as <- <- <-; simpl; auto.
Qed.

Lemma stepThread_usage (g g' : LLMUsageMetrics) (l l' : bool) (t t' : thread) :
  stepThread g l t = Some (g', l', t') ->
  (tallied t' = tallied t /\ ModelUsage g' = ModelUsage g) \/
  (tallied t' = S (tallied t) /\
   sumModelUsage (ModelUsage g') = GoInt.add (sumModelUsage (ModelUsage g)) 1).
Proof.
  destruct t as [m c [] | [] s]; simpl; try destruct l; intros H;
    try discriminate; injection H as <- <- <-; simpl;
    try (left; split; reflexivity).
  all: right; split; [reflexivity |]; apply sumModelUsage_inc.
Qed.

(** What one statement does to the mutex. *)
Lemma stepThread_lock (g g' : LLMUsageMetrics) (l l' : bool) (t t' : thread) :
  stepThread g l t = Some (g', l', t') ->
  (l = false /\ holding t = false /\ l' = true /\ holding t' = true) \/
  (holding t = true /\ l' = l /\ holding t' = true) \/
  (holding t = true /\ l' = false /\ holding t' = false).
Proof.
  destruct t as [m c [] | [] s]; simpl; try destruct l; intros H;
    try discriminate; injection H as <- <- <-; simpl; auto.
Qed.

Lemma stepThread_kind (g g' : LLMUsageMetrics) (l l' : bool) (t t' : thread) :
  stepThread g l t = Some (g', l', t') -> isRecorder t' = isRecorder t.
Proof.
  destruct t as [m c [] | [] s]; simpl; try destruct l; intros H;
    try discriminate; injection H as <- <- <-; reflexivity.
Qed.

(** Outside its critical section a goroutine has added to both counters
    or to none. *)
Lemma counted_tallied (t : thread) : holding t = false -> counted t = tallied t.
Proof. destruct t as [m c [] | [] s]; simpl; intros H; try discriminate; reflexivity. Qed.

Lemma recorderDone_counted (t : thread) :
  recorderDone t = true -> counted t = isRecorder t /\ tallied t = isRecorder t.
Proof. destruct t as [m c [] | [] s]; simpl; intros H; try discriminate; auto. Qed.

Lemma sum_list_with_zero {A : Type} (f : A -> nat) (l : list A) :
  (forall t, t ∈ l -> f t = 0%nat) -> sum_list_with f l = 0%nat.
Proof.
  induction l as [| a l IH]; intros H; simpl; [reflexivity |].
  rewrite (H a), IH; [reflexivity | |]; intros; try apply H; constructor; assumption.
Qed.

Lemma start_threads (jobs : list (string * spec_float)) (reporters : nat) (t : thread) :
  t ∈ threads (start jobs reporters) ->
  (exists m c, t = Recorder m c RecLock) \/ t = Reporter RepLock globalMetrics0.
Proof.
  unfold start. cbn [threads]. intros Hi.
  apply elem_of_app in Hi as [Hi | Hi].
  - apply list_elem_of_fmap in Hi as (j & -> & _). left. eauto.
  - apply elem_of_replicate in Hi as [-> _]. right. reflexivity.
Qed.

Lemma start_recorders (jobs : list (string * spec_float)) (reporters : nat) :
  sum_list_with isRecorder (threads (start jobs reporters)) = length jobs.
Proof.
  unfold start. cbn [threads]. rewrite sum_list_with_app.
  rewrite (sum_list_with_zero isRecorder (replicate _ _)).
  - induction jobs as [| j jobs IH]; simpl in *; [reflexivity |]. lia.
  - intros t Ht. apply elem_of_replicate in Ht as [-> _]. reflexivity.
Qed.

Lemma invariant_start (jobs : list (string * spec_float)) (reporters : nat) :
  invariant (length jobs) (start jobs reporters).
Proof.
  pose proof (start_threads jobs reporters) as Hth.
  assert (Hlock : forall i t,
             threads (start jobs reporters) !! i = Some t -> holding t = false).
  { intros i t Hi. apply list_elem_of_lookup_2, Hth in Hi.
    destruct Hi as [(m & c & ->) | ->]; reflexivity. }
  unfold invariant. repeat split.
  - rewrite sum_list_with_zero; [reflexivity |].
    intros t Ht. destruct (Hth t Ht) as [(m & c & ->) | ->]; reflexivity.
  - rewrite sum_list_with_zero; [reflexivity |].
    intros t Ht. destruct (Hth t Ht) as [(m & c & ->) | ->]; reflexivity.
  - exists None. split; [reflexivity |]. split; [intros i H; discriminate |].
    intros i t Hi. rewrite (Hlock i t Hi). split; discriminate.
  - intros i s Hi. apply Hlock in Hi. discriminate.
  - intros i t s Hi Hs. apply list_elem_of_lookup_2, Hth in Hi.
    destruct Hi as [(m & c & ->) | ->]; discriminate.
  - apply start_recorders.
Qed.

Lemma lookup_updated {A : Type} (l : list A) (i j : nat) (t t' x : A) :
  l !! i = Some t ->
  <[i := t']> l !! j = Some x ->
  (j = i /\ x = t') \/ (j <> i /\ l !! j = Some x).
Proof.
  intros Hi Hj. destruct (decide (j = i)) as [-> | Hne].
  - left. split; [reflexivity |].
    rewrite list_lookup_insert_eq in Hj by (eapply lookup_lt_Some; exact Hi).
    congruence.
  - right. split; [exact Hne |].
    rewrite list_lookup_insert_ne in Hj by congruence. exact Hj.
Qed.

(** The cases of a statement that was run. *)
Ltac step_cases t Hst :=
  destruct t as [? ? [] | [] ?]; simpl in Hst;
  repeat match type of Hst with
         | context [if ?b then _ else _] => destruct b eqn:?
         end;
  try discriminate.

(** Every step keeps the invariant. *)
Lemma invariant_step (N : nat) (c c' : config) :
  invariant N c -> step c c' -> invariant N c'.
Proof.
  intros (I1 & I2 & (h & Hl & Hvalid & Hh) & I4 & I5 & I6) Hstep.
  destruct Hstep as [c i t t' g' l' Hi Hst].
  unfold invariant. cbn [metrics locked threads].
  assert (Hheld : forall j tj, threads c !! j = Some tj ->
                    holding t = true -> holding tj = true -> j = i).
  { intros j tj Hj Ht Htj. apply (Hh i t Hi) in Ht. apply (Hh j tj Hj) in Htj. congruence. }
  split; [| split; [| split; [| split; [| split]]]].
  - pose proof (sum_list_with_insert counted _ i t t' Hi) as Hsum.
    destruct (stepThread_total _ _ _ _ _ _ Hst) as [[Hc Ht] | (Hc & Ht & _)].
    + rewrite Ht, I1. f_equal. lia.
    + rewrite Ht, I1. unfold GoInt.add. rewrite wrap_add_l. f_equal. lia.
  - pose proof (sum_list_with_insert tallied _ i t t' Hi) as Hsum.
    destruct (stepThread_usage _ _ _ _ _ _ Hst) as [[Hc Ht] | (Hc & Ht)].
    + rewrite Ht, I2. f_equal. lia.
    + rewrite Ht, I2. unfold GoInt.add. rewrite wrap_add_l. f_equal. lia.
  - destruct (stepThread_lock _ _ _ _ _ _ Hst)
      as [(Hfree & Hout & -> & Hin) | [(Hin & -> & Hin') | (Hin & -> & Hout)]].
    + assert (h = None) as -> by (destruct h; [congruence | reflexivity]).
      exists (Some i). split; [reflexivity |]. split.
      * intros j Hj. injection Hj as <-.
        rewrite list_lookup_insert_eq by (eapply lookup_lt_Some; exact Hi). eauto.
      * intros j tj Hj.
        destruct (lookup_updated _ _ _ _ _ _ Hi Hj) as [[-> ->] | [Hne Hold]].
        -- split; auto.
        -- pose proof (Hh j tj Hold) as Hiff. split.
           ++ intros H. apply Hiff in H. discriminate.
           ++ intros H. congruence.
    + pose proof (proj1 (Hh i t Hi) Hin) as ->.
      exists (Some i). split; [exact Hl |]. split.
      * intros j Hj. injection Hj as <-.
        rewrite list_lookup_insert_eq by (eapply lookup_lt_Some; exact Hi). eauto.
      * intros j tj Hj.
        destruct (lookup_updated _ _ _ _ _ _ Hi Hj) as [[-> ->] | [Hne Hold]].
        -- split; auto.
        -- exact (Hh j tj Hold).
    + pose proof (proj1 (Hh i t Hi) Hin) as ->.
      exists None. split; [reflexivity |]. split; [intros j Hj; discriminate |].
      intros j tj Hj.
      destruct (lookup_updated _ _ _ _ _ _ Hi Hj) as [[-> ->] | [Hne Hold]].
      * rewrite Hout. split; discriminate.
      * pose proof (Hh j tj Hold) as Hiff. split; [| discriminate].
        intros H. apply Hiff in H. congruence.
  - intros j s Hj.
    destruct (lookup_updated _ _ _ _ _ _ Hi Hj) as [[-> Heq] | [Hne Hold]].
    + subst t'. step_cases t Hst.
      injection Hst as <- _ <-. reflexivity.
    + rewrite (I4 j s Hold).
      destruct (stepThread_total _ _ _ _ _ _ Hst) as [[_ Ht] | (_ & _ & Hin)];
        [congruence |].
      exfalso. apply Hne. exact (Hheld j _ Hold Hin eq_refl).
  - intros j tj s Hj Hs.
    destruct (lookup_updated _ _ _ _ _ _ Hi Hj) as [[-> ->] | [Hne Hold]];
      [| exact (I5 j tj s Hold Hs)].
    step_cases t Hst;
      injection Hst as <- <- <-; simpl in Hs; try discriminate; injection Hs as <-.
    + cbn [TotalRequests ModelUsage].
      rewrite (I4 i _ Hi), I1, I2. do 2 f_equal.
      apply sum_list_with_ext. intros k tk Hk.
      destruct (holding tk) eqn:Htk; [| apply counted_tallied; exact Htk].
      rewrite (Hheld k tk Hk eq_refl Htk) in Hk.
      rewrite Hi in Hk. injection Hk as <-. reflexivity.
    + exact (I5 i _ _ Hi eq_refl).
  - pose proof (sum_list_with_insert isRecorder _ i t t' Hi) as Hsum.
    rewrite (stepThread_kind _ _ _ _ _ _ Hst) in Hsum. lia.
Qed.

Lemma invariant_steps (N : nat) (c c' : config) :
  invariant N c -> steps c c' -> invariant N c'.
Proof.
  intros Hinv Hsteps. induction Hsteps as [| c1 c2 c3 Hstep _ IH]; [exact Hinv |].
  apply IH. exact (invariant_step N c1 c2 Hinv Hstep).
Qed.

(** A recording goroutine that runs alone does what the handler's
    update does in one step. *)
Lemma recorder_alone (g : LLMUsageMetrics) (model : string) (cost : spec_float) :
  run [0; 0; 0; 0; 0]%nat
      {| metrics := g; locked := false; threads := [Recorder model cost RecLock] |}
  = {| metrics := record model cost g; locked := false;
       threads := [Recorder model cost RecDone] |}.
Proof. reflexivity. Qed.

(** The program run under a schedule is one of its runs. *)
Lemma run_steps (schedule : list nat) (c : config) : steps c (run schedule c).
Proof.
  revert c. induction schedule as [| i schedule IH]; intros c; [apply rtc_refl |].
  unfold run in *. simpl.
  unfold runThread at 2. destruct (threads c !! i) as [t |] eqn:Hi; [| apply IH].
  destruct (stepThread (metrics c) (locked c) t) as [[[g' l'] t'] |] eqn:Hst;
    [| apply IH].
  eapply rtc_l; [| apply IH]. econstructor; eassumption.
Qed.

(** A run is never stuck: as long as some goroutine has not finished,
    some goroutine can run. *)
Lemma invariant_progress (N : nat) (c : config) :
  invariant N c ->
  Forall (fun t => finished t = true) (threads c) \/ exists c', step c c'.
Proof.
  intros (_ & _ & (h & Hl & Hvalid & Hh) & _).
  destruct h as [i |].
  - right. destruct (Hvalid i eq_refl) as [t Hi].
    pose proof (proj2 (Hh i t Hi) eq_refl) as Hin.
    destruct t as [m cost [] | [] s]; simpl in Hin; try discriminate;
      eexists; (eapply step_thread; [exact Hi | reflexivity]).
  - destruct (decide (Forall (fun t => finished t = true) (threads c))) as [Hall | Hex];
      [left; exact Hall | right].
    apply not_Forall_Exists in Hex; [| apply _].
    apply Exists_exists in Hex as (t & Ht & Hnot). cbn in Hnot.
    apply list_elem_of_lookup_1 in Ht as [i Hi].
    pose proof (Hh i t Hi) as Hiff.
    assert (Hout : holding t = false).
    { destruct (holding t); [| reflexivity]. destruct Hiff as [Hiff _].
      specialize (Hiff eq_refl). discriminate. }
    destruct t as [m cost [] | [] s]; simpl in Hout, Hnot; try discriminate;
      try (exfalso; apply Hnot; reflexivity);
      eexists; (eapply step_thread; [exact Hi | simpl; rewrite Hl; reflexivity]).
Qed.

Lemma sum_list_with_le {A : Type} (f g : A -> nat) (l : list A) :
  (forall t, (f t <= g t)%nat) -> (sum_list_with f l <= sum_list_with g l)%nat.
Proof.
  intros H. induction l as [| a l IH]; simpl; [lia |]. specialize (H a). lia.
Qed.

Lemma tallied_le_isRecorder (t : thread) : (tallied t <= isRecorder t)%nat.
Proof. destruct t as [m c [] | [] s]; simpl; lia. Qed.

(** What one statement does to the map of counts. *)
Lemma stepThread_map (g g' : LLMUsageMetrics) (l l' : bool) (t t' : thread) :
  stepThread g l t = Some (g', l', t') ->
  (tallied t' = tallied t /\ ModelUsage g' = ModelUsage g) \/
  (tallied t' = S (tallied t) /\
   exists m, ModelUsage g'
             = <[m := GoInt.add (usage (ModelUsage g) m) 1]> (ModelUsage g)).
Proof.
  intros Hst. step_cases t Hst; injection Hst as <- <- <-; simpl;
    try (left; split; reflexivity).
  right. split; [reflexivity |]. eexists. reflexivity.
Qed.

Lemma exactInvariant_start (jobs : list (string * spec_float)) (reporters : nat) :
  exactInvariant (length jobs) (start jobs reporters).
Proof.
  pose proof (start_threads jobs reporters) as Hth.
  unfold exactInvariant. split; [| split].
  - unfold start, initialMetrics, seedModelUsage. cbn [metrics ModelUsage globalMetrics0].
    apply map_Forall_insert_2; [lia |]. apply map_Forall_insert_2; [lia |].
    apply map_Forall_empty.
  - rewrite sum_list_with_zero; [vm_compute; reflexivity |].
    intros t Ht. destruct (Hth t Ht) as [(m & c & ->) | ->]; reflexivity.
  - intros i t s Hi Hs. apply list_elem_of_lookup_2, Hth in Hi.
    destruct Hi as [(m & c & ->) | ->]; discriminate.
Qed.

Lemma exactInvariant_step (N : nat) (c c' : config) :
  Z.of_nat N <= GoInt.maxInt ->
  invariant N c -> exactInvariant N c -> step c c' -> exactInvariant N c'.
Proof.
  intros HN (_ & _ & _ & _ & _ & I6) (E1 & E2 & E3) Hstep.
  destruct Hstep as [c i t t' g' l' Hi Hst].
  unfold exactInvariant. cbn [metrics threads].
  pose proof (sum_list_with_insert tallied _ i t t' Hi) as Hsum.
  pose proof (sum_list_with_insert isRecorder _ i t t' Hi) as Hrec.
  rewrite (stepThread_kind _ _ _ _ _ _ Hst) in Hrec.
  pose proof (sum_list_with_le tallied isRecorder (<[i := t']> (threads c))
                tallied_le_isRecorder) as Hle.
  pose proof (sum_list_with_le tallied isRecorder (threads c) tallied_le_isRecorder)
    as Hle0.
  assert (Hmap : map_Forall (fun _ v => 0 <= v) (ModelUsage g') /\
                 exactModelUsage (ModelUsage g')
                 = Z.of_nat (sum_list_with tallied (<[i := t']> (threads c)))).
  { destruct (stepThread_map _ _ _ _ _ _ Hst) as [[Ht Hm] | (Ht & m & Hm)]; rewrite Hm.
    - split; [exact E1 |]. rewrite E2. f_equal. lia.
    - destruct (exactModelUsage_inc (ModelUsage (metrics c)) m E1 ltac:(lia))
        as [Hall Hinc].
      split; [exact Hall |]. rewrite Hinc, E2. lia. }
  destruct Hmap as [Hall Hexact]. split; [exact Hall |]. split; [exact Hexact |].
  intros j tj s Hj Hs.
  destruct (lookup_updated _ _ _ _ _ _ Hi Hj) as [[-> ->] | [Hne Hold]];
    [| exact (E3 j tj s Hold Hs)].
  step_cases t Hst; injection Hst as <- <- <-; simpl in Hs; try discriminate;
    injection Hs as <-.
  - cbn [ModelUsage]. split; [exact E1 |]. rewrite E2. lia.
  - exact (E3 i _ _ Hi eq_refl).
Qed.

Lemma exactInvariant_steps (N : nat) (c c' : config) :
  Z.of_nat N <= GoInt.maxInt ->
  invariant N c -> exactInvariant N c -> steps c c' -> exactInvariant N c'.
Proof.
  intros HN Hinv Hex Hsteps.
  induction Hsteps as [| c1 c2 c3 Hstep _ IH]; [exact Hex |].
  apply IH.
  - exact (invariant_step N c1 c2 Hinv Hstep).
  - exact (exactInvariant_step N c1 c2 HN Hinv Hex Hstep).
Qed.

(** C7. For every number of recording goroutines and every run of
    them, together with any number of reporting ones, from the metrics
    as [main] sets them up: once all recording goroutines have
    finished, [TotalRequests] and the sum of the per-model counts are
    both that number; whatever a reporting goroutine has read, at any
    point of the run, has [TotalRequests] equal to the sum of the
    per-model counts; and the run is not stuck before every goroutine
    has finished.  The sums are the ones Go computes and the exact
    ones alike. *)
Theorem concurrent_records_are_not_lost
    (jobs : list (string * spec_float)) (reporters : nat) (c : config) :
  Z.of_nat (length jobs) <= GoInt.maxInt ->
  steps (start jobs reporters) c ->
  (Forall (fun t => recorderDone t = true) (threads c) ->
     TotalRequests (metrics c) = Z.of_nat (length jobs) /\
     sumModelUsage (ModelUsage (metrics c)) = Z.of_nat (length jobs) /\
     exactModelUsage (ModelUsage (metrics c)) = Z.of_nat (length jobs)) /\
  (forall t s, t ∈ threads c -> snapshotOf t = Some s ->
     TotalRequests s = sumModelUsage (ModelUsage s) /\
     TotalRequests s = exactModelUsage (ModelUsage s)) /\
  (Forall (fun t => finished t = true) (threads c) \/ exists c', step c c').
Proof.
  intros HN Hrun.
  pose proof (invariant_steps _ _ _ (invariant_start jobs reporters) Hrun) as Hinv.
  pose proof (exactInvariant_steps _ _ _ HN (invariant_start jobs reporters)
                (exactInvariant_start jobs reporters) Hrun) as (E1 & E2 & E3).
  pose proof (invariant_progress _ _ Hinv) as Hprog.
  destruct Hinv as (I1 & I2 & _ & _ & I5 & I6).
  split; [| split; [| exact Hprog]].
  - intros Hdone. rewrite Forall_lookup in Hdone.
    assert (Hc : sum_list_with counted (threads c) = length jobs).
    { rewrite <- I6. apply sum_list_with_ext. intros i t Hi.
      apply (recorderDone_counted t (Hdone i t Hi)). }
    assert (Ht : sum_list_with tallied (threads c) = length jobs).
    { rewrite <- I6. apply sum_list_with_ext. intros i t Hi.
      apply (recorderDone_counted t (Hdone i t Hi)). }
    rewrite I1, I2, E2, Hc, Ht.
    rewrite wrap_small; [auto |].
    unfold GoInt.inRange, GoInt.minInt. lia.
  - intros t s Ht Hs. apply list_elem_of_lookup_1 in Ht as [i Hi].
    pose proof (I5 i t s Hi Hs) as Hsum. destruct (E3 i t s Hi Hs) as [Hall Hle].
    split; [exact Hsum |]. rewrite Hsum.
    apply sumModelUsage_exact; [exact Hall | lia].
Qed.

Lemma concurrent_records_are_not_lost_witness :
  let jobs := [("CheapModel", estimatedCost 2); ("ExpensiveModel", estimatedCost 200);
               ("CheapModel", estimatedCost 2)] in
  let c := run [0; 1; 3; 0; 2; 0; 0; 0; 3; 1; 3; 3; 3; 1; 2; 1; 1; 1; 1; 2; 2; 2; 2; 2]%nat
               (start jobs 1) in
  TotalRequests (metrics c) = 3 /\
  sumModelUsage (ModelUsage (metrics c)) = 3 /\
  exactModelUsage (ModelUsage (metrics c)) = 3.
Proof.
  intros jobs c.
  refine (proj1 (concurrent_records_are_not_lost jobs 1 c _ _) _).
  - vm_compute. discriminate.
  - apply run_steps.
  - vm_compute. repeat constructor.
Defined.

End ConcurrentFacts.

(** ** The paths of the handler *)

Section HandlerPaths.
Import Gateway Http.

Lemma method_not_post (r : Request) :
  Method r <> "POST" -> negb (String.eqb (Method r) MethodPost) = true.
Proof.
  intros H. unfold MethodPost.
  destruct (String.eqb_spec (Method r) "POST"); [contradiction | reflexivity].
Qed.

(** The handler on a request that is not a POST, and on one whose body
    cannot be read. *)
Lemma serve_rejected (world : World) (room : option nat) (g : LLMUsageMetrics)
    (r : Request) :
  Method r <> "POST" \/ (exists e, Body r = Err e) ->
  exists s,
    serve world room g r = (Some tt, s) /\
    status (w s) = (if String.eqb (Method r) "POST"
                    then StatusInternalServerError else StatusMethodNotAllowed) /\
    sent s = [] /\ logged s = [] /\ globalMetrics s = g.
Proof.
  intros H. unfold serve, LLMProxyHandler.
  destruct (String.eqb_spec (Method r) "POST") as [Hm | Hm].
  - destruct H as [H | [e He]]; [contradiction |].
    rewrite (method_post r Hm), He. unfold httpError. cbn [w].
    destruct (Error_new room "Failed to read request body" StatusInternalServerError)
      as (w1 & Hw & Hst & Hwr); [unfold StatusInternalServerError; lia | reflexivity |].
    rewrite Hw. eexists. split; [reflexivity |].
    cbn [sent globalMetrics logged setW w]. unfold finishRequest. rewrite Hwr. auto.
  - rewrite (method_not_post r Hm). unfold httpError. cbn [w].
    destruct (Error_new room "Method not allowed" StatusMethodNotAllowed)
      as (w1 & Hw & Hst & Hwr); [unfold StatusMethodNotAllowed; lia | reflexivity |].
    rewrite Hw. eexists. split; [reflexivity |].
    cbn [sent globalMetrics logged setW w]. unfold finishRequest. rewrite Hwr. auto.
Qed.


(** The handler on a body that the analyzer rejects. *)
Lemma serve_malformed (world : World) (room : option nat) (g : LLMUsageMetrics)
    (r : Request) (body : string) (e : error) :
  Method r = "POST" -> Body r = Ok body -> getPromptLength body = Err e ->
  exists s, serve world room g r = (Some tt, s) /\ sent s = [] /\ globalMetrics s = g.
Proof.
  intros Hm Hb He. unfold serve, LLMProxyHandler. rewrite (method_post r Hm), Hb, He.
  unfold mbind, M_bind, bind, logPrintf, httpError. cbn [w].
  destruct (Error_new room
              "Invalid request format: must be a valid chat completion JSON payload"
              StatusBadRequest) as (w1 & Hw & Hst & Hwr);
    [unfold StatusBadRequest; lia | reflexivity |].
  rewrite Hw. eexists. split; [reflexivity |]. auto.
Qed.

(** The handler on a routed request whose upstream call fails. *)
Lemma serve_unanswered (world : World) (room : option nat) (g : LLMUsageMetrics)
    (r : Request) (body : string) (n : Z) (err : error) :
  Method r = "POST" -> Body r = Ok body -> getPromptLength body = Ok n ->
  Do world (upstreamRequest world r body n) = Err err ->
  exists s, serve world room g r = (Some tt, s) /\ status (w s) = StatusBadGateway /\
            globalMetrics s = g.
Proof.
  intros Hm Hb Hn Hdo. unfold serve.
  rewrite (handler_routed world r body n _ Hm Hb Hn). cbv zeta.
  cbn [w globalMetrics logged sent app]. rewrite Hdo.
  unfold mbind, M_bind, bind, logPrintf, httpError. cbn [w].
  destruct (Error_new room
              (String.append "Error connecting to "
                 (String.append (modelName (route n)) " endpoint"))
              StatusBadGateway) as (w1 & Hw & Hst & Hwr);
    [unfold StatusBadGateway; lia | reflexivity |].
  rewrite Hw. eexists. split; [reflexivity |].
  cbn [sent globalMetrics setW w]. unfold finishRequest. rewrite Hwr. auto.
Qed.

(** The handler on a routed request whose answer carries a status code
    that the response writer refuses. *)
Lemma serve_invalid_status (world : World) (room : option nat) (g : LLMUsageMetrics)
    (r : Request) (body : string) (n : Z) (resp : Response) :
  Method r = "POST" -> Body r = Ok body -> getPromptLength body = Ok n ->
  Do world (upstreamRequest world r body n) = Ok resp ->
  ~ 100 <= StatusCode resp <= 999 ->
  fst (serve world room g r) = None /\
  globalMetrics (snd (serve world room g r)) = g /\
  wroteHeader (w (snd (serve world room g r))) = false.
Proof.
  intros Hm Hb Hn Hdo Hcode. unfold serve.
  rewrite (handler_routed world r body n _ Hm Hb Hn). cbv zeta.
  cbn [w globalMetrics logged sent app]. rewrite Hdo.
  unfold mbind, M_bind, bind, writeHeader, WriteHeader. cbn [w wroteHeader newResponseWriter].
  destruct (Z.ltb_spec (StatusCode resp) 100); cbn [orb]; [auto |].
  destruct (Z.ltb_spec 999 (StatusCode resp)); [auto | lia].
Qed.

(** X1. Requests that are not POST are answered 405 and POST requests
    whose body cannot be read are answered 500; in both cases the
    handler returns normally, logs nothing, sends nothing upstream and
    leaves the metrics as they were. *)
Theorem rejected_requests_have_no_effect
    (world : World) (room : option nat) (g : LLMUsageMetrics) (r : Request) :
  Method r <> "POST" \/ (exists e, Body r = Err e) ->
  exists s,
    serve world room g r = (Some tt, s) /\
    status (w s) = (if String.eqb (Method r) "POST" then 500 else 405) /\
    sent s = [] /\ logged s = [] /\ globalMetrics s = g.
Proof. apply serve_rejected. Qed.

Lemma rejected_requests_have_no_effect_witness :
  (exists s,
     serve (Examples.answering 200 false) None initialMetrics
       {| Method := "GET"; URL := "/v1/chat/completions"; Header := ∅;
          Body := Ok Examples.shortPrompt; RemoteAddr := "127.0.0.1:50000" |}
     = (Some tt, s) /\
     status (w s) = 405 /\ sent s = [] /\ logged s = [] /\ globalMetrics s = initialMetrics) /\
  (exists s,
     serve (Examples.answering 200 false) None initialMetrics
       {| Method := "POST"; URL := "/v1/chat/completions"; Header := ∅;
          Body := Err ReadError; RemoteAddr := "127.0.0.1:50000" |}
     = (Some tt, s) /\
     status (w s) = 500 /\ sent s = [] /\ logged s = [] /\ globalMetrics s = initialMetrics).
Proof.
  split.
  - refine (rejected_requests_have_no_effect _ None initialMetrics
              {| Method := "GET"; URL := "/v1/chat/completions"; Header := ∅;
                 Body := Ok Examples.shortPrompt; RemoteAddr := "127.0.0.1:50000" |} _).
    left. simpl. discriminate.
  - refine (rejected_requests_have_no_effect _ None initialMetrics
              {| Method := "POST"; URL := "/v1/chat/completions"; Header := ∅;
                 Body := Err ReadError; RemoteAddr := "127.0.0.1:50000" |} _).
    right. exists ReadError. reflexivity.
Defined.

(** X2. The handler panics exactly when the request was routed and
    the upstream answered with a status code below 100 or above 999;
    on every other path it returns. *)
Theorem handler_panics_exactly_on_invalid_status
    (world : World) (room : option nat) (g : LLMUsageMetrics) (r : Request) :
  fst (serve world room g r) = None <->
  exists body n resp,
    Method r = "POST" /\ Body r = Ok body /\ getPromptLength body = Ok n /\
    Do world (upstreamRequest world r body n) = Ok resp /\
    (StatusCode resp < 100 \/ 999 < StatusCode resp).
Proof.
  split.
  - intros Hp.
    destruct (String.eqb_spec (Method r) "POST") as [Hm | Hm].
    2: { destruct (serve_rejected world room g r (or_introl Hm)) as (s & Hs & _).
         rewrite Hs in Hp. discriminate. }
    destruct (Body r) as [body | e] eqn:Hb.
    2: { destruct (serve_rejected world room g r (or_intror (ex_intro _ e Hb)))
           as (s & Hs & _).
         rewrite Hs in Hp. discriminate. }
    destruct (getPromptLength body) as [n | e] eqn:Hn.
    2: { destruct (serve_malformed world room g r body e Hm Hb Hn) as (s & Hs & _).
         rewrite Hs in Hp. discriminate. }
    destruct (Do world (upstreamRequest world r body n)) as [resp | err] eqn:Hdo.
    2: { destruct (serve_unanswered world room g r body n err Hm Hb Hn Hdo) as (s & Hs & _).
         rewrite Hs in Hp. discriminate. }
    exists body, n, resp. repeat (split; [reflexivity || assumption |]).
    destruct (Z_lt_dec (StatusCode resp) 100) as [| H1]; [auto |].
    destruct (Z_lt_dec 999 (StatusCode resp)) as [| H2]; [auto |].
    exfalso.
    assert (Hvalid : forall resp', Do world (upstreamRequest world r body n) = Ok resp' ->
                                   100 <= StatusCode resp' <= 999)
      by (intros resp' H; rewrite Hdo in H; injection H as <-; lia).
    revert Hp. unfold serve.
    rewrite (handler_routed world r body n _ Hm Hb Hn). cbv zeta.
    cbn [w globalMetrics logged sent app]. rewrite Hdo.
    match goal with
    | |- context [ (_ ;; _) ?s1 ] =>
      destruct (handler_answered resp (modelName (route n)) (estimatedCost n) s1
                  eq_refl (Hvalid resp Hdo)) as (s & Hrun & _)
    end.
    rewrite Hrun. discriminate.
  - intros (body & n & resp & Hm & Hb & Hn & Hdo & Hcode).
    apply (serve_invalid_status world room g r body n resp Hm Hb Hn Hdo). lia.
Qed.

End HandlerPaths.

(** ** What goes upstream and what comes back *)

Section UpstreamAndResponse.
Import Gateway Http.





Lemma append_nil_r (s : string) : String.append s EmptyString = s.
Proof.
  induction s as [| c s IH]; [reflexivity |].
  change (String c (String.append s EmptyString) = String c s). rewrite IH. reflexivity.
Qed.

Lemma substring_prefix (k : nat) (s : string) :
  exists rest, s = String.append (substring 0 k s) rest.
Proof.
  revert k. induction s as [| c s IH]; intros [| k].
  - exists EmptyString. reflexivity.
  - exists EmptyString. reflexivity.
  - exists (String c s). reflexivity.
  - destruct (IH k) as [rest Hr]. exists rest.
    change (String c s = String c (String.append (substring 0 k s) rest)).
    rewrite <- Hr. reflexivity.
Qed.

(** What [Write] adds to the body on the wire: a prefix of the data,
    and all of it on a connection that does not break when the status
    allows a body. *)
Lemma Write_wireBody (w0 : ResponseWriter) (data : string) :
  let w1 := fst (fst (Write w0 data)) in
  (exists out rest, data = String.append out rest /\
                    wireBody w1 = String.append (wireBody w0) out) /\
  (wroteHeader w0 = true -> connRoom w0 = None ->
   bodyAllowedForStatus (status w0) = true ->
   wireBody w1 = String.append (wireBody w0) data).
Proof.
  pose proof append_nil_r as Hnil. pose proof substring_prefix as Hsplit.
  unfold Write. split.
  - destruct (String.eqb_spec data EmptyString) as [-> | _].
    { exists EmptyString, EmptyString. split; [reflexivity |].
      destruct (wroteHeader w0); cbn [fst wireBody writeFinalHeader]; rewrite Hnil;
        reflexivity. }
    destruct (negb _).
    { exists EmptyString, data. split; [reflexivity |].
      destruct (wroteHeader w0); cbn [fst wireBody writeFinalHeader]; rewrite Hnil;
        reflexivity. }
    assert (Hw : wireBody (if wroteHeader w0 then w0 else writeFinalHeader w0 StatusOK)
                 = wireBody w0) by (destruct (wroteHeader w0); reflexivity).
    destruct (connRoom _) as [k |].
    + destruct (_ <=? k)%nat; cbn [fst wireBody sendBody]; rewrite Hw.
      * exists data, EmptyString. rewrite Hnil. auto.
      * destruct (Hsplit k data) as [rest Hr]. exists (substring 0 k data), rest. auto.
    + cbn [fst wireBody sendBody]. rewrite Hw.
      exists data, EmptyString. rewrite Hnil. auto.
  - intros Hwr Hroom Hallowed. rewrite Hwr.
    destruct (String.eqb_spec data EmptyString) as [-> | _].
    { cbn [fst]. rewrite Hnil. reflexivity. }
    rewrite Hallowed, Hroom. reflexivity.
Qed.

Lemma Copy_wireBody (w0 : ResponseWriter) (body : string) (breaks : bool) :
  let w1 := fst (fst (Copy w0 body breaks)) in
  (exists out rest, body = String.append out rest /\
                    wireBody w1 = String.append (wireBody w0) out) /\
  (wroteHeader w0 = true -> connRoom w0 = None ->
   bodyAllowedForStatus (status w0) = true ->
   wireBody w1 = String.append (wireBody w0) body).
Proof.
  pose proof append_nil_r as Hnil.
  unfold Copy. destruct (String.eqb_spec body EmptyString) as [-> | _].
  - cbn [fst]. split; [| intros; rewrite Hnil; reflexivity].
    exists EmptyString, EmptyString. rewrite Hnil. auto.
  - pose proof (Write_wireBody w0 body) as H.
    destruct (Write w0 body) as [[w1 k] [e |]]; exact H.
Qed.

(** X5. What the caller gets of an answer with a valid status code:
    the body on the wire is a prefix of the upstream body, nothing else
    is ever added; on a connection that does not break it is the whole
    upstream body, under the upstream status, whenever that status
    allows a body, also when the upstream stream breaks at its end. *)
Theorem response_body_is_passed_through
    (world : World) (room : option nat) (g : LLMUsageMetrics)
    (r : Request) (body : string) (n : Z) (resp : Response) :
  Method r = "POST" ->
  Body r = Ok body ->
  getPromptLength body = Ok n ->
  Do world (upstreamRequest world r body n) = Ok resp ->
  100 <= StatusCode resp <= 999 ->
  exists s,
    serve world room g r = (Some tt, s) /\
    (exists rest, ResponseBody resp = String.append (wireBody (w s)) rest) /\
    (room = None -> bodyAllowedForStatus (StatusCode resp) = true ->
     status (w s) = StatusCode resp /\ wireBody (w s) = ResponseBody resp).
Proof.
  intros Hm Hb Hn Hdo Hcode. unfold serve.
  rewrite (handler_routed world r body n _ Hm Hb Hn). cbv zeta.
  cbn [w globalMetrics logged sent app]. rewrite Hdo.
  unfold mbind, M_bind, bind, writeHeader, WriteHeader.
  cbn [w wroteHeader newResponseWriter].
  destruct (Z.ltb_spec (StatusCode resp) 100); [lia |].
  destruct (Z.ltb_spec 999 (StatusCode resp)); [lia |]. cbn [orb].
  unfold copyHeader, ioCopy.
  destruct (isInterim (StatusCode resp)) eqn:Hint; cbn [w setW].
  - match goal with
    | |- context [Copy ?w0 _ _] =>
      pose proof (Copy_wireBody w0 (ResponseBody resp) (BodyBreaks resp)) as [Hpre _];
      destruct (Copy w0 _ _) as [[w2 k] [e |]]
    end; cbn [fst snd] in *;
      unfold logPrintf, updateMetrics, ret; cbn [w globalMetrics logged sent setW];
      (eexists; split; [reflexivity |]); cbn [w setW];
      destruct Hpre as (out & rest & Hbody & Hwire);
      (split; [exists rest; unfold finishRequest; destruct (wroteHeader w2);
                 cbn [wireBody writeFinalHeader]; rewrite Hwire; exact Hbody |]);
      intros _ Hallowed; exfalso; revert Hint Hallowed;
      unfold isInterim, bodyAllowedForStatus;
      destruct ((100 <=? StatusCode resp) && (StatusCode resp <=? 199)); discriminate.
  - match goal with
    | |- context [Copy ?w0 _ _] =>
      pose proof (Copy_wireBody w0 (ResponseBody resp) (BodyBreaks resp)) as [Hpre Hfull];
      pose proof (Copy_after_header w0 (ResponseBody resp) (BodyBreaks resp) eq_refl)
        as (Hwr & Hst & _);
      destruct (Copy w0 _ _) as [[w2 k] [e |]]
    end; cbn [fst snd] in *;
      unfold logPrintf, updateMetrics, ret; cbn [w globalMetrics logged sent setW];
      (eexists; split; [reflexivity |]); cbn [w setW];
      unfold finishRequest; rewrite Hwr;
      destruct Hpre as (out & rest & Hbody & Hwire);
      (split; [exists rest; rewrite Hwire; exact Hbody |]);
      intros -> Hallowed; (split; [exact Hst |]);
      apply Hfull; auto.
Qed.

Lemma response_body_is_passed_through_witness :
  let world := Examples.answering 200 true in
  let r := Examples.request [] Examples.shortPrompt in
  exists s,
    serve world None initialMetrics r = (Some tt, s) /\
    (exists rest, ResponseBody (Examples.answer 200 true)
                  = String.append (wireBody (w s)) rest) /\
    (@None nat = None -> bodyAllowedForStatus (StatusCode (Examples.answer 200 true)) = true ->
     status (w s) = StatusCode (Examples.answer 200 true) /\
     wireBody (w s) = ResponseBody (Examples.answer 200 true)).
Proof.
  intros world r.
  refine (response_body_is_passed_through world None initialMetrics r
            Examples.shortPrompt 2 (Examples.answer 200 true) _ _ _ _ _).
  - reflexivity.
  - reflexivity.
  - vm_compute. reflexivity.
  - reflexivity.
  - simpl. lia.
Defined.

End UpstreamAndResponse.

(** ** The metrics report, and the earlier variant of the handler *)

Section Reporter.
Import Gateway Http.




End Reporter.

Section EarlyVariant.
Import Gateway Http.







(** The loop of the earlier variant is the exact sum of all content
    lengths as long as that sum fits an [int]. *)
Lemma allLoop_exact (msgs : list Message) (start : Z) :
  0 <= start ->
  start + EarlyGateway.contentSum msgs <= GoInt.maxInt ->
  fold_left (fun total msg => GoInt.add total (GoInt.len (Content msg))) msgs start
  = start + EarlyGateway.contentSum msgs.
Proof.
  revert start. induction msgs as [| m msgs IH]; intros start Hs Hfit.
  - unfold EarlyGateway.contentSum. simpl. lia.
  - unfold EarlyGateway.contentSum in *. simpl in *.
    assert (Hr : 0 <= fold_right Z.add 0 (map (fun m => GoInt.len (Content m)) msgs)).
    { clear. induction msgs as [| m msgs IH]; simpl; [lia |].
      pose proof (len_nonneg (Content m)). lia. }
    pose proof (len_nonneg (Content m)) as Hl.
    unfold GoInt.add. rewrite wrap_small.
    + rewrite IH; lia.
    + unfold GoInt.inRange, GoInt.minInt, GoInt.maxInt in *. lia.
Qed.

Lemma userSum_le_contentSum (msgs : list Message) :
  Spec.userSum msgs <= EarlyGateway.contentSum msgs.
Proof.
  unfold Spec.userSum, EarlyGateway.contentSum.
  induction msgs as [| m msgs IH]; simpl; [lia |].
  pose proof (len_nonneg (Content m)).
  destruct (String.eqb (Role m) "user"); simpl; lia.
Qed.

(** X9. The earlier variant counts the contents of all messages, the
    canonical one those of the user messages only: when the total fits
    an [int], a body that the canonical variant sends to the expensive
    model is sent there by the earlier variant too. *)
Theorem canonical_expensive_implies_early_expensive
    (body : string) (payload : RequestPayload) (n : Z) :
  json_Unmarshal body = Ok payload ->
  EarlyGateway.contentSum (Messages payload) <= GoInt.maxInt ->
  getPromptLength body = Ok n ->
  modelName (route n) = "ExpensiveModel" ->
  fst (Early.analyzePrompt body) = (Early.expensiveModelURL, "ExpensiveModel").
Proof.
  intros Hdec Hfit Hn Hexp.
  rewrite (getPromptLength_ok body payload Hdec) in Hn. injection Hn as <-.
  pose proof (userSum_le_contentSum (Messages payload)) as Hle.
  pose proof (userSum_nonneg (Messages payload)) as Hnn.
  rewrite userLoop_exact in Hexp by lia.
  unfold Early.analyzePrompt. rewrite Hdec. rewrite allLoop_exact by lia.
  unfold route, promptLengthThreshold in Hexp. unfold Early.complexityThreshold.
  rewrite Z.gtb_ltb.
  destruct (Z.leb_spec (0 + Spec.userSum (Messages payload)) 150); [discriminate |].
  destruct (Z.ltb_spec 150 (0 + EarlyGateway.contentSum (Messages payload))); [reflexivity | lia].
Qed.

Lemma canonical_expensive_implies_early_expensive_witness :
  fst (Early.analyzePrompt (Examples.promptOfLength 151))
  = (Early.expensiveModelURL, "ExpensiveModel").
Proof.
  refine (canonical_expensive_implies_early_expensive (Examples.promptOfLength 151)
            {| Messages := [ {| Role := "user";
                                Content := string_of_list_ascii (repeat "a"%char 151) |} ] |}
            151 _ _ _ _).
  - vm_compute. reflexivity.
  - vm_compute. discriminate.
  - vm_compute. reflexivity.
  - vm_compute. reflexivity.
Defined.

(** X10. The earlier variant answers like the canonical one: for an
    answer with a final status code, the caller gets that status and,
    of the body, what the connection takes, all of it on a connection
    that does not break when the status allows a body; the headers of
    the answer are assigned to the map of the writer after the header
    was written, so none of them is sent. *)
Theorem early_variant_mirrors_status_and_body
    (world : World) (room : option nat) (r : Request) (body : string) (resp : Response) :
  Method r = "POST" ->
  Body r = Ok body ->
  Do world (EarlyGateway.upstreamRequest world r body) = Ok resp ->
  100 <= StatusCode resp <= 999 ->
  isInterim (StatusCode resp) = false ->
  exists s,
    EarlyGateway.serve world room r = (Some tt, s) /\
    status (EarlyGateway.w s) = StatusCode resp /\
    wireHeader (EarlyGateway.w s) = ∅ /\
    handlerHeader (EarlyGateway.w s) = rangeAssign (ResponseHeader resp) ∅ /\
    (exists rest, ResponseBody resp = String.append (wireBody (EarlyGateway.w s)) rest) /\
    (room = None -> bodyAllowedForStatus (StatusCode resp) = true ->
     wireBody (EarlyGateway.w s) = ResponseBody resp).
Proof.
  intros Hm Hb Hdo Hcode Hfinal.
  unfold EarlyGateway.serve, EarlyGateway.LLMProxyHandler.
  unfold EarlyGateway.upstreamRequest in Hdo.
  rewrite (method_post r Hm), Hb.
  destruct (Early.analyzePrompt body) as [[target model] warnings]. cbn [fst] in Hdo.
  unfold mbind, EarlyGateway.M_bind, EarlyGateway.bind, EarlyGateway.logPrintf,
    EarlyGateway.logAll, EarlyGateway.clientDo.
  cbn [EarlyGateway.w EarlyGateway.logged EarlyGateway.sent app]. rewrite Hdo.
  unfold EarlyGateway.writeHeader, WriteHeader.
  cbn [EarlyGateway.w wroteHeader newResponseWriter].
  destruct (Z.ltb_spec (StatusCode resp) 100); [lia |].
  destruct (Z.ltb_spec 999 (StatusCode resp)); [lia |]. cbn [orb]. rewrite Hfinal.
  unfold EarlyGateway.copyHeader, EarlyGateway.ioCopy.
  cbn [EarlyGateway.w EarlyGateway.setW].
  match goal with
  | |- context [Copy ?w0 _ _] =>
    pose proof (Copy_wireBody w0 (ResponseBody resp) (BodyBreaks resp)) as [Hpre Hfull];
    pose proof (Copy_after_header w0 (ResponseBody resp) (BodyBreaks resp) eq_refl)
      as (Hwr & Hst & Hwire & Hhandler);
    destruct (Copy w0 _ _) as [[w2 k] [e |]]
  end; cbn [fst snd] in *;
    unfold EarlyGateway.logPrintf, EarlyGateway.ret;
    cbn [EarlyGateway.w EarlyGateway.logged EarlyGateway.sent EarlyGateway.setW];
    (eexists; split; [reflexivity |]); cbn [EarlyGateway.w EarlyGateway.setW];
    unfold finishRequest; rewrite Hwr;
    destruct Hpre as (out & rest & Hbody & Hout);
    (split; [exact Hst |]); (split; [exact Hwire |]); (split; [exact Hhandler |]);
    (split; [exists rest; rewrite Hout; exact Hbody |]);
    intros -> Hallowed; apply Hfull; auto.
Qed.

Lemma early_variant_mirrors_status_and_body_witness :
  let world := Examples.answering 404 false in
  let r := Examples.request [] Examples.shortPrompt in
  let resp := Examples.answer 404 false in
  exists s,
    EarlyGateway.serve world None r = (Some tt, s) /\
    status (EarlyGateway.w s) = StatusCode resp /\
    wireHeader (EarlyGateway.w s) = ∅ /\
    handlerHeader (EarlyGateway.w s) = rangeAssign (ResponseHeader resp) ∅ /\
    (exists rest, ResponseBody resp = String.append (wireBody (EarlyGateway.w s)) rest) /\
    (@None nat = None -> bodyAllowedForStatus (StatusCode resp) = true ->
     wireBody (EarlyGateway.w s) = ResponseBody resp).
Proof.
  intros world r resp.
  refine (early_variant_mirrors_status_and_body world None r Examples.shortPrompt resp
            _ _ _ _ _).
  - reflexivity.
  - reflexivity.
  - reflexivity.
  - simpl. lia.
  - reflexivity.
Defined.

End EarlyVariant.

(** ** The status of the answer, and the last log line *)

Section StatusAndLog.
Import Gateway Http.

(** The status of the answer on a body that the analyzer rejects. *)
Lemma serve_malformed_status (world : World) (room : option nat) (g : LLMUsageMetrics)
    (r : Request) (body : string) (e : error) :
  Method r = "POST" -> Body r = Ok body -> getPromptLength body = Err e ->
  exists s, serve world room g r = (Some tt, s) /\ status (w s) = StatusBadRequest.
Proof.
  intros Hm Hb He. unfold serve, LLMProxyHandler. rewrite (method_post r Hm), Hb, He.
  unfold mbind, M_bind, bind, logPrintf, httpError. cbn [w].
  destruct (Error_new room
              "Invalid request format: must be a valid chat completion JSON payload"
              StatusBadRequest) as (w1 & Hw & Hst & Hwr);
    [unfold StatusBadRequest; lia | reflexivity |].
  rewrite Hw. eexists. split; [reflexivity |].
  cbn [w setW]. unfold finishRequest. rewrite Hwr. exact Hst.
Qed.

(** After an interim status the header is still to be written. *)
Lemma Copy_implicit_status (w0 : ResponseWriter) (body : string) (breaks : bool) :
  wroteHeader w0 = false ->
  status (finishRequest (fst (fst (Copy w0 body breaks)))) = StatusOK.
Proof.
  intros Hw. unfold Copy.
  destruct (String.eqb body EmptyString).
  - cbn [fst]. unfold finishRequest. rewrite Hw. reflexivity.
  - assert (H : wroteHeader (fst (fst (Write w0 body))) = true /\
               status (fst (fst (Write w0 body))) = StatusOK).
    { unfold Write. rewrite Hw.
      destruct (String.eqb body EmptyString); [split; reflexivity |].
      cbn [status writeFinalHeader bodyAllowedForStatus]. cbn.
      destruct (connRoom w0) as [k |]; [| split; reflexivity].
      destruct (_ <=? k)%nat; split; reflexivity. }
    destruct (Write w0 body) as [[w1 k] [e |]]; cbn [fst] in *;
      unfold finishRequest; destruct H as [-> ->]; reflexivity.
Qed.

(** X11. The status of every answer the handler gives: 405 for a
    request that is not a POST, 500 for a body that cannot be read,
    400 for a body that the analyzer rejects, 502 when the upstream
    call fails, and otherwise the status of the upstream answer, or 200
    after an interim one. *)
Theorem response_status_by_path
    (world : World) (room : option nat) (g : LLMUsageMetrics) (r : Request) :
  fst (serve world room g r) = Some tt ->
  status (w (snd (serve world room g r))) =
  if negb (String.eqb (Method r) "POST") then 405
  else
    match Body r with
    | Err _ => 500
    | Ok body =>
      match getPromptLength body with
      | Err _ => 400
      | Ok n =>
        match Do world (upstreamRequest world r body n) with
        | Err _ => 502
        | Ok resp => if isInterim (StatusCode resp) then 200 else StatusCode resp
        end
      end
    end.
Proof.
  intros Hret.
  destruct (String.eqb_spec (Method r) "POST") as [Hm | Hm]; cbn [negb].
  2: { destruct (serve_rejected world room g r (or_introl Hm)) as (s & Hs & Hst & _).
       rewrite Hs. cbn [snd]. rewrite Hst.
       destruct (String.eqb_spec (Method r) "POST"); [contradiction | reflexivity]. }
  destruct (Body r) as [body | e] eqn:Hb.
  2: { destruct (serve_rejected world room g r (or_intror (ex_intro _ e Hb)))
         as (s & Hs & Hst & _).
       rewrite Hs. cbn [snd]. rewrite Hst, Hm. reflexivity. }
  destruct (getPromptLength body) as [n | e] eqn:Hn.
  2: { destruct (serve_malformed_status world room g r body e Hm Hb Hn) as (s & Hs & Hst).
       rewrite Hs. exact Hst. }
  destruct (Do world (upstreamRequest world r body n)) as [resp | err] eqn:Hdo.
  2: { destruct (serve_unanswered world room g r body n err Hm Hb Hn Hdo)
         as (s & Hs & Hst & _).
       rewrite Hs. exact Hst. }
  assert (Hcode : 100 <= StatusCode resp <= 999).
  { destruct (Z_le_dec 100 (StatusCode resp)) as [H1 |];
      [destruct (Z_le_dec (StatusCode resp) 999) as [H2 |]; [lia |] |];
      (destruct (serve_invalid_status world room g r body n resp Hm Hb Hn Hdo) as [Hp _];
       [lia | rewrite Hp in Hret; discriminate]). }
  destruct (isInterim (StatusCode resp)) eqn:Hint.
  - clear Hret. unfold serve.
    rewrite (handler_routed world r body n _ Hm Hb Hn). cbv zeta.
    cbn [w globalMetrics logged sent app]. rewrite Hdo.
    unfold mbind, M_bind, bind, writeHeader, WriteHeader.
    cbn [w wroteHeader newResponseWriter].
    destruct (Z.ltb_spec (StatusCode resp) 100); [lia |].
    destruct (Z.ltb_spec 999 (StatusCode resp)); [lia |]. cbn [orb]. rewrite Hint.
    unfold copyHeader, ioCopy. cbn [w setW].
    match goal with
    | |- context [Copy ?w0 _ _] =>
      pose proof (Copy_implicit_status w0 (ResponseBody resp) (BodyBreaks resp) eq_refl)
        as Hst;
      destruct (Copy w0 _ _) as [[w2 k] [e |]]
    end; cbn [fst snd] in *; exact Hst.
  - destruct (answered_wire_header world room g r body n resp Hm Hb Hn Hdo Hcode Hint)
      as (s & Hs & Hst & _).
    rewrite Hs. exact Hst.
Qed.

Lemma response_status_by_path_witness :
  status (w (snd (serve Examples.unreachable None initialMetrics
                    (Examples.request [] Examples.shortPrompt)))) = 502.
Proof.
  refine (response_status_by_path Examples.unreachable None initialMetrics
            (Examples.request [] Examples.shortPrompt) _).
  vm_compute. reflexivity.
Defined.






End StatusAndLog.

(** ** The prompt length as a sum, and the map of counts *)

Section AnalyzerSums.
Import Gateway Spec.

Lemma userLoop_wrap (msgs : list Message) (start : Z) :
  GoInt.wrap (userLoop msgs start) = GoInt.wrap (start + userSum msgs).
Proof.
  revert start. induction msgs as [| m msgs IH]; intros start.
  - unfold userLoop, userSum. simpl. f_equal. lia.
  - unfold userLoop, userSum in *. simpl.
    destruct (String.eqb (Role m) "user"); simpl.
    + rewrite IH. unfold GoInt.add. rewrite wrap_add_l. f_equal. lia.
    + apply IH.
Qed.

Lemma userLoop_inRange (msgs : list Message) (start : Z) :
  GoInt.inRange start -> GoInt.inRange (userLoop msgs start).
Proof.
  revert start. induction msgs as [| m msgs IH]; intros start Hs; [exact Hs |].
  unfold userLoop in *. simpl.
  destruct (String.eqb (Role m) "user"); apply IH; [apply wrap_inRange | exact Hs].
Qed.

Lemma userLoop_modular (msgs : list Message) :
  userLoop msgs 0 = GoInt.wrap (userSum msgs).
Proof.
  rewrite <- (wrap_small (userLoop msgs 0)).
  - rewrite userLoop_wrap. f_equal.
  - apply userLoop_inRange. unfold GoInt.inRange, GoInt.minInt, GoInt.maxInt. lia.
Qed.

(** X13. With no assumption on sizes: for every body that decodes,
    the prompt length is the sum of the byte lengths of the user
    contents reduced to the range of [int] as [+=] does it; the loop
    loses nothing but multiples of 2^64. *)
Theorem prompt_length_is_the_sum_modulo_int (body : string) (payload : RequestPayload) :
  json_Unmarshal body = Ok payload ->
  getPromptLength body = Ok (GoInt.wrap (userContentLength payload)) /\
  GoInt.inRange (GoInt.wrap (userContentLength payload)).
Proof.
  intros Hdec. split; [| apply wrap_inRange].
  rewrite (getPromptLength_ok body payload Hdec). f_equal. apply userLoop_modular.
Qed.

Lemma prompt_length_is_the_sum_modulo_int_witness :
  let body := js "{'messages':[{'role':'user','content':'hi'},{'role':'tool','content':'x'}]}" in
  let payload := {| Messages := [ {| Role := "user"; Content := "hi" |};
                                  {| Role := "tool"; Content := "x" |} ] |} in
  getPromptLength body = Ok (GoInt.wrap (userContentLength payload)) /\
  GoInt.inRange (GoInt.wrap (userContentLength payload)).
Proof.
  intros body payload.
  refine (prompt_length_is_the_sum_modulo_int body payload _).
  vm_compute. reflexivity.
Defined.

Lemma sum_permutation (l1 l2 : list Z) :
  Permutation l1 l2 -> fold_right Z.add 0 l1 = fold_right Z.add 0 l2.
Proof. intros H. induction H; simpl; lia. Qed.

(** X14. The prompt length depends on the user messages only, and not
    on their order: two bodies whose decoded user messages are the
    same up to order, with whatever other messages in between, have
    the same prompt length. *)
Theorem prompt_length_ignores_order_and_other_roles
    (body1 body2 : string) (payload1 payload2 : RequestPayload) :
  json_Unmarshal body1 = Ok payload1 ->
  json_Unmarshal body2 = Ok payload2 ->
  Permutation (List.filter (fun m => String.eqb (Role m) "user") (Messages payload1))
              (List.filter (fun m => String.eqb (Role m) "user") (Messages payload2)) ->
  getPromptLength body1 = getPromptLength body2.
Proof.
  intros H1 H2 Hperm.
  rewrite (getPromptLength_ok body1 payload1 H1), (getPromptLength_ok body2 payload2 H2).
  rewrite !userLoop_modular. do 2 f_equal. unfold userSum.
  apply sum_permutation, Permutation_map, Hperm.
Qed.

Lemma prompt_length_ignores_order_and_other_roles_witness :
  getPromptLength
    (js "{'messages':[{'role':'user','content':'hi'},{'role':'system','content':'be brief'},{'role':'user','content':'there'}]}")
  = getPromptLength
      (js "{'messages':[{'role':'user','content':'there'},{'role':'user','content':'hi'}]}").
Proof.
  refine (prompt_length_ignores_order_and_other_roles _ _
            {| Messages := [ {| Role := "user"; Content := "hi" |};
                             {| Role := "system"; Content := "be brief" |};
                             {| Role := "user"; Content := "there" |} ] |}
            {| Messages := [ {| Role := "user"; Content := "there" |};
                             {| Role := "user"; Content := "hi" |} ] |} _ _ _).
  - vm_compute. reflexivity.
  - vm_compute. reflexivity.
  - simpl. apply perm_swap.
Defined.

End AnalyzerSums.

Section MetricsMap.
Import Gateway.

Lemma route_model (n : Z) :
  modelName (route n) = "CheapModel" \/ modelName (route n) = "ExpensiveModel".
Proof. unfold route. destruct (n <=? promptLengthThreshold); simpl; auto. Qed.

(** X15. The per-model counts always have exactly the two keys that
    [main] sets up: the handler never adds a key and never removes
    one. *)
Theorem model_usage_has_both_labels (k : nat) (g : LLMUsageMetrics) :
  reachable k g ->
  forall key : string,
    is_Some (ModelUsage g !! key) <-> key = "CheapModel" \/ key = "ExpensiveModel".
Proof.
  intros H. induction H as [| k g n _ IH _]; intros key.
  - unfold initialMetrics, seedModelUsage, globalMetrics0. cbn [ModelUsage].
    rewrite !lookup_insert_is_Some, lookup_empty, is_Some_alt. intuition congruence.
  - unfold record, incModelUsage, addTotalCost, incTotalRequests. cbn [ModelUsage].
    rewrite lookup_insert_is_Some, IH.
    destruct (route_model n) as [-> | ->]; intuition congruence.
Qed.

Lemma model_usage_has_both_labels_witness :
  is_Some (ModelUsage (record (modelName (route 200)) (estimatedCost 200) initialMetrics)
             !! "gpt-4")
  <-> "gpt-4" = "CheapModel" \/ "gpt-4" = "ExpensiveModel".
Proof.
  refine (model_usage_has_both_labels 1 _ _ "gpt-4").
  apply reach_record; [apply reach_initial | lia].
Defined.

(** X16. Two updates commute on the counters: the number of requests
    and the per-model counts do not depend on the order in which two
    requests are recorded. *)
Theorem recorded_counts_do_not_depend_on_order
    (m1 m2 : string) (c1 c2 : spec_float) (g : LLMUsageMetrics) :
  TotalRequests (record m1 c1 (record m2 c2 g))
  = TotalRequests (record m2 c2 (record m1 c1 g)) /\
  ModelUsage (record m1 c1 (record m2 c2 g))
  = ModelUsage (record m2 c2 (record m1 c1 g)).
Proof.
  unfold record, incModelUsage, addTotalCost, incTotalRequests, usage.
  cbn [TotalRequests ModelUsage]. split; [reflexivity |].
  destruct (decide (m1 = m2)) as [-> | Hne]; [reflexivity |].
  rewrite !lookup_insert_ne by congruence.
  apply insert_insert_ne. congruence.
Qed.

(** The accrued cost does depend on the order: [float64] addition is
    not associative. *)
Example total_cost_depends_on_order :
  let g := {| TotalRequests := 0; TotalCost := Float64.ofInt (2 ^ 53); ModelUsage := ∅ |} in
  TotalCost (record "CheapModel" (Float64.ofInt 1) (record "CheapModel" (Float64.ofInt 2) g))
  <> TotalCost (record "CheapModel" (Float64.ofInt 2) (record "CheapModel" (Float64.ofInt 1) g)).
Proof. vm_compute. discriminate. Qed.

End MetricsMap.

(** ** The range of the estimated cost *)

Section RoundingRange.
Variables prec emax : Z.
Hypothesis Hprec : 0 < prec.

Abbreviation emin := (emin prec emax).
Abbreviation fexp := (fexp prec emax).

(** Rounding raises the exponent by one at most, and it does not
    overflow below the largest exponent. *)
Lemma round_aux_exponent (m : positive) (e : Z) :
  let e1 := fexp (Zpos (digits2_pos m) + e) in
  e <= e1 ->
  e1 + 1 <= emax - prec ->
  match binary_round_aux prec emax false (Zpos m) e loc_Exact with
  | S754_infinity _ => False
  | S754_finite _ _ e2 => e2 <= e1 + 1
  | _ => True
  end.
Proof.
  intros e1 He Hfit. unfold binary_round_aux, shr_fexp.
  change (Zdigits2 (Zpos m)) with (Zpos (digits2_pos m)). fold e1.
  set (n := e1 - e). assert (Hn : 0 <= n) by (unfold n; lia).
  pose proof (shr_spec (shr_record_of_loc (Zpos m) loc_Exact) e n ltac:(simpl; lia) Hn)
    as [Hm' He'].
  destruct (shr (shr_record_of_loc (Zpos m) loc_Exact) e n) as [mrs' e'].
  cbn [fst snd] in Hm', He'. simpl shr_m in Hm'.
  replace e' with e1 in * by (unfold n in He'; lia). clear He'.
  pose proof (digits_bounds m) as [Hdl Hdu].
  set (d := Zpos (digits2_pos m)) in *.
  assert (Hd : 0 < d) by (unfold d; lia).
  pose proof (fexp_ge_emin prec emax (d + e)) as Hemin. fold e1 in Hemin.
  assert (He1 : d + e - prec <= e1) by (unfold e1, SpecFloat.fexp; lia).
  pose proof (pow2_pos n Hn) as Hpn.
  set (m' := shr_m mrs') in *.
  assert (F0 : 0 <= m') by (rewrite Hm'; apply Z.div_pos; lia).
  assert (F1 : m' < 2 ^ prec).
  { rewrite Hm'. apply Z.div_lt_upper_bound; [lia |].
    rewrite <- pow2_split by lia.
    pose proof (pow2_le_mono d (n + prec) ltac:(unfold n; lia)). lia. }
  pose proof (round_nearest_even_bounds m' (loc_of_shr_record mrs')) as Hr.
  set (m1 := round_nearest_even m' (loc_of_shr_record mrs')) in *.
  destruct m1 as [| q | q] eqn:Hm1; [| | lia].
  - match goal with
    | |- context [shr ?r ?x ?k] =>
      pose proof (shr_zero r x k eq_refl) as Hz; destruct (shr r x k) as [mrs2 e2]
    end.
    cbn [fst] in Hz. rewrite Hz. exact I.
  - change (Zdigits2 (Zpos q)) with (Zpos (digits2_pos q)).
    set (n2 := fexp (Zpos (digits2_pos q) + e1) - e1).
    pose proof (digits_bounds q) as [Hql Hqu].
    set (dq := Zpos (digits2_pos q)) in *.
    assert (Hq : Zpos q <= 2 ^ prec) by lia.
    assert (Hdq : dq <= prec + 1).
    { apply (digits_le q (prec + 1)); [lia |].
      rewrite pow2_split, Z.pow_1_r by lia.
      pose proof (pow2_pos prec ltac:(lia)). lia. }
    assert (Hn2 : n2 <= 1) by (unfold n2, SpecFloat.fexp; lia).
    destruct (Z.le_gt_cases n2 0) as [Hle | Hgt].
    + assert (Hshr : shr (shr_record_of_loc (Zpos q) loc_Exact) e1 n2
                     = (shr_record_of_loc (Zpos q) loc_Exact, e1))
        by (unfold shr; destruct n2; try lia; reflexivity).
      rewrite Hshr. cbn [shr_m shr_record_of_loc].
      destruct (Z.leb_spec e1 (emax - prec)); lia.
    + assert (n2 = 1) as -> by lia.
      pose proof (shr_spec (shr_record_of_loc (Zpos q) loc_Exact) e1 1
                    ltac:(simpl; lia) ltac:(lia)) as [Hm2 He2].
      destruct (shr (shr_record_of_loc (Zpos q) loc_Exact) e1 1) as [mrs2 e2].
      cbn [fst snd] in Hm2, He2. subst e2.
      destruct (shr_m mrs2) as [| m2 | m2]; try exact I.
      destruct (Z.leb_spec (e1 + 1) (emax - prec)); lia.
Qed.

(** A product or a sum whose mantissa and exponent are in range is
    rounded to a positive finite number. *)
Lemma round_aux_finite (m : positive) (e : Z) :
  let e1 := fexp (Zpos (digits2_pos m) + e) in
  e <= e1 ->
  e1 + 1 <= emax - prec ->
  2 ^ (e1 - e) <= Zpos m ->
  exists m2 e2,
    binary_round_aux prec emax false (Zpos m) e loc_Exact = S754_finite false m2 e2 /\
    bounded prec emax m2 e2 = true /\ e1 <= e2 <= e1 + 1.
Proof.
  intros e1 He Hfit Hbig.
  pose proof (round_aux_cases prec emax Hprec m e He) as Hc.
  pose proof (round_aux_exponent m e He Hfit) as Hx.
  fold e1 in Hc.
  destruct (binary_round_aux prec emax false (Zpos m) e loc_Exact) as [s | s | | s m2 e2].
  - destruct Hc as (_ & Hmin & Hsmall). rewrite <- Hmin in Hsmall. lia.
  - contradiction.
  - contradiction.
  - destruct Hc as (-> & Hb & Hle & _). exists m2, e2. auto.
Qed.

End RoundingRange.

Section CostRange.
Import Gateway.

(** The conversion of a positive [int]: a mantissa of 53 digits and an
    exponent from -52 to 11. *)
Lemma ofInt_finite (n : Z) :
  0 < n <= GoInt.maxInt ->
  exists m e,
    Float64.ofInt n = S754_finite false m e /\
    2 ^ 52 <= Zpos m < 2 ^ 53 /\ -52 <= e <= 11.
Proof.
  intros Hn. destruct n as [| p | p]; try lia.
  unfold Float64.ofInt, binary_normalize, binary_round.
  pose proof (digits_bounds p) as [Hdl Hdu].
  assert (Hd : Zpos (digits2_pos p) <= 63).
  { apply digits_le; [lia |]. unfold GoInt.maxInt in Hn. lia. }
  set (d := Zpos (digits2_pos p)) in *.
  assert (Hd0 : 0 < d) by (unfold d; lia).
  pose proof (shl_align_spec p 0 (fexp Float64.prec Float64.emax (d + 0)))
    as (H1 & H2 & H3).
  destruct (shl_align p 0 (fexp Float64.prec Float64.emax (d + 0))) as [mz ez].
  cbn [fst snd] in *. fold d in H3.
  assert (Hf : fexp Float64.prec Float64.emax (d + 0) = d - 53)
    by (unfold SpecFloat.fexp, SpecFloat.emin, Float64.prec, Float64.emax; lia).
  rewrite Hf in H1.
  pose proof (digits_bounds mz) as [Hzl Hzu].
  destruct (round_aux_finite Float64.prec Float64.emax ltac:(unfold Float64.prec; lia) mz ez)
    as (m2 & e2 & Hr & Hb & He2).
  - rewrite H3, Hf. lia.
  - rewrite H3, Hf. unfold Float64.prec, Float64.emax. lia.
  - rewrite H3, Hf.
    assert (Hez : ez <= d - 53) by lia.
    apply Z.le_trans with (2 ^ (Zpos (digits2_pos mz) - 1)); [| exact Hzl].
    apply pow2_le_mono. lia.
  - rewrite H3, Hf in He2. exists m2, e2. split; [exact Hr |].
    unfold bounded in Hb. apply andb_prop in Hb as [Hcan _].
    pose proof (canonical_bounds Float64.prec Float64.emax
                  ltac:(unfold Float64.prec; lia) m2 e2 Hcan) as (_ & Hu & Hl).
    unfold SpecFloat.emin, Float64.prec, Float64.emax in *.
    split; [| lia]. split; [| exact Hu].
    apply Hl. lia.
Qed.

(** The product of such a number with one of the two rates. *)
Lemma rate_product_finite (mx my : positive) (ex ey : Z) :
  2 ^ 52 <= Zpos mx < 2 ^ 53 -> -52 <= ex <= 11 ->
  2 ^ 52 <= Zpos my < 2 ^ 53 -> -76 <= ey <= -72 ->
  exists m e,
    Float64.mul (S754_finite false mx ex) (S754_finite false my ey)
    = S754_finite false m e /\
    bounded Float64.prec Float64.emax m e = true.
Proof.
  intros Hmx Hex Hmy Hey. unfold Float64.mul, SFmul. cbn [xorb].
  assert (Hl : 2 ^ 104 <= Zpos (mx * my)).
  { rewrite Pos2Z.inj_mul. change (2 ^ 104) with (2 ^ 52 * 2 ^ 52). nia. }
  assert (Hu : Zpos (mx * my) < 2 ^ 106).
  { rewrite Pos2Z.inj_mul. change (2 ^ 106) with (2 ^ 53 * 2 ^ 53). nia. }
  pose proof (digits_gt (mx * my) 104 ltac:(lia) Hl) as Hd1.
  pose proof (digits_le (mx * my) 106 ltac:(lia) Hu) as Hd2.
  pose proof (digits_bounds (mx * my)) as [Hdl _].
  set (d := Zpos (digits2_pos (mx * my))) in *.
  assert (Hf : fexp Float64.prec Float64.emax (d + (ex + ey)) = d + (ex + ey) - 53)
    by (unfold SpecFloat.fexp, SpecFloat.emin, Float64.prec, Float64.emax; lia).
  destruct (round_aux_finite Float64.prec Float64.emax ltac:(unfold Float64.prec; lia)
              (mx * my) (ex + ey)) as (m2 & e2 & Hr & Hb & _).
  - fold d. rewrite Hf. lia.
  - fold d. rewrite Hf. unfold Float64.prec, Float64.emax. lia.
  - fold d. rewrite Hf.
    apply Z.le_trans with (2 ^ (d - 1)); [| exact Hdl].
    apply pow2_le_mono. lia.
  - exists m2, e2. auto.
Qed.

(** X17. The estimated cost of every prompt length that an [int] can
    hold is a finite number: zero for an empty prompt and a positive,
    well-formed [float64] otherwise; the product never overflows to
    infinity, never underflows to zero and is never a NaN. *)
Theorem estimated_cost_is_finite (n : Z) :
  0 <= n <= GoInt.maxInt ->
  match estimatedCost n with
  | S754_zero s => s = false /\ n = 0
  | S754_finite s m e => s = false /\ 0 < n /\ bounded Float64.prec Float64.emax m e = true
  | _ => False
  end.
Proof.
  intros Hn. destruct (Z.eq_dec n 0) as [-> | Hpos].
  - vm_compute. auto.
  - destruct (ofInt_finite n ltac:(lia)) as (mx & ex & Hx & Hmx & Hex).
    unfold estimatedCost, route. rewrite Hx.
    destruct (n <=? promptLengthThreshold); cbn [costPerChar cheapDecision expensiveDecision];
      unfold cheapModelCostPerChar, expensiveModelCostPerChar.
    + destruct (rate_product_finite mx 7555786372591432 ex (-76) Hmx Hex
                  ltac:(lia) ltac:(lia)) as (m & e & -> & Hb).
      split; [reflexivity |]. split; [lia | exact Hb].
    + destruct (rate_product_finite mx 7083549724304468 ex (-72) Hmx Hex
                  ltac:(lia) ltac:(lia)) as (m & e & -> & Hb).
      split; [reflexivity |]. split; [lia | exact Hb].
Qed.

Lemma estimated_cost_is_finite_witness :
  match estimatedCost 200 with
  | S754_zero s => s = false /\ 200 = 0
  | S754_finite s m e =>
    s = false /\ 0 < 200 /\ bounded Float64.prec Float64.emax m e = true
  | _ => False
  end.
Proof.
  refine (estimated_cost_is_finite 200 _).
  unfold GoInt.maxInt. lia.
Defined.

End CostRange.

(** ** Runs of the concurrent program *)

Section RunFacts.
Import Gateway Concurrent Runs.

Lemma reachable_invariant_of (jobs : list (string * spec_float)) (reporters : nat)
    (c : config) :
  steps (start jobs reporters) c -> invariant (length jobs) c.
Proof. apply invariant_steps, invariant_start. Qed.

(** In a state that satisfies the invariant, at most one goroutine is
    in its critical section. *)
Lemma invariant_exclusive (N : nat) (c : config) (i j : nat) (ti tj : thread) :
  invariant N c ->
  threads c !! i = Some ti -> threads c !! j = Some tj ->
  holding ti = true -> holding tj = true -> i = j.
Proof.
  intros (_ & _ & (h & _ & _ & Hh) & _) Hi Hj Hti Htj.
  apply (Hh i ti Hi) in Hti. apply (Hh j tj Hj) in Htj. congruence.
Qed.

(** X18. Mutual exclusion: at every point of every run at most one
    goroutine is between [Lock] and [Unlock], and the mutex is locked
    exactly when there is one. *)
Theorem critical_sections_exclude_each_other
    (jobs : list (string * spec_float)) (reporters : nat) (c : config) :
  steps (start jobs reporters) c ->
  (forall i j ti tj,
     threads c !! i = Some ti -> threads c !! j = Some tj ->
     holding ti = true -> holding tj = true -> i = j) /\
  (locked c = true <-> exists i t, threads c !! i = Some t /\ holding t = true).
Proof.
  intros Hrun. pose proof (reachable_invariant_of jobs reporters c Hrun) as Hinv.
  split.
  - intros i j ti tj. apply (invariant_exclusive _ c i j ti tj Hinv).
  - destruct Hinv as (_ & _ & (h & Hl & Hvalid & Hh) & _). split.
    + intros Hlocked. destruct h as [i |]; [| congruence].
      destruct (Hvalid i eq_refl) as [t Hi]. exists i, t. split; [exact Hi |].
      apply (Hh i t Hi). reflexivity.
    + intros (i & t & Hi & Hin). apply (Hh i t Hi) in Hin. rewrite Hl, Hin. reflexivity.
Qed.

Lemma critical_sections_exclude_each_other_witness :
  let c := run [0; 1; 3; 0; 2; 0]%nat
               (start [("CheapModel", estimatedCost 2); ("ExpensiveModel", estimatedCost 200);
                       ("CheapModel", estimatedCost 2)] 1) in
  (forall i j ti tj,
     threads c !! i = Some ti -> threads c !! j = Some tj ->
     holding ti = true -> holding tj = true -> i = j) /\
  (locked c = true <-> exists i t, threads c !! i = Some t /\ holding t = true).
Proof.
  intros c.
  refine (critical_sections_exclude_each_other _ 1 c _).
  apply run_steps.
Defined.

(** *** Runs end *)

Lemma stepThread_remaining (g g' : LLMUsageMetrics) (l l' : bool) (t t' : thread) :
  stepThread g l t = Some (g', l', t') -> remaining t = S (remaining t').
Proof.
  destruct t as [m c [] | [] s]; simpl; try destruct l; intros H;
    try discriminate; injection H as <- <- <-; reflexivity.
Qed.

Lemma step_remaining (c c' : config) :
  step c c' ->
  sum_list_with remaining (threads c) = S (sum_list_with remaining (threads c')).
Proof.
  intros [c0 i t t' g' l' Hi Hst]. cbn [threads].
  pose proof (sum_list_with_insert remaining _ i t t' Hi) as Hsum.
  rewrite (stepThread_remaining _ _ _ _ _ _ Hst) in Hsum. lia.
Qed.

Lemma start_remaining (jobs : list (string * spec_float)) (reporters : nat) :
  sum_list_with remaining (threads (start jobs reporters))
  = (5 * length jobs + 4 * reporters)%nat.
Proof.
  unfold start. cbn [threads]. rewrite sum_list_with_app.
  assert (H1 : sum_list_with remaining (map recorderOf jobs) = (5 * length jobs)%nat).
  { induction jobs as [| j jobs IH]; simpl in *; [reflexivity |]. lia. }
  assert (H2 : sum_list_with remaining (replicate reporters (Reporter RepLock globalMetrics0))
               = (4 * reporters)%nat).
  { induction reporters as [| k IH]; simpl in *; [reflexivity |]. lia. }
  rewrite H1, H2. reflexivity.
Qed.

(** X19. Every run ends: a run of [n] steps with [N] recording and
    [R] reporting goroutines has exactly [5 N + 4 R - n] statements
    left to run, so no run has more than [5 N + 4 R] steps. *)
Theorem runs_are_bounded
    (jobs : list (string * spec_float)) (reporters : nat) (n : nat) (c : config) :
  nsteps step n (start jobs reporters) c ->
  (n + sum_list_with remaining (threads c) = 5 * length jobs + 4 * reporters)%nat.
Proof.
  rewrite <- start_remaining. generalize (start jobs reporters). intros c0 H.
  induction H as [| n c1 c2 c3 Hstep _ IH]; [reflexivity |].
  rewrite (step_remaining c1 c2 Hstep). lia.
Qed.

Lemma runs_are_bounded_witness :
  let jobs := [("CheapModel", estimatedCost 2)] in
  (2 + sum_list_with remaining (threads (run [0; 0]%nat (start jobs 1)))
   = 5 * length jobs + 4 * 1)%nat.
Proof.
  intros jobs.
  refine (runs_are_bounded jobs 1 2 (run [0; 0]%nat (start jobs 1)) _).
  apply (nsteps_l _ _ _ (run [0]%nat (start jobs 1))).
  - exact (step_thread (start jobs 1) 0%nat
             (Recorder "CheapModel" (estimatedCost 2) RecLock)
             (Recorder "CheapModel" (estimatedCost 2) RecTotal)
             initialMetrics true eq_refl eq_refl).
  - apply (nsteps_l _ _ _ (run [0; 0]%nat (start jobs 1))); [| apply nsteps_O].
    exact (step_thread (run [0]%nat (start jobs 1)) 0%nat
             (Recorder "CheapModel" (estimatedCost 2) RecTotal)
             (Recorder "CheapModel" (estimatedCost 2) RecCost)
             (incTotalRequests initialMetrics) true eq_refl eq_refl).
Defined.

Lemma remaining_finished (l : list thread) :
  sum_list_with remaining l = 0%nat -> Forall (fun t => finished t = true) l.
Proof.
  induction l as [| t l IH]; simpl; intros H; constructor.
  - destruct t as [m c [] | [] s]; simpl in *; try lia; reflexivity.
  - apply IH. lia.
Qed.

Lemma invariant_completes (N : nat) (k : nat) (c : config) :
  invariant N c -> sum_list_with remaining (threads c) = k ->
  exists c', nsteps step k c c' /\ Forall (fun t => finished t = true) (threads c').
Proof.
  revert c. induction k as [| k IH]; intros c Hinv Hk.
  - exists c. split; [apply nsteps_O | apply remaining_finished, Hk].
  - destruct (invariant_progress N c Hinv) as [Hall | [c1 Hstep]].
    + exfalso. clear -Hall Hk. revert k Hk.
      induction Hall as [| t l Ht _ IHl]; simpl; intros k Hk; [discriminate |].
      destruct t as [m cost [] | [] s]; simpl in *; try discriminate; eapply IHl; exact Hk.
    + pose proof (step_remaining c c1 Hstep) as Hdec.
      destruct (IH c1 (invariant_step N c c1 Hinv Hstep)) as (c' & Hrun & Hfin); [lia |].
      exists c'. split; [| exact Hfin]. eapply nsteps_l; eassumption.
Qed.

(** X20. No run is ever stuck for good: from every point of every run
    the program can be run to the end, where every goroutine has
    finished and the mutex is free, in exactly as many steps as there
    are statements left. *)
Theorem every_run_can_be_completed
    (jobs : list (string * spec_float)) (reporters : nat) (c : config) :
  steps (start jobs reporters) c ->
  exists c',
    nsteps step (sum_list_with remaining (threads c)) c c' /\
    Forall (fun t => finished t = true) (threads c') /\
    locked c' = false.
Proof.
  intros Hrun. pose proof (reachable_invariant_of jobs reporters c Hrun) as Hinv.
  destruct (invariant_completes _ _ c Hinv eq_refl) as (c' & Hn & Hfin).
  exists c'. split; [exact Hn |]. split; [exact Hfin |].
  assert (Hinv' : invariant (length jobs) c').
  { apply (invariant_steps _ c c' Hinv). eapply rtc_nsteps_2. exact Hn. }
  destruct Hinv' as (_ & _ & (h & Hl & Hvalid & Hh) & _).
  destruct h as [i |]; [| exact Hl].
  destruct (Hvalid i eq_refl) as [t Hi].
  pose proof (proj2 (Hh i t Hi) eq_refl) as Hin.
  rewrite Forall_lookup in Hfin. specialize (Hfin i t Hi).
  destruct t as [m cost [] | [] s]; simpl in *; discriminate.
Qed.

Lemma every_run_can_be_completed_witness :
  let c := run [0; 1; 0]%nat (start [("CheapModel", estimatedCost 2)] 1) in
  exists c',
    nsteps step (sum_list_with remaining (threads c)) c c' /\
    Forall (fun t => finished t = true) (threads c') /\
    locked c' = false.
Proof.
  intros c.
  refine (every_run_can_be_completed [("CheapModel", estimatedCost 2)] 1 c _).
  apply run_steps.
Defined.

End RunFacts.

(** ** Concurrent updates as updates made one after the other *)

Section Linearization.
Import Gateway Concurrent Runs.

Lemma omap_insert_same {A B : Type} (f : A -> option B) (l : list A) (i : nat) (t t' : A) :
  l !! i = Some t -> f t' = f t -> omap f (<[i := t']> l) = omap f l.
Proof.
  revert i. induction l as [| a l IH]; intros [| i] Hi Hf; simpl in *; try discriminate.
  - injection Hi as ->. rewrite Hf. reflexivity.
  - fold (@omap list _ A B f). rewrite (IH i Hi Hf). reflexivity.
Qed.

Lemma omap_insert_new {A B : Type} (f : A -> option B) (l : list A) (i : nat)
    (t t' : A) (x : B) :
  l !! i = Some t -> f t = None -> f t' = Some x ->
  Permutation (omap f (<[i := t']> l)) (x :: omap f l).
Proof.
  revert i. induction l as [| a l IH]; intros [| i] Hi Hf Hf'; simpl in *; try discriminate.
  - injection Hi as ->. rewrite Hf, Hf'. reflexivity.
  - fold (@omap list _ A B f). destruct (f a) as [y |].
    + rewrite (IH i Hi Hf Hf'). apply perm_swap.
    + exact (IH i Hi Hf Hf').
Qed.

(** When only the goroutine [i] is in its critical section, the
    metrics are what it has made of them. *)
Lemma foldr_midway (l : list thread) (i : nat) (t : thread) (base : LLMUsageMetrics) :
  l !! i = Some t ->
  (forall j tj, l !! j = Some tj -> j <> i -> holding tj = false) ->
  foldr midway base l = midway t base.
Proof.
  assert (Hout : forall l' : list thread,
             (forall j tj, l' !! j = Some tj -> holding tj = false) ->
             foldr midway base l' = base).
  { induction l' as [| a l' IH]; intros H; simpl; [reflexivity |].
    rewrite IH by (intros j tj Hj; exact (H (S j) tj Hj)).
    specialize (H 0%nat a eq_refl).
    destruct a as [m c [] | [] s]; simpl in *; try discriminate; reflexivity. }
  revert i. induction l as [| a l IH]; intros [| i] Hi Hothers; simpl in *;
    try discriminate.
  - injection Hi as ->. rewrite Hout; [reflexivity |].
    intros j tj Hj. apply (Hothers (S j) tj Hj). lia.
  - rewrite (IH i Hi) by (intros j tj Hj Hne; apply (Hothers (S j) tj Hj); lia).
    specialize (Hothers 0%nat a eq_refl ltac:(lia)).
    destruct a as [m c [] | [] s]; simpl in *; try discriminate; reflexivity.
Qed.

Lemma recordAll_snoc (order : list (string * spec_float)) (m : string) (cost : spec_float)
    (g : LLMUsageMetrics) :
  recordAll (order ++ [(m, cost)]) g = record m cost (recordAll order g).
Proof. unfold recordAll. rewrite fold_left_app. reflexivity. Qed.

Lemma linearized_start (jobs : list (string * spec_float)) (reporters : nat) :
  linearized (start jobs reporters).
Proof.
  exists []. split.
  - assert (H : omap completed (threads (start jobs reporters)) = []).
    { unfold start. cbn [threads]. rewrite omap_app.
      assert (H1 : omap completed (map recorderOf jobs) = [])
        by (induction jobs as [| j jobs IH]; simpl in *; [reflexivity | exact IH]).
      assert (H2 : omap completed (replicate reporters (Reporter RepLock globalMetrics0)) = [])
        by (induction reporters as [| k IH]; simpl in *; [reflexivity | exact IH]).
      rewrite H1, H2. reflexivity. }
    rewrite H. reflexivity.
  - cbn [recordAll fold_left].
    assert (H : forall l : list thread,
               (forall t, t ∈ l -> holding t = false) ->
               foldr midway initialMetrics l = initialMetrics).
    { induction l as [| a l IH]; intros Hl; simpl; [reflexivity |].
      rewrite IH by (intros t Ht; apply Hl; right; exact Ht).
      specialize (Hl a ltac:(left)).
      destruct a as [m c [] | [] s]; simpl in *; try discriminate; reflexivity. }
    rewrite H; [reflexivity |].
    intros t Ht. destruct (start_threads jobs reporters t Ht) as [(m & c & ->) | ->];
      reflexivity.
Qed.

(** Every step keeps the metrics in this form. *)
Lemma linearized_step (N : nat) (c c' : config) :
  invariant N c -> linearized c -> step c c' -> linearized c'.
Proof.
  intros Hinv (order & Hperm & Hm) Hstep.
  destruct Hstep as [c i t t' g' l' Hi Hst].
  assert (Hothers : holding t = true ->
                    forall j tj, threads c !! j = Some tj -> j <> i -> holding tj = false).
  { intros Hin j tj Hj Hne. destruct (holding tj) eqn:Htj; [| reflexivity].
    exfalso. apply Hne. exact (invariant_exclusive N c j i tj t Hinv Hj Hi Htj Hin). }
  assert (Hothers' : holding t = true ->
                     forall j tj, <[i := t']> (threads c) !! j = Some tj -> j <> i ->
                                  holding tj = false).
  { intros Hin j tj Hj Hne. rewrite list_lookup_insert_ne in Hj by congruence.
    exact (Hothers Hin j tj Hj Hne). }
  assert (Hi' : <[i := t']> (threads c) !! i = Some t')
    by (apply list_lookup_insert_eq; eapply lookup_lt_Some; exact Hi).
  unfold linearized. cbn [metrics threads].
  assert (Hsame : completed t' = completed t -> g' = metrics c ->
                  (forall g, midway t' g = midway t g) ->
                  exists order0,
                    Permutation order0 (omap completed (<[i := t']> (threads c))) /\
                    g' = foldr midway (recordAll order0 initialMetrics)
                           (<[i := t']> (threads c))).
  { intros Hc Hg Hmid. exists order. split.
    - rewrite (omap_insert_same completed _ i t t' Hi Hc). exact Hperm.
    - rewrite Hg, Hm. clear -Hi Hmid. revert i Hi.
      induction (threads c) as [| a l IH]; intros [| i] Hi; simpl in *; try discriminate.
      + injection Hi as ->. rewrite Hmid. reflexivity.
      + rewrite (IH i Hi). reflexivity. }
  destruct t as [m cost [] | [] s]; simpl in Hst;
    repeat match type of Hst with
           | context [if ?b then _ else _] => destruct b eqn:?
           end;
    try discriminate; injection Hst as <- <- <-;
    try (apply Hsame; [reflexivity | reflexivity | intros g; reflexivity]).
  - (* TotalRequests++ *)
    exists order. split.
    + rewrite (omap_insert_same completed _ i _ (Recorder m cost RecCost) Hi eq_refl).
      exact Hperm.
    + rewrite (foldr_midway _ i _ _ Hi' (Hothers' eq_refl)).
      rewrite Hm, (foldr_midway _ i _ _ Hi (Hothers eq_refl)). reflexivity.
  - (* TotalCost += estimatedCost *)
    exists order. split.
    + rewrite (omap_insert_same completed _ i _ (Recorder m cost RecUsage) Hi eq_refl).
      exact Hperm.
    + rewrite (foldr_midway _ i _ _ Hi' (Hothers' eq_refl)).
      rewrite Hm, (foldr_midway _ i _ _ Hi (Hothers eq_refl)). reflexivity.
  - (* ModelUsage[modelName]++ *)
    exists (order ++ [(m, cost)]). split.
    + rewrite (omap_insert_new completed _ i _ (Recorder m cost RecUnlock) (m, cost)
                 Hi eq_refl eq_refl).
      rewrite <- Hperm. rewrite Permutation_app_comm. reflexivity.
    + rewrite (foldr_midway _ i _ _ Hi' (Hothers' eq_refl)).
      rewrite Hm, (foldr_midway _ i _ _ Hi (Hothers eq_refl)).
      rewrite recordAll_snoc. reflexivity.
Qed.

Lemma linearized_steps (jobs : list (string * spec_float)) (reporters : nat) (c : config) :
  steps (start jobs reporters) c -> linearized c.
Proof.
  intros Hrun.
  assert (H : invariant (length jobs) c /\ linearized c).
  { apply (@rtc_ind_r _ step (fun c0 => invariant (length jobs) c0 /\ linearized c0)
             (start jobs reporters)); [| | exact Hrun].
    - split; [apply invariant_start | apply linearized_start].
    - intros c1 c2 _ Hstep [Hinv Hlin]. split.
      + exact (invariant_step _ c1 c2 Hinv Hstep).
      + exact (linearized_step _ c1 c2 Hinv Hlin Hstep). }
  exact (proj2 H).
Qed.

(** The goroutines keep the requests they were started with. *)
Lemma jobs_kept (jobs : list (string * spec_float)) (reporters : nat) (c : config) :
  steps (start jobs reporters) c -> omap jobOf (threads c) = jobs.
Proof.
  intros Hrun.
  apply (@rtc_ind_r _ step (fun c0 => omap jobOf (threads c0) = jobs) (start jobs reporters));
    [| | exact Hrun]; clear c Hrun.
  - unfold start. cbn [threads]. rewrite omap_app.
    assert (H1 : omap jobOf (map recorderOf jobs) = jobs).
    { induction jobs as [| [m cost] jobs IHj]; [reflexivity |].
      simpl. f_equal. exact IHj. }
    assert (H2 : omap jobOf (replicate reporters (Reporter RepLock globalMetrics0)) = [])
      by (induction reporters as [| k IHk]; simpl in *; [reflexivity | exact IHk]).
    rewrite H1, H2. apply app_nil_r.
  - intros c1 c2 _ Hstep IH.
    destruct Hstep as [c i t t' g' l' Hi Hst]. cbn [threads].
    rewrite (omap_insert_same jobOf _ i t t' Hi); [exact IH |].
    destruct t as [m cost [] | [] s]; simpl in Hst;
      repeat match type of Hst with
             | context [if ?b then _ else _] => destruct b eqn:?
             end;
      try discriminate; injection Hst as <- <- <-; reflexivity.
Qed.

(** The metrics of a run in which every recording goroutine has
    finished. *)
Lemma steps_recorded (jobs : list (string * spec_float)) (reporters : nat) (c : config) :
  steps (start jobs reporters) c ->
  Forall (fun t => recorderDone t = true) (threads c) ->
  exists order, Permutation order jobs /\ metrics c = recordAll order initialMetrics.
Proof.
  intros Hrun Hdone.
  destruct (linearized_steps jobs reporters c Hrun) as (order & Hperm & Hm).
  exists order. split.
  - rewrite Hperm, <- (jobs_kept jobs reporters c Hrun).
    assert (Heq : omap completed (threads c) = omap jobOf (threads c)).
    { clear -Hdone. induction Hdone as [| t l Ht _ IH]; [reflexivity |].
      destruct t as [m cost [] | [] s]; simpl in Ht |- *; try discriminate;
        fold (@omap list _ _ _ completed); fold (@omap list _ _ _ jobOf);
        rewrite ?IH; reflexivity. }
    rewrite Heq. reflexivity.
  - rewrite Hm. clear -Hdone. induction Hdone as [| t l Ht _ IH]; [reflexivity |].
    simpl. rewrite IH.
    destruct t as [m cost [] | [] s]; simpl in *; try discriminate; reflexivity.
Qed.

(** X21. Concurrent updates serialize: when the recording goroutines
    of a run have finished, the metrics, the accrued cost included,
    are those of the handler's update made for each request once, one
    after the other, in some order of the requests. *)
Theorem concurrent_updates_serialize
    (jobs : list (string * spec_float)) (reporters : nat) (c : config) :
  steps (start jobs reporters) c ->
  Forall (fun t => recorderDone t = true) (threads c) ->
  exists order,
    Permutation order jobs /\
    metrics c = recordAll order initialMetrics.
Proof. apply steps_recorded. Qed.

Lemma concurrent_updates_serialize_witness :
  let jobs := [("CheapModel", estimatedCost 2); ("ExpensiveModel", estimatedCost 200);
               ("CheapModel", estimatedCost 2)] in
  let c := run [0; 1; 3; 0; 2; 0; 0; 0; 3; 1; 3; 3; 3; 1; 2; 1; 1; 1; 1; 2; 2; 2; 2; 2]%nat
               (start jobs 1) in
  exists order,
    Permutation order jobs /\
    metrics c = recordAll order initialMetrics.
Proof.
  intros jobs c.
  refine (concurrent_updates_serialize jobs 1 c _ _).
  - apply run_steps.
  - vm_compute. repeat constructor.
Defined.

(** The count of one model after a list of updates. *)
Lemma recordAll_usage (label : string) (order : list (string * spec_float))
    (g : LLMUsageMetrics) :
  0 <= usage (ModelUsage g) label ->
  usage (ModelUsage g) label + Z.of_nat (requestsFor label order) <= GoInt.maxInt ->
  usage (ModelUsage (recordAll order g)) label
  = usage (ModelUsage g) label + Z.of_nat (requestsFor label order).
Proof.
  revert g. induction order as [| [m cost] order IH]; intros g H0 Hfit.
  - unfold requestsFor. simpl. lia.
  - unfold requestsFor in *. cbn [recordAll fold_left List.filter fst snd] in *.
    fold (recordAll order (record m cost g)).
    revert Hfit. destruct (String.eqb_spec m label) as [-> | Hne]; cbn [length]; intros Hfit.
    + assert (Hrec : usage (ModelUsage (record label cost g)) label
                     = usage (ModelUsage g) label + 1).
      { unfold record, incModelUsage, addTotalCost, incTotalRequests.
        cbn [ModelUsage]. unfold usage at 1. rewrite lookup_insert_eq.
        cbn [default from_option]. unfold id, GoInt.add.
        apply wrap_small. unfold GoInt.inRange, GoInt.minInt, GoInt.maxInt in *. lia. }
      rewrite IH; rewrite Hrec; lia.
    + assert (Hrec : usage (ModelUsage (record m cost g)) label
                     = usage (ModelUsage g) label).
      { unfold record, incModelUsage, addTotalCost, incTotalRequests, usage.
        cbn [ModelUsage]. rewrite lookup_insert_ne by congruence. reflexivity. }
      rewrite IH; rewrite Hrec; lia.
Qed.

Lemma requestsFor_permutation (label : string) (l1 l2 : list (string * spec_float)) :
  Permutation l1 l2 -> requestsFor label l1 = requestsFor label l2.
Proof.
  intros H. unfold requestsFor.
  induction H as [| x l l' _ IH | x y l | l l' l'' _ IH1 _ IH2]; simpl.
  - reflexivity.
  - destruct (String.eqb (fst x) label); simpl; rewrite IH; reflexivity.
  - destruct (String.eqb (fst x) label), (String.eqb (fst y) label); reflexivity.
  - congruence.
Qed.

Lemma requestsFor_le (label : string) (jobs : list (string * spec_float)) :
  (requestsFor label jobs <= length jobs)%nat.
Proof.
  unfold requestsFor. induction jobs as [| j jobs IH]; simpl; [lia |].
  destruct (String.eqb (fst j) label); simpl; lia.
Qed.

(** X22. No update of a per-model count is lost: when the recording
    goroutines of a run have finished, the count of every model is the
    number of the requests that were routed to it, and the count of
    any other key is zero. *)
Theorem concurrent_counts_per_model
    (jobs : list (string * spec_float)) (reporters : nat) (c : config) (label : string) :
  Z.of_nat (length jobs) <= GoInt.maxInt ->
  steps (start jobs reporters) c ->
  Forall (fun t => recorderDone t = true) (threads c) ->
  usage (ModelUsage (metrics c)) label = Z.of_nat (requestsFor label jobs).
Proof.
  intros HN Hrun Hdone.
  destruct (steps_recorded jobs reporters c Hrun Hdone) as (order & Hperm & ->).
  pose proof (requestsFor_le label jobs) as Hle.
  rewrite <- (requestsFor_permutation label order jobs Hperm) in *.
  assert (H0 : usage (ModelUsage initialMetrics) label = 0).
  { unfold initialMetrics, seedModelUsage, globalMetrics0, usage. cbn [ModelUsage].
    destruct (decide (label = "ExpensiveModel")) as [-> | H1]; [reflexivity |].
    rewrite lookup_insert_ne by congruence.
    destruct (decide (label = "CheapModel")) as [-> | H2]; [reflexivity |].
    rewrite lookup_insert_ne by congruence. reflexivity. }
  rewrite recordAll_usage; rewrite H0; lia.
Qed.

Lemma concurrent_counts_per_model_witness :
  let jobs := [("CheapModel", estimatedCost 2); ("ExpensiveModel", estimatedCost 200);
               ("CheapModel", estimatedCost 2)] in
  let c := run [0; 1; 3; 0; 2; 0; 0; 0; 3; 1; 3; 3; 3; 1; 2; 1; 1; 1; 1; 2; 2; 2; 2; 2]%nat
               (start jobs 1) in
  usage (ModelUsage (metrics c)) "CheapModel" = Z.of_nat (requestsFor "CheapModel" jobs).
Proof.
  intros jobs c.
  refine (concurrent_counts_per_model jobs 1 c "CheapModel" _ _ _).
  - vm_compute. discriminate.
  - apply run_steps.
  - vm_compute. repeat constructor.
Defined.

End Linearization.

(** ** What a report has read *)

Section Snapshots.
Import Gateway Concurrent Runs.

Ltac statement_cases t Hst :=
  destruct t as [? ? [] | [] ?]; simpl in Hst;
  repeat match type of Hst with
         | context [if ?b then _ else _] => destruct b eqn:?
         end;
  try discriminate.

(** Only a goroutine in its critical section changes the metrics. *)
Lemma stepThread_metrics (g g' : LLMUsageMetrics) (l l' : bool) (t t' : thread) :
  stepThread g l t = Some (g', l', t') -> g' = g \/ holding t = true.
Proof.
  destruct t as [m c [] | [] s]; simpl; try destruct l; intros H;
    try discriminate; injection H as <- <- <-; auto.
Qed.

Lemma snapshotInvariant_start (jobs : list (string * spec_float)) (reporters : nat) :
  snapshotInvariant (start jobs reporters).
Proof.
  intros i s. split; intros Hi; apply list_elem_of_lookup_2 in Hi;
    destruct (start_threads jobs reporters _ Hi) as [(m & c & H) | H]; discriminate.
Qed.

Lemma snapshotInvariant_step (N : nat) (c c' : config) :
  invariant N c -> snapshotInvariant c -> step c c' -> snapshotInvariant c'.
Proof.
  intros Hinv Hsnap Hstep. destruct Hstep as [c i t t' g' l' Hi Hst].
  assert (Hkeep : forall j tj, threads c !! j = Some tj -> j <> i ->
                               holding tj = true -> g' = metrics c).
  { intros j tj Hj Hne Htj.
    destruct (stepThread_metrics _ _ _ _ _ _ Hst) as [Hg | Hin]; [exact Hg |].
    exfalso. apply Hne. exact (invariant_exclusive N c j i tj t Hinv Hj Hi Htj Hin). }
  intros j s. cbn [metrics threads]. split; intros Hj.
  - destruct (lookup_updated _ _ _ _ _ _ Hi Hj) as [[-> Heq] | [Hne Hold]].
    + subst t'. statement_cases t Hst. injection Hst as <- _ <-. split; reflexivity.
    + rewrite (Hkeep j _ Hold Hne eq_refl). exact (proj1 (Hsnap j s) Hold).
  - destruct (lookup_updated _ _ _ _ _ _ Hi Hj) as [[-> Heq] | [Hne Hold]].
    + subst t'. statement_cases t Hst. injection Hst as <- _ <-.
      destruct (proj1 (Hsnap i _) Hi) as [H1 H2].
      destruct (metrics c) as [total cost usage]. cbn in *. rewrite H1, H2. reflexivity.
    + rewrite (Hkeep j _ Hold Hne eq_refl). exact (proj2 (Hsnap j s) Hold).
Qed.

Lemma snapshotInvariant_steps (jobs : list (string * spec_float)) (reporters : nat)
    (c : config) :
  steps (start jobs reporters) c -> invariant (length jobs) c /\ snapshotInvariant c.
Proof.
  intros Hrun.
  apply (@rtc_ind_r _ step (fun c0 => invariant (length jobs) c0 /\ snapshotInvariant c0)
           (start jobs reporters)); [| | exact Hrun].
  - split; [apply invariant_start | apply snapshotInvariant_start].
  - intros c1 c2 _ Hstep [Hinv Hsnap]. split.
    + exact (invariant_step _ c1 c2 Hinv Hstep).
    + exact (snapshotInvariant_step _ c1 c2 Hinv Hsnap Hstep).
Qed.

(** X23. What [/metrics] reports is a snapshot: whatever a reporting
    goroutine has read, all three fields of it, is the value the
    metrics had at one moment of the run; and as long as the goroutine
    has not released the mutex it is the value they still have. *)
Theorem snapshots_are_taken_at_one_moment
    (jobs : list (string * spec_float)) (reporters : nat) (c : config)
    (t : thread) (s : LLMUsageMetrics) :
  steps (start jobs reporters) c ->
  t ∈ threads c ->
  snapshotOf t = Some s ->
  (exists c0, steps (start jobs reporters) c0 /\ steps c0 c /\ metrics c0 = s) /\
  (holding t = true -> metrics c = s).
Proof.
  intros Hrun Ht Hs. split.
  - revert t s Ht Hs.
    apply (@rtc_ind_r _ step
             (fun c1 => forall t s, t ∈ threads c1 -> snapshotOf t = Some s ->
                exists c0, steps (start jobs reporters) c0 /\ steps c0 c1 /\ metrics c0 = s)
             (start jobs reporters)); [| | exact Hrun]; clear c Hrun.
    + intros t s Ht Hs.
      destruct (start_threads jobs reporters t Ht) as [(m & cost & ->) | ->]; discriminate.
    + intros c1 c2 Hrun Hstep IH tj s Htj Hs.
      assert (Hrun2 : steps (start jobs reporters) c2) by (eapply rtc_r; eassumption).
      pose proof (proj2 (snapshotInvariant_steps jobs reporters c2 Hrun2)) as Hsnap2.
      assert (Hold : forall t0, t0 ∈ threads c1 -> snapshotOf t0 = Some s ->
                exists c0, steps (start jobs reporters) c0 /\ steps c0 c2 /\ metrics c0 = s).
      { intros t0 Ht0 Hs0. destruct (IH t0 s Ht0 Hs0) as (c0 & H1 & H2 & H3).
        exists c0. split; [exact H1 |]. split; [| exact H3]. eapply rtc_r; eassumption. }
      destruct Hstep as [c i t t' g' l' Hi Hst]. cbn [threads] in *.
      apply list_elem_of_lookup_1 in Htj as [j Hj].
      destruct (lookup_updated _ _ _ _ _ _ Hi Hj) as [[-> ->] | [Hne Hj1]].
      * statement_cases t Hst; injection Hst as <- <- <-; simpl in Hs; try discriminate;
          injection Hs as <-.
        -- eexists. split; [exact Hrun2 |]. split; [apply rtc_refl |].
           symmetry. exact (proj2 (Hsnap2 i _) Hj).
        -- eapply Hold; [eapply list_elem_of_lookup_2; exact Hi | reflexivity].
      * apply (Hold tj); [| exact Hs]. eapply list_elem_of_lookup_2. exact Hj1.
  - intros Hin. apply list_elem_of_lookup_1 in Ht as [i Hi].
    destruct t as [m cost pc | [] s0]; simpl in Hs, Hin; try discriminate.
    injection Hs as ->.
    symmetry. exact (proj2 (proj2 (snapshotInvariant_steps jobs reporters c Hrun) i s) Hi).
Qed.

Lemma snapshots_are_taken_at_one_moment_witness :
  let jobs := [("CheapModel", estimatedCost 2); ("ExpensiveModel", estimatedCost 200)] in
  let c := run [0; 0; 0; 0; 0; 2; 2; 2; 2; 1]%nat (start jobs 1) in
  let s := record "CheapModel" (estimatedCost 2) initialMetrics in
  (exists c0, steps (start jobs 1) c0 /\ steps c0 c /\ metrics c0 = s) /\
  (holding (Reporter RepDone s) = true -> metrics c = s).
Proof.
  intros jobs c s.
  refine (snapshots_are_taken_at_one_moment jobs 1 c (Reporter RepDone s) s _ _ _).
  - apply run_steps.
  - vm_compute. do 2 right. left.
  - reflexivity.
Defined.

End Snapshots.
